(** * OSDC-bot: GitHub statistics aggregation, feed polling and role
      reconciliation

    A shallow embedding of the aggregation / synchronisation core of the
    bot:

    - [utils/github_api.py]: the retrying fetch client, the typed queries
      built on it, [fetch_user_stats] and [load_links];
    - [cogs/github_feed.py]: the event cursor store and [feed_loop];
    - [cogs/roles.py] and [cogs/github_leaderboard.py]: ranking by
      [total_stars] and the reconciliation of the "GitHub Top 3" and
      "Open Source Contributor" roles.

    Python dictionaries that are used as maps are [gmap]s, sets are
    [gset]s, insertion-ordered dictionaries whose order is observable are
    association lists built by the dictionary's own insertion; exceptions
    are an explicit error monad with [try]/[except].  The remote API, the
    clock and the chat platform are parameters: every function below is a
    pure function of them.  Where a property depends on a post that is
    refused, on a write that fails or on a remote that changes while a run
    is under way, the functions concerned are given again in the modules
    [Fallible] and [Timed], which coincide with the plain ones when nothing
    fails and nothing changes. *)

From stdpp Require Import gmap strings list fin_maps pretty sorting.
From Stdlib Require Import ZArith Lia Ascii String Sorted Permutation.

Open Scope string_scope.
Open Scope Z_scope.

(** ** Exceptions *)

Module Py.

(** A computation either returns or raises an exception, of which only the
    message [str(e)] is observed by the code. *)
Inductive exc (A : Type) : Type :=
| Ret (a : A)
| Raise (e : string).
Arguments Ret {A} a.
Arguments Raise {A} e.

Definition bind {A B} (c : exc A) (k : A -> exc B) : exc B :=
  match c with
  | Ret a => k a
  | Raise e => Raise e
  end.

(** [try: body  except Exception as e: handler(e)] *)
Definition try_except {A} (body : exc A) (handler : string -> exc A) : exc A :=
  match body with
  | Ret a => Ret a
  | Raise e => handler e
  end.

(** Truth value of a string: [bool(s)]. *)
Definition str_truthy (s : string) : bool := negb (bool_decide (s = "")).

(** Truth value of a list or of a dictionary: non-empty. *)
Definition truthy {A} (l : list A) : bool :=
  match l with
  | [] => false
  | _ :: _ => true
  end.

(** [str.lower()] on the ASCII letters. *)
Definition lower_ascii (c : ascii) : ascii :=
  let n := nat_of_ascii c in
  if ((65 <=? n) && (n <=? 90))%nat then ascii_of_nat (n + 32) else c.

Fixpoint lower (s : string) : string :=
  match s with
  | EmptyString => EmptyString
  | String c rest => String (lower_ascii c) (lower rest)
  end.

End Py.

Import Py.

Notation "'let!' x ':=' c 'in' k" := (bind c (fun x => k))
  (at level 10, x name, c at level 100, k at level 200).

(** ** utils/github_api.py *)

Definition GITHUB_API_URL : string := "https://api.github.com".
Definition GITHUB_SEARCH_URL : string := GITHUB_API_URL +:+ "/search".

(** What one [session.get] can do.  [TransportError] stands for
    [aiohttp.ClientError] and [asyncio.TimeoutError], the two exceptions
    [_make_request] catches; [OtherException] is any other exception, which
    it lets through. *)
Inductive Attempt (A : Type) : Type :=
| Status200 (payload : A)
| Status403
| StatusOther (status : nat)
| TransportError (msg : string)
| OtherException (msg : string).
Arguments Status200 {A} payload.
Arguments Status403 {A}.
Arguments StatusOther {A} status.
Arguments TransportError {A} msg.
Arguments OtherException {A} msg.

(** Payloads, with the fields the bot reads.  A field read with
    [d.get(key, default)] is optional, a field read with [d[key]] is not. *)

(** A user profile is kept whole and only tested for emptiness. *)
Definition UserInfo : Type := list (string * string).

Record Repo : Type := {
  repo_name : string;
  stargazers_count : option Z
}.

Record SearchResult : Type := {
  total_count : option Z
}.

Record Actor : Type := { login : option string }.
Record Numbered : Type := { number : option Z }.

Record Payload : Type := {
  commits : option (list string);
  action : option string;
  issue : option Numbered;
  pull_request : option Numbered
}.

Record Event : Type := {
  id : string;
  type : option string;
  actor : option Actor;
  payload : option Payload
}.

(** The remote API as the client sees it: for each request, the outcome of
    attempt number 0, 1, 2 of that request. *)
Record Remote : Type := {
  (* GET {GITHUB_API_URL}/users/{username} *)
  get_user : string -> nat -> Attempt UserInfo;
  (* GET {GITHUB_API_URL}/users/{username}/repos?per_page=100&sort=updated *)
  get_user_repos : string -> nat -> Attempt (list Repo);
  (* GET {GITHUB_API_URL}/repos/{repo}/events?per_page={per_page} *)
  get_repo_events : string -> nat -> nat -> Attempt (list Event);
  (* GET {GITHUB_SEARCH_URL}/issues?q={query}&per_page=1 *)
  get_search_issues : string -> nat -> Attempt SearchResult
}.

Definition max_retries : nat := 3.

(** The body of [for attempt in range(max_retries)] of [_make_request], over
    the attempts still to make.  Closing the session and the back-off sleep
    between attempts change no value and are left out. *)
Fixpoint request_attempts {A} (get : nat -> Attempt A) (attempts : list nat)
  : exc (option A) :=
  match attempts with
  | [] => Ret None
  | attempt :: rest =>
      match get attempt with
      | Status200 data => Ret (Some data)
      | Status403 => Ret None
      | StatusOther _ => Ret None
      | TransportError _ =>
          if (attempt <? max_retries - 1)%nat
          then request_attempts get rest
          else Ret None
      | OtherException e => Raise e
      end
  end.

Definition _make_request {A} (get : nat -> Attempt A) : exc (option A) :=
  request_attempts get (seq 0 max_retries).

(** [data or default], for a list or a dictionary [data]. *)
Definition or_default {A} (data : option (list A)) : list A :=
  match data with
  | Some (x :: l) => x :: l
  | _ => []
  end.

Definition fetch_repo_events (api : Remote) (repo : string) (per_page : nat)
  : exc (list Event) :=
  let! data := _make_request (get_repo_events api repo per_page) in
  Ret (or_default data).

(** The datetimes of the code are carried as their [isoformat()] strings. *)
Definition merged_prs_query (username : string) (org since : option string) : string :=
  let query := "author:" +:+ username +:+ " is:pr is:merged" in
  let query :=
    match org with
    | Some o => if str_truthy o then query +:+ " org:" +:+ o else query
    | None => query
    end in
  match since with
  | Some s => query +:+ " merged:>" +:+ s
  | None => query
  end.

Definition issues_opened_query (username : string) (org since : option string) : string :=
  let query := "author:" +:+ username +:+ " is:issue" in
  let query :=
    match org with
    | Some o => if str_truthy o then query +:+ " org:" +:+ o else query
    | None => query
    end in
  match since with
  | Some s => query +:+ " created:>" +:+ s
  | None => query
  end.

(** [data.get("total_count", 0) if data else 0] *)
Definition count_of (data : option SearchResult) : Z :=
  match data with
  | Some d => default 0 (total_count d)
  | None => 0
  end.

Definition fetch_user_merged_prs (api : Remote) (username : string)
    (org since : option string) : exc Z :=
  let query := merged_prs_query username org since in
  let! data := _make_request (get_search_issues api query) in
  Ret (count_of data).

Definition fetch_user_issues_opened (api : Remote) (username : string)
    (org since : option string) : exc Z :=
  let query := issues_opened_query username org since in
  let! data := _make_request (get_search_issues api query) in
  Ret (count_of data).

Definition fetch_user_info (api : Remote) (username : string) : exc UserInfo :=
  let! data := _make_request (get_user api username) in
  Ret (or_default data).

Definition fetch_user_repos (api : Remote) (username : string) : exc (list Repo) :=
  let! data := _make_request (get_user_repos api username) in
  Ret (or_default data).

(** [sum(repo.get("stargazers_count", 0) for repo in repos)] *)
Definition star_sum (repos : list Repo) : Z :=
  foldr Z.add 0 ((fun repo => default 0 (stargazers_count repo)) <$> repos).

(** The two shapes of dictionary [fetch_user_stats] returns. *)
Record StatsRecord : Type := {
  username : string;
  user_info : UserInfo;
  total_stars : Z;
  total_repos : nat;
  merged_prs : Z;
  issues_opened : Z;
  repositories : list Repo;
  updated_at : string
}.

Inductive Stats : Type :=
| FullStats (r : StatsRecord)
| ErrorStats (user error : string).

(** The clock: [datetime.now() - timedelta(days=365)] read on entry and
    [datetime.now()] read when the record is assembled. *)
Record Clock : Type := {
  since_year : string;
  now : string
}.

Definition fetch_user_stats (api : Remote) (clock : Clock) (username : string)
    (org : option string) : exc Stats :=
  let since_year := since_year clock in
  try_except
    (let! user_info := fetch_user_info api username in
     if negb (truthy user_info)
     then Ret (ErrorStats username "User not found")
     else
       let! repos := fetch_user_repos api username in
       let total_stars := star_sum repos in
       let! merged_prs := fetch_user_merged_prs api username org (Some since_year) in
       let! issues_opened := fetch_user_issues_opened api username org (Some since_year) in
       Ret (FullStats {|
         username := username;
         user_info := user_info;
         total_stars := total_stars;
         total_repos := List.length repos;
         merged_prs := merged_prs;
         issues_opened := issues_opened;
         repositories := repos;
         updated_at := now clock
       |}))
    (fun e => Ret (ErrorStats username e)).

(** [stats["username"]] *)
Definition stats_username (stats : Stats) : string :=
  match stats with
  | FullStats r => username r
  | ErrorStats u _ => u
  end.

(** [stats.get("total_stars", 0)] *)
Definition get_total_stars (stats : Stats) : Z :=
  match stats with
  | FullStats r => total_stars r
  | ErrorStats _ _ => 0
  end.

(** [stats.get("total_repos", 0)] *)
Definition get_total_repos (stats : Stats) : nat :=
  match stats with
  | FullStats r => total_repos r
  | ErrorStats _ _ => 0%nat
  end.

(** Insertion-ordered dictionaries: [d[k] = v] keeps the place of a key
    that is already there and appends a new one. *)
Fixpoint dict_set {V} (k : Z) (v : V) (d : list (Z * V)) : list (Z * V) :=
  match d with
  | [] => [(k, v)]
  | (k', v') :: rest =>
      if bool_decide (k' = k) then (k, v) :: rest else (k', v') :: dict_set k v rest
  end.

(** [load_links]: the file is absent or unreadable ([None], giving [{}]), or
    holds the items of a JSON object, whose keys [int(k)] has converted.
    The comprehension inserts them one by one. *)
Definition load_links (file : option (list (Z * string))) : list (Z * string) :=
  match file with
  | Some data => foldl (fun links '(k, v) => dict_set k v links) [] data
  | None => []
  end.

(** ** The chat platform *)

Inductive Color : Type :=
| Color_green | Color_yellow | Color_blue | Color_purple
| Color_gold | Color_orange | Color_red | Color_default.

Record EmbedField : Type := {
  name : string;
  value : string;
  inline : bool
}.

(** [discord.Embed], without its timestamp (a clock reading or the parsed
    [created_at], which nothing below depends on). *)
Record Embed : Type := {
  title : string;
  description : string;
  color : Color;
  fields : list EmbedField;
  footer : string
}.

(** [bool(embed)]: an embed is true as soon as one of its parts is set
    (of the parts kept in this record: title, description, fields,
    footer). *)
Definition embed_truthy (embed : Embed) : bool :=
  str_truthy (title embed) || str_truthy (description embed)
  || truthy (fields embed) || str_truthy (footer embed).

Definition add_field (f : EmbedField) (embed : Embed) : Embed :=
  {| title := title embed; description := description embed;
     color := color embed; fields := (fields embed ++ [f])%list;
     footer := footer embed |}.

Definition set_footer (text : string) (embed : Embed) : Embed :=
  {| title := title embed; description := description embed;
     color := color embed; fields := fields embed; footer := text |}.

(** A text channel is the list of the embeds sent to it, oldest first.
    [send] and the role mutations below are the requests the bot makes of
    the platform; a request the platform refuses is outside this model. *)
Definition Channel : Type := list Embed.

Definition send (embed : Embed) (channel : Channel) : Channel :=
  (channel ++ [embed])%list.

Record Member : Type := {
  display_name : string;
  member_roles : gset string
}.

(** A guild: its roles and its text channels, both identified by name as
    the cogs look them up, and its members by id. *)
Record Guild : Type := {
  roles : list string;
  text_channels : list string;
  members : gmap Z Member
}.

(** The role mutations requested from the platform, in order. *)
Inductive RoleOp : Type :=
| RemoveRoles (member : Z) (role : string)
| AddRoles (member : Z) (role : string).

#[global] Instance RoleOp_eq_dec : EqDecision RoleOp.
Proof. solve_decision. Defined.

Definition set_member_roles (f : gset string -> gset string) (m : Member) : Member :=
  {| display_name := display_name m; member_roles := f (member_roles m) |}.

Definition without_role (role : string) : Member -> Member :=
  set_member_roles (fun rs => rs ∖ {[role]}).

Definition with_role (role : string) : Member -> Member :=
  set_member_roles (fun rs => rs ∪ {[role]}).

(** [await member.remove_roles(role)] *)
Definition remove_roles (member : Z) (role : string) (guild : Guild) : Guild :=
  {| roles := roles guild; text_channels := text_channels guild;
     members := alter (without_role role) member (members guild) |}.

(** [await member.add_roles(role)] *)
Definition add_roles (member : Z) (role : string) (guild : Guild) : Guild :=
  {| roles := roles guild; text_channels := text_channels guild;
     members := alter (with_role role) member (members guild) |}.

(** [discord.utils.get(guild.roles, name=...)], then [guild.create_role]
    when there is none. *)
Definition get_or_create_role (role : string) (guild : Guild) : Guild :=
  if bool_decide (role ∈ roles guild) then guild
  else {| roles := (roles guild ++ [role])%list;
          text_channels := text_channels guild;
          members := members guild |}.

(** [role in member.roles], for the member with this id, if present. *)
Definition has_role (guild : Guild) (member : Z) (role : string) : bool :=
  match members guild !! member with
  | Some m => bool_decide (role ∈ member_roles m)
  | None => false
  end.

(** ** cogs/github_feed.py *)

Record GitHubFeed : Type := {
  repo_subscribers : gmap string (gset Z);
  last_event_ids : gmap string string;
  (* github_feed_data.json *)
  feed_file : gmap string string
}.

(** [save_last_events] when the write goes through;
    [Fallible.save_last_events] below has the write that fails. *)
Definition save_last_events (cog : GitHubFeed) : GitHubFeed :=
  {| repo_subscribers := repo_subscribers cog;
     last_event_ids := last_event_ids cog;
     feed_file := last_event_ids cog |}.

Definition color_map (event_type : string) : Color :=
  if bool_decide (event_type = "PushEvent") then Color_green
  else if bool_decide (event_type = "IssuesEvent") then Color_yellow
  else if bool_decide (event_type = "PullRequestEvent") then Color_blue
  else if bool_decide (event_type = "CreateEvent") then Color_purple
  else if bool_decide (event_type = "ReleaseEvent") then Color_gold
  else if bool_decide (event_type = "ForkEvent") then Color_orange
  else if bool_decide (event_type = "WatchEvent") then Color_red
  else Color_default.

(** [d.get("number", "?")] inside an f-string *)
Definition number_text (n : option Numbered) : string :=
  match n with
  | Some {| number := Some k |} => pretty k
  | _ => "?"
  end.

Definition create_event_embed (repo : string) (event : Event) : Embed :=
  let event_type := default "" (type event) in
  let actor :=
    match actor event with
    | Some a => default "Unknown" (login a)
    | None => "Unknown"
    end in
  let embed :=
    {| title := "📂 " +:+ repo; description := "";
       color := color_map event_type; fields := []; footer := "" |} in
  let payload := default {| commits := None; action := None; issue := None;
                            pull_request := None |} (payload event) in
  let embed :=
    if bool_decide (event_type = "PushEvent") then
      let commits := default [] (commits payload) in
      let commit_count := List.length commits in
      add_field {| name := "🔨 Push Event";
                   value := "**" +:+ actor +:+ "** pushed " +:+ pretty commit_count
                            +:+ " commit(s)";
                   inline := false |} embed
    else if bool_decide (event_type = "IssuesEvent") then
      let action := default "" (action payload) in
      add_field {| name := "🐛 Issue Event";
                   value := "**" +:+ actor +:+ "** " +:+ action +:+ " issue #"
                            +:+ number_text (issue payload);
                   inline := false |} embed
    else if bool_decide (event_type = "PullRequestEvent") then
      let action := default "" (action payload) in
      add_field {| name := "🔄 Pull Request Event";
                   value := "**" +:+ actor +:+ "** " +:+ action +:+ " PR #"
                            +:+ number_text (pull_request payload);
                   inline := false |} embed
    else
      add_field {| name := "📋 " +:+ event_type;
                   value := "**" +:+ actor +:+ "** performed " +:+ lower event_type;
                   inline := false |} embed in
  let embed :=
    add_field {| name := "🔗 Repository";
                 value := "[" +:+ repo +:+ "](https://github.com/" +:+ repo +:+ ")";
                 inline := true |} embed in
  set_footer ("GitHub • " +:+ event_type) embed.

(** [last_event_id and event["id"] == last_event_id] *)
Definition at_watermark (last_event_id : option string) (event : Event) : bool :=
  match last_event_id with
  | Some w => str_truthy w && bool_decide (id event = w)
  | None => false
  end.

(** The loop that fills [new_events], with its [break]. *)
Fixpoint collect_new_events (last_event_id : option string) (events : list Event)
  : list Event :=
  match events with
  | [] => []
  | event :: rest =>
      if at_watermark last_event_id event then []
      else event :: collect_new_events last_event_id rest
  end.

(** [for event in reversed(new_events)]: post each embed.  The one-second
    sleep after a post is left out. *)
Definition post_events (repo : string) (new_events : list Event) (channel : Channel)
  : Channel :=
  foldl (fun channel event =>
           let embed := create_event_embed repo event in
           if embed_truthy embed then send embed channel else channel)
        channel (reverse new_events).

Definition set_last_event_id (repo event_id : string) (cog : GitHubFeed) : GitHubFeed :=
  {| repo_subscribers := repo_subscribers cog;
     last_event_ids := <[repo := event_id]> (last_event_ids cog);
     feed_file := feed_file cog |}.

(** One poll: the [try] block of [feed_loop] for a repository that has
    subscribers.  The handler of [except Exception] prints and goes on.
    Here every post is delivered; [Fallible.poll_repo] below is the poll in
    which a post can be refused, and coincides with this one when none
    is. *)
Definition poll_repo (api : Remote) (repo : string) (cog : GitHubFeed)
    (channel : Channel) : GitHubFeed * Channel :=
  match fetch_repo_events api repo 5 with
  | Raise e => (cog, channel)
  | Ret events =>
      if negb (truthy events) then (cog, channel)
      else
        let last_event_id := last_event_ids cog !! repo in
        let new_events := collect_new_events last_event_id events in
        let channel := post_events repo new_events channel in
        match events with
        | newest :: _ => (set_last_event_id repo (id newest) cog, channel)
        | [] => (cog, channel)
        end
  end.

(** The body of [for repo in list(self.repo_subscribers.keys())]. *)
Definition feed_step (api : Remote) (st : GitHubFeed * Channel) (repo : string)
  : GitHubFeed * Channel :=
  let '(cog, channel) := st in
  match repo_subscribers cog !! repo with
  | Some subscribers =>
      if bool_decide (subscribers = ∅) then (cog, channel)
      else poll_repo api repo cog channel
  | None => (cog, channel)
  end.

(** [feed_loop]; [channel] is [None] when no feed channel is configured or
    the bot does not find it. *)
Definition feed_loop (api : Remote) (channel : option Channel) (cog : GitHubFeed)
  : GitHubFeed * option Channel :=
  match channel with
  | None => (cog, None)
  | Some channel =>
      let '(cog, channel) :=
        foldl (feed_step api) (cog, channel) (map_to_list (repo_subscribers cog)).*1 in
      (save_last_events cog, Some channel)
  end.

(** The watermark of a repository after one poll of it, as read off
    [poll_repo]: the id of the newest fetched event, or the old watermark
    when nothing was fetched. *)
Definition polled_watermark (api : Remote) (repo : string) (old : option string)
  : option string :=
  match fetch_repo_events api repo 5 with
  | Ret (newest :: _) => Some (id newest)
  | _ => old
  end.

(** Whether [feed_loop] polls a repository: it has subscribers. *)
Definition is_polled (cog : GitHubFeed) (repo : string) : bool :=
  match repo_subscribers cog !! repo with
  | Some subscribers => negb (bool_decide (subscribers = ∅))
  | None => false
  end.

(** ** Ranking *)

(** An entry of [user_stats]: [(discord_id, github_username, stats)]. *)
Definition UserStats : Type := Z * string * Stats.

Definition discord_id (entry : UserStats) : Z := entry.1.1.
Definition github_username (entry : UserStats) : string := entry.1.2.
Definition stats_of (entry : UserStats) : Stats := entry.2.

(** [lambda x: x[2].get("total_stars", 0)] *)
Definition stars_key (x : UserStats) : Z := get_total_stars (stats_of x).

(** [l.sort(key=key, reverse=True)].  Python's sort is stable, and stays so
    under [reverse=True]: entries with equal keys keep their order.  That
    contract is rendered by an insertion sort that puts an entry in front
    of the first entry whose key is not larger. *)
Fixpoint insert_reverse {A} (key : A -> Z) (x : A) (sorted : list A) : list A :=
  match sorted with
  | [] => [x]
  | y :: rest =>
      if key x <? key y then y :: insert_reverse key x rest
      else x :: y :: rest
  end.

Definition sort_reverse {A} (key : A -> Z) (l : list A) : list A :=
  foldr (insert_reverse key) [] l.

(** The loop over [links.items()] that fills [user_stats]; an exception of
    [fetch_user_stats] is printed and the link left out. *)
Definition fetch_stats_step (api : Remote) (clock : Clock)
    (user_stats : list UserStats) (link : Z * string) : list UserStats :=
  let '(discord_id, github_username) := link in
  match fetch_user_stats api clock github_username None with
  | Ret stats => (user_stats ++ [(discord_id, github_username, stats)])%list
  | Raise e => user_stats
  end.

(** [GitHubLeaderboard.fetch_all_user_stats] (the same loop opens
    [RolesCog.update_github_roles]). *)
Definition fetch_all_user_stats (api : Remote) (clock : Clock)
    (links_file : option (list (Z * string))) : list UserStats :=
  let links := load_links links_file in
  foldl (fetch_stats_step api clock) [] links.

(** ** cogs/roles.py *)

Definition top_role : string := "GitHub Top 3".
Definition os_role : string := "Open Source Contributor".

(** The state the role loops run on: the guild and the mutations requested
    so far. *)
Definition RoleState : Type := Guild * list RoleOp.

(** [if role in member.roles: await member.remove_roles(role)] *)
Definition strip_role (role : string) (st : RoleState) (member : Z) : RoleState :=
  if has_role st.1 member role
  then (remove_roles member role st.1, (st.2 ++ [RemoveRoles member role])%list)
  else st.

(** [member = guild.get_member(discord_id)] and
    [if member: await member.add_roles(role)] *)
Definition grant_role (role : string) (st : RoleState) (entry : UserStats) : RoleState :=
  match members st.1 !! discord_id entry with
  | Some member =>
      (add_roles (discord_id entry) role st.1,
       (st.2 ++ [AddRoles (discord_id entry) role])%list)
  | None => st
  end.

(** [guild.members] *)
Definition member_ids (guild : Guild) : list Z := (map_to_list (members guild)).*1.

Definition assign_top_contributor_roles (guild : Guild) (user_stats : list UserStats)
  : RoleState :=
  let guild := get_or_create_role top_role guild in
  (* Remove role from all members *)
  let st := foldl (strip_role top_role) (guild, []) (member_ids guild) in
  (* Assign to top 3 *)
  foldl (grant_role top_role) st (take 3 user_stats).

(** [stars >= 50 or repos >= 5] *)
Definition meets_criteria (stats : Stats) : bool :=
  let stars := get_total_stars stats in
  let repos := get_total_repos stats in
  (50 <=? stars) || (5 <=? repos)%nat.

Definition open_source_step (st : RoleState) (entry : UserStats) : RoleState :=
  match members st.1 !! discord_id entry with
  | Some member =>
      if meets_criteria (stats_of entry) then
        if negb (bool_decide (os_role ∈ member_roles member))
        then (add_roles (discord_id entry) os_role st.1,
              (st.2 ++ [AddRoles (discord_id entry) os_role])%list)
        else st
      else
        if bool_decide (os_role ∈ member_roles member)
        then (remove_roles (discord_id entry) os_role st.1,
              (st.2 ++ [RemoveRoles (discord_id entry) os_role])%list)
        else st
  | None => st
  end.

Definition assign_open_source_roles (guild : Guild) (user_stats : list UserStats)
  : RoleState :=
  let guild := get_or_create_role os_role guild in
  foldl open_source_step (guild, []) user_stats.

(** What the two loops of [assign_top_contributor_roles] do, taken
    together, to the member with id [i]. *)
Definition top_effect (user_stats : list UserStats) (i : Z) (m : Member) : Member :=
  let m := without_role top_role m in
  if bool_decide (i ∈ discord_id <$> take 3 user_stats) then with_role top_role m
  else m.

(** What one iteration of the loop of [assign_open_source_roles] does to
    the member with id [i]. *)
Definition open_source_effect (i : Z) (m : Member) (entry : UserStats) : Member :=
  if bool_decide (discord_id entry = i) then
    if meets_criteria (stats_of entry) then with_role os_role m
    else without_role os_role m
  else m.

(** Both role assignments of [update_github_roles], one after the other. *)
Definition reconcile_roles (user_stats : list UserStats) (guild : Guild) : Guild :=
  (assign_open_source_roles (assign_top_contributor_roles guild user_stats).1
     user_stats).1.

Definition newline : string := String (ascii_of_nat 10) EmptyString.

(** ["🥇" if i == 1 else "🥈" if i == 2 else "🥉" if i == 3 else f"{i}."] *)
Definition medal (i : nat) : string :=
  if (i =? 1)%nat then "🥇"
  else if (i =? 2)%nat then "🥈"
  else if (i =? 3)%nat then "🥉"
  else pretty i +:+ ".".

(** [member.display_name if member else github_username] *)
Definition display_name_of (guild : option Guild) (entry : UserStats) : string :=
  match guild with
  | Some g =>
      match members g !! discord_id entry with
      | Some member => display_name member
      | None => github_username entry
      end
  | None => github_username entry
  end.

(** A line of the leaderboards that show stars and repositories; [i] counts
    from 0, the code's [enumerate(..., 1)] from 1. *)
Definition stars_repos_line (guild : option Guild) (i : nat) (entry : UserStats) : string :=
  medal (S i) +:+ " **" +:+ display_name_of guild entry +:+ "** - ⭐"
    +:+ pretty (get_total_stars (stats_of entry)) +:+ " stars, 📚"
    +:+ pretty (get_total_repos (stats_of entry)) +:+ " repos" +:+ newline.

(** A line of the leaderboards that show stars only. *)
Definition stars_line (guild : option Guild) (i : nat) (entry : UserStats) : string :=
  medal (S i) +:+ " **" +:+ display_name_of guild entry +:+ "** - ⭐"
    +:+ pretty (get_total_stars (stats_of entry)) +:+ newline.

Definition leaderboard_text (lines : list string) : string :=
  foldl (fun text line => text +:+ line) "" lines.

(** [post_daily_leaderboard]: the channel posted to and the embed, or
    nothing when the guild has neither channel. *)
Definition post_daily_leaderboard (guild : Guild) (user_stats : list UserStats)
  : option (string * Embed) :=
  let channel :=
    if bool_decide ("general" ∈ text_channels guild) then Some "general"
    else if bool_decide ("github-updates" ∈ text_channels guild)
         then Some "github-updates" else None in
  match channel with
  | None => None
  | Some channel =>
      let embed :=
        {| title := "🏆 Daily GitHub Leaderboard";
           description := "Top contributors based on GitHub stars";
           color := Color_blue; fields := []; footer := "" |} in
      let text :=
        leaderboard_text (imap (stars_repos_line (Some guild)) (take 10 user_stats)) in
      let embed :=
        if str_truthy text
        then add_field {| name := "Top Contributors"; value := text;
                          inline := false |} embed
        else embed in
      Some (channel, embed)
  end.

(** What one run of [update_github_roles] leaves behind. *)
Record RolesRun : Type := {
  run_guild : Guild;
  run_ops : list RoleOp;
  run_post : option (string * Embed)
}.

(** [update_github_roles]; [guild] is what [bot.get_guild] returns.  With no
    guild the run does nothing. *)
Definition update_github_roles (api : Remote) (clock : Clock)
    (links_file : option (list (Z * string))) (guild : option Guild)
  : option RolesRun :=
  match guild with
  | None => None
  | Some guild =>
      let user_stats := fetch_all_user_stats api clock links_file in
      (* Sort by total stars *)
      let user_stats := sort_reverse stars_key user_stats in
      (* Update roles *)
      let '(guild, ops1) := assign_top_contributor_roles guild user_stats in
      let '(guild, ops2) := assign_open_source_roles guild user_stats in
      Some {| run_guild := guild; run_ops := (ops1 ++ ops2)%list;
              run_post := post_daily_leaderboard guild user_stats |}
  end.

(** ** cogs/github_leaderboard.py *)

(** The embed of [weekly_leaderboard] and [monthly_leaderboard]: the first
    [shown] entries, stars only. *)
Definition rankings_embed (title description : string) (shown : nat)
    (guild : option Guild) (user_stats : list UserStats) : Embed :=
  add_field {| name := "🏆 Rankings";
               value := leaderboard_text (imap (stars_line guild) (take shown user_stats));
               inline := false |}
    {| title := title; description := description; color := Color_gold;
       fields := []; footer := "" |}.

(** [weekly_leaderboard]: nothing without a channel or without linked
    users. *)
Definition weekly_leaderboard (api : Remote) (clock : Clock)
    (links_file : option (list (Z * string))) (guild : option Guild)
    (channel : option Channel) : option Channel :=
  match channel with
  | None => None
  | Some channel =>
      let user_stats := fetch_all_user_stats api clock links_file in
      if negb (truthy user_stats) then Some channel
      else
        let user_stats := sort_reverse stars_key user_stats in
        Some (send (rankings_embed "🏆 Weekly GitHub Leaderboard"
                      "Top contributors this week" 10 guild user_stats) channel)
  end.

(** [monthly_leaderboard]: the "GitHub Top 3" role is replaced by the same
    two loops as in [assign_top_contributor_roles], then the first 15 are
    posted. *)
Definition monthly_leaderboard (api : Remote) (clock : Clock)
    (links_file : option (list (Z * string))) (guild : option Guild)
    (channel : option Channel) : option RoleState * option Channel :=
  match channel with
  | None => (None, None)
  | Some channel =>
      let user_stats := fetch_all_user_stats api clock links_file in
      if negb (truthy user_stats) then (None, Some channel)
      else
        let user_stats := sort_reverse stars_key user_stats in
        let st :=
          match guild with
          | Some guild =>
              let guild := get_or_create_role top_role guild in
              let st := foldl (strip_role top_role) (guild, []) (member_ids guild) in
              Some (foldl (grant_role top_role) st (take 3 user_stats))
          | None => None
          end in
        (st, Some (send (rankings_embed "🎉 Monthly GitHub Champions"
                           "Congratulations to this month's top contributors!" 15
                           (fst <$> st) user_stats) channel))
  end.

(** ** Sample data *)

Definition demo_clock : Clock :=
  {| since_year := "2024-06-01T12:00:00"; now := "2025-06-01T12:00:00" |}.

Definition demo_repos : list Repo :=
  [ {| repo_name := "hello-world"; stargazers_count := Some 40 |};
    {| repo_name := "dotfiles"; stargazers_count := None |};
    {| repo_name := "spoon-knife"; stargazers_count := Some 12 |} ].

Definition push_event (event_id : string) : Event :=
  {| id := event_id; type := Some "PushEvent";
     actor := Some {| login := Some "octocat" |};
     payload := Some {| commits := Some ["c1"]; action := None; issue := None;
                        pull_request := None |} |}.

Definition demo_events : list Event :=
  [push_event "E105"; push_event "E104"; push_event "E100"; push_event "E99"].

(** A remote that knows the user "octocat" and the repository "octo/demo"
    and answers 404 for everything else. *)
Definition demo_api : Remote :=
  {| get_user := fun username _ =>
       if bool_decide (username = "octocat")
       then Status200 [("login", "octocat")] else StatusOther 404;
     get_user_repos := fun username _ =>
       if bool_decide (username = "octocat")
       then Status200 demo_repos else StatusOther 404;
     get_repo_events := fun repo _ _ =>
       if bool_decide (repo = "octo/demo")
       then Status200 demo_events else StatusOther 404;
     get_search_issues := fun _ _ => Status200 {| total_count := Some 2 |} |}.

Definition demo_record : StatsRecord :=
  {| username := "octocat"; user_info := [("login", "octocat")];
     total_stars := 52; total_repos := 3; merged_prs := 2; issues_opened := 2;
     repositories := demo_repos; updated_at := "2025-06-01T12:00:00" |}.

(** The same remote, except that listing repositories fails with an
    exception that [_make_request] does not catch. *)
Definition broken_api : Remote :=
  {| get_user := get_user demo_api;
     get_user_repos := fun _ _ => OtherException "invalid JSON";
     get_repo_events := get_repo_events demo_api;
     get_search_issues := get_search_issues demo_api |}.

(** A remote whose event feed returns [events] for every repository. *)
Definition remote_with_events (events : list Event) : Remote :=
  {| get_user := fun _ _ => StatusOther 404;
     get_user_repos := fun _ _ => StatusOther 404;
     get_repo_events := fun _ _ _ => Status200 events;
     get_search_issues := fun _ _ => StatusOther 404 |}.

(** The feed cog with one subscriber to "octo/demo" and the given
    watermark for it. *)
Definition demo_cog (watermark : option string) : GitHubFeed :=
  {| repo_subscribers := {[ "octo/demo" := {[ 1001 ]} ]};
     last_event_ids :=
       match watermark with
       | Some w => {[ "octo/demo" := w ]}
       | None => ∅
       end;
     feed_file := ∅ |}.

(** A full stats record with the given stars and repository count. *)
Definition stats_with (user : string) (stars : Z) (repos : nat) : Stats :=
  FullStats {| username := user; user_info := [("login", user)];
               total_stars := stars; total_repos := repos;
               merged_prs := 0; issues_opened := 0; repositories := [];
               updated_at := "2025-06-01T12:00:00" |}.

(** The ranking scenario of the specification: A, B, C linked in this
    order with 10, 50 and 50 stars. *)
Definition demo_user_stats : list UserStats :=
  [ (1001, "A", stats_with "A" 10 1);
    (1002, "B", stats_with "B" 50 2);
    (1003, "C", stats_with "C" 50 3) ].

(** A guild in which A (1001) holds both roles, B (1002) holds none, C
    (1003) has left, and a fourth member (1004) holds the top role from an
    earlier ranking. *)
Definition demo_guild : Guild :=
  {| roles := ["GitHub Top 3"; "Open Source Contributor"];
     text_channels := ["general"];
     members :=
       {[ 1001 := {| display_name := "alice";
                     member_roles := {[ "GitHub Top 3"; "Open Source Contributor" ]} |};
          1002 := {| display_name := "bob"; member_roles := ∅ |};
          1004 := {| display_name := "dave";
                     member_roles := {[ "GitHub Top 3" ]} |} ]} |}.

(** * The rest of the client, the links and the commands *)

(** ** utils/github_api.py: the session and the back-off *)

(** [self.session]: no session, or a session that is open or closed. *)
Inductive Session : Type := SessionOpen | SessionClosed.

(** The client with what [_make_request] does besides returning: the
    sessions it creates and closes and the seconds it sleeps, oldest
    first. *)
Record Client : Type := {
  session : option Session;
  created : nat;
  closed : nat;
  slept : list nat
}.

(** [GitHubAPI(token)] *)
Definition new_client : Client :=
  {| session := None; created := 0; closed := 0; slept := [] |}.

(** [if self.session is None or self.session.closed:
       self.session = aiohttp.ClientSession()] *)
Definition _get_session (c : Client) : Client :=
  match session c with
  | Some SessionOpen => c
  | _ => {| session := Some SessionOpen; created := S (created c);
            closed := closed c; slept := slept c |}
  end.

Definition __aenter__ (c : Client) : Client := _get_session c.

(** [if self.session and not self.session.closed:
       await self.session.close()
       self.session = None] *)
Definition __aexit__ (c : Client) : Client :=
  match session c with
  | Some SessionOpen =>
      {| session := None; created := created c; closed := S (closed c);
         slept := slept c |}
  | _ => c
  end.

(** [await asyncio.sleep(seconds)] *)
Definition sleep (seconds : nat) (c : Client) : Client :=
  {| session := session c; created := created c; closed := closed c;
     slept := (slept c ++ [seconds])%list |}.

(** The reset between two attempts: the session is closed if it is open,
    and dropped in any case. *)
Definition reset_session (c : Client) : Client :=
  {| session := None; created := created c;
     closed := match session c with
               | Some SessionOpen => S (closed c)
               | _ => closed c
               end;
     slept := slept c |}.

(** [_make_request] once more, with the client it leaves. *)
Fixpoint request_attempts_on {A} (get : nat -> Attempt A) (attempts : list nat)
    (c : Client) : exc (option A) * Client :=
  match attempts with
  | [] => (Ret None, c)
  | attempt :: rest =>
      let c := _get_session c in
      match get attempt with
      | Status200 data => (Ret (Some data), c)
      | Status403 => (Ret None, c)
      | StatusOther _ => (Ret None, c)
      | TransportError _ =>
          if (attempt <? max_retries - 1)%nat
          then request_attempts_on get rest (reset_session (sleep (2 ^ attempt) c))
          else (Ret None, c)
      | OtherException e => (Raise e, c)
      end
  end.

Definition _make_request_on {A} (get : nat -> Attempt A) (c : Client)
  : exc (option A) * Client :=
  request_attempts_on get (seq 0 max_retries) c.

(** The attempts before attempt [i] all failed in transport, so that
    attempt [i] is made. *)
Definition retried {A} (get : nat -> Attempt A) (i : nat) : Prop :=
  forall j, (j < i)%nat -> exists msg, get j = TransportError msg.

(** [async with api: ...] around any number of requests: the client after
    [__aexit__]. *)
Definition with_client {A} (gets : list (nat -> Attempt A)) (c : Client) : Client :=
  __aexit__ (foldl (fun c get => (_make_request_on get c).2) (__aenter__ c) gets).

(** A client has lost no session when every session it created is closed,
    but for the one it holds open. *)
Definition open_sessions (c : Client) : nat :=
  match session c with
  | Some SessionOpen => 1
  | _ => 0
  end.

(** The module-level [get_github_stars] and [get_github_repos]. *)
Definition get_github_stars (api : Remote) (clock : Clock) (username : string)
  : exc Z :=
  let! stats := fetch_user_stats api clock username None in
  Ret (get_total_stars stats).

Definition get_github_repos (api : Remote) (clock : Clock) (username : string)
  : exc nat :=
  let! stats := fetch_user_stats api clock username None in
  Ret (get_total_repos stats).

(** ** The link store *)

(** [links.get(k)], [k in links] *)
Fixpoint dict_get {V} (k : Z) (d : list (Z * V)) : option V :=
  match d with
  | [] => None
  | (k', v) :: rest => if bool_decide (k' = k) then Some v else dict_get k rest
  end.

(** [save_links]: the dictionary is written with its keys as strings,
    which [load_links] converts back; as there the file is kept with the
    integers the strings denote.  A write that fails is printed and leaves
    the file as it was. *)
Definition save_links (writable : bool) (links : list (Z * string))
    (file : option (list (Z * string))) : option (list (Z * string)) :=
  if writable then Some links else file.

(** ** cogs/github.py *)

(** What a command answers: a text or an embed. *)
Inductive Reply : Type :=
| Text (content : string)
| Rich (embed : Embed).

(** [ctx.author.mention] *)
Definition mention (user_id : Z) : string := "<@" +:+ pretty user_id +:+ ">".

(** [link_github]: the links file afterwards and the answer.  Any
    exception ends in the answer of the handler. *)
Definition link_github (api : Remote) (writable : bool)
    (file : option (list (Z * string))) (author : Z) (github_username : string)
  : option (list (Z * string)) * Reply :=
  match fetch_user_info api github_username with
  | Raise e => (file, Text ("❌ Error linking GitHub account: " +:+ e))
  | Ret user_info =>
      if negb (truthy user_info)
      then (file, Text ("❌ GitHub user '" +:+ github_username +:+ "' not found!"))
      else
        let links := load_links file in
        let links := dict_set author github_username links in
        let file := save_links writable links file in
        let embed :=
          {| title := "✅ GitHub Account Linked";
             description := "Successfully linked " +:+ mention author
                            +:+ " to GitHub user **" +:+ github_username +:+ "**";
             color := Color_green; fields := []; footer := "" |} in
        let embed :=
          add_field {| name := "Profile";
                       value := "[" +:+ github_username +:+ "](https://github.com/"
                                +:+ github_username +:+ ")";
                       inline := false |} embed in
        (file, Rich embed)
  end.

(** An endpoint that fails in transport once and then answers 403. *)
Definition flaky_then_limited : nat -> Attempt (list Repo) :=
  fun attempt => if (attempt =? 0)%nat then TransportError "timeout" else Status403.

(** An endpoint that is never reached. *)
Definition unreachable : nat -> Attempt (list Repo) :=
  fun _ => TransportError "connection refused".

(** The sample remote with its search endpoint rate-limited. *)
Definition search_limited_api : Remote :=
  {| get_user := get_user demo_api;
     get_user_repos := get_user_repos demo_api;
     get_repo_events := get_repo_events demo_api;
     get_search_issues := fun _ _ => Status403 |}.

(** ** cogs/github_feed.py: the subscriptions *)

(** ["/" in s] *)
Fixpoint contains_slash (s : string) : bool :=
  match s with
  | EmptyString => false
  | String c rest => bool_decide (c = "/"%char) || contains_slash rest
  end.

(** [s.split("/")] *)
Fixpoint split_slash (s : string) : list string :=
  match s with
  | EmptyString => [EmptyString]
  | String c rest =>
      if bool_decide (c = "/"%char) then EmptyString :: split_slash rest
      else
        match split_slash rest with
        | piece :: pieces => String c piece :: pieces
        | [] => [String c EmptyString]
        end
  end.

(** The guard of [subscribe_repo], negated:
    [not ("/" not in repo or len(repo.split("/")) != 2)]. *)
Definition valid_repo_format (repo : string) : bool :=
  negb (negb (contains_slash repo)
        || negb (List.length (split_slash repo) =? 2)%nat).

(** [github_subscribers.json]: repository to list of subscriber ids. *)
Definition save_subscribers (writable : bool) (subscribers : gmap string (gset Z))
    (file : option (gmap string (list Z))) : option (gmap string (list Z)) :=
  if writable then Some (elements <$> subscribers) else file.

Definition load_subscribers (file : option (gmap string (list Z)))
  : gmap string (gset Z) :=
  match file with
  | Some data => list_to_set <$> data
  | None => ∅
  end.

(** [load_last_events] *)
Definition load_last_events (file : option (gmap string string))
  : gmap string string :=
  match file with
  | Some data => data
  | None => ∅
  end.

Definition set_subscribers (subscribers : gmap string (gset Z)) (cog : GitHubFeed)
  : GitHubFeed :=
  {| repo_subscribers := subscribers;
     last_event_ids := last_event_ids cog;
     feed_file := feed_file cog |}.

(** What a command of the feed cog leaves: the cog, the subscribers file
    and the answer. *)
Record FeedCommand : Type := {
  cmd_cog : GitHubFeed;
  cmd_file : option (gmap string (list Z));
  cmd_reply : Reply
}.

Definition subscribe_repo (writable : bool) (file : option (gmap string (list Z)))
    (cog : GitHubFeed) (author : Z) (repo : string) : FeedCommand :=
  if negb (valid_repo_format repo)
  then {| cmd_cog := cog; cmd_file := file;
          cmd_reply := Text "❌ Invalid repository format. Use `owner/repo`" |}
  else
    let subscribers :=
      match repo_subscribers cog !! repo with
      | Some _ => repo_subscribers cog
      | None => <[repo := ∅]> (repo_subscribers cog)
      end in
    let current := default ∅ (subscribers !! repo) in
    if bool_decide (author ∈ current)
    then {| cmd_cog := set_subscribers subscribers cog; cmd_file := file;
            cmd_reply := Text ("✅ You are already subscribed to **" +:+ repo
                               +:+ "**") |}
    else
      let subscribers := <[repo := current ∪ {[author]}]> subscribers in
      {| cmd_cog := set_subscribers subscribers cog;
         cmd_file := save_subscribers writable subscribers file;
         cmd_reply := Text ("✅ Subscribed to **" +:+ repo +:+ "** updates!") |}.

Definition unsubscribe_repo (writable : bool) (file : option (gmap string (list Z)))
    (cog : GitHubFeed) (author : Z) (repo : string) : FeedCommand :=
  let not_subscribed :=
    {| cmd_cog := cog; cmd_file := file;
       cmd_reply := Text ("❌ You are not subscribed to **" +:+ repo +:+ "**") |} in
  match repo_subscribers cog !! repo with
  | None => not_subscribed
  | Some current =>
      if negb (bool_decide (author ∈ current)) then not_subscribed
      else
        let current := current ∖ {[author]} in
        let subscribers := <[repo := current]> (repo_subscribers cog) in
        let subscribers :=
          if bool_decide (current = ∅) then delete repo subscribers
          else subscribers in
        {| cmd_cog := set_subscribers subscribers cog;
           cmd_file := save_subscribers writable subscribers file;
           cmd_reply := Text ("✅ Unsubscribed from **" +:+ repo +:+ "**") |}
  end.

(** The repositories [list_subscriptions] collects for the author. *)
Definition user_repos (cog : GitHubFeed) (author : Z) : list string :=
  (filter (fun entry : string * gset Z => author ∈ entry.2)
     (map_to_list (repo_subscribers cog))).*1.

Definition list_subscriptions (cog : GitHubFeed) (author : Z) : Reply :=
  let user_repos := user_repos cog author in
  if negb (truthy user_repos)
  then Text "📭 You are not subscribed to any repositories"
  else
    Rich (foldl (fun embed repo =>
                   add_field {| name := repo;
                                value := "[View Repository](https://github.com/"
                                         +:+ repo +:+ ")";
                                inline := false |} embed)
            {| title := "📚 Your GitHub Subscriptions";
               description := "You are subscribed to "
                              +:+ pretty (List.length user_repos)
                              +:+ " repositories";
               color := Color_blue; fields := []; footer := "" |}
            user_repos).

(** A cog in which "octo/demo" has the single subscriber 1001 and the
    watermark "E100". *)
Definition watched_cog : GitHubFeed := demo_cog (Some "E100").

(** ** cogs/roles.py and cogs/github_leaderboard.py: the commands *)

(** The members that hold [role]. *)
Definition holders (role : string) (guild : Guild) : list Z :=
  filter (fun i => has_role guild i role = true) (member_ids guild).

(** The embed of the two leaderboard commands: the first 10 entries with
    stars and repositories, in one field. *)
Definition stars_repos_embed (title description field_name : string)
    (guild : Guild) (user_stats : list UserStats) : Embed :=
  add_field {| name := field_name;
               value := leaderboard_text
                          (imap (stars_repos_line (Some guild)) (take 10 user_stats));
               inline := false |}
    {| title := title; description := description; color := Color_blue;
       fields := []; footer := "" |}.

(** [RolesCog.github_leaderboard]; [guild] is [ctx.guild]. *)
Definition github_leaderboard (api : Remote) (clock : Clock)
    (links_file : option (list (Z * string))) (guild : Guild) : list Reply :=
  let user_stats := fetch_all_user_stats api clock links_file in
  if negb (truthy user_stats)
  then [Text "📊 Fetching GitHub leaderboard..."; Text "❌ No GitHub data available!"]
  else
    let user_stats := sort_reverse stars_key user_stats in
    [Text "📊 Fetching GitHub leaderboard...";
     Rich (stars_repos_embed "🏆 GitHub Leaderboard"
             "Top contributors based on GitHub stars" "Top Contributors"
             guild user_stats)].

(** [GitHubLeaderboard.show_leaderboard]; [guild] is [ctx.guild]. *)
Definition show_leaderboard (api : Remote) (clock : Clock)
    (links_file : option (list (Z * string))) (guild : Guild) : list Reply :=
  let user_stats := fetch_all_user_stats api clock links_file in
  if negb (truthy user_stats)
  then [Text "📊 Fetching leaderboard data..."; Text "❌ No GitHub data available!"]
  else
    let user_stats := sort_reverse stars_key user_stats in
    [Text "📊 Fetching leaderboard data...";
     Rich (stars_repos_embed "🏆 GitHub Leaderboard"
             "Current top contributors" "🏆 Rankings" guild user_stats)].

(** ** utils/emailer.py and cogs/verify.py *)

(** Strings hold the UTF-8 encoding of the Python text.  The white space
    of [str.isspace()], character by character in that encoding: U+0009 to
    U+000D, U+001C to U+0020, U+0085, U+00A0, U+1680, U+2000 to U+200A,
    U+2028, U+2029, U+202F, U+205F and U+3000. *)
Definition whitespace_bytes : list (list nat) :=
  [[9]; [10]; [11]; [12]; [13]; [28]; [29]; [30]; [31]; [32];
   [194; 133]; [194; 160]; [225; 154; 128]; [226; 128; 128];
   [226; 128; 129]; [226; 128; 130]; [226; 128; 131];
   [226; 128; 132]; [226; 128; 133]; [226; 128; 134];
   [226; 128; 135]; [226; 128; 136]; [226; 128; 137];
   [226; 128; 138]; [226; 128; 168]; [226; 128; 169];
   [226; 128; 175]; [226; 129; 159]; [227; 128; 128]]%nat.

Definition whitespace : list (list ascii) :=
  (fun bytes : list nat => ascii_of_nat <$> bytes) <$> whitespace_bytes.

(** Drops the characters of [spaces] that [s] starts with; every step
    drops at least one byte, so [fuel] at the length of [s] is enough. *)
Fixpoint lstrip_with (spaces : list (list ascii)) (fuel : nat) (s : list ascii)
  : list ascii :=
  match fuel with
  | O => s
  | S fuel =>
      match List.find (fun space => bool_decide (space `prefix_of` s)) spaces with
      | Some space => lstrip_with spaces fuel (drop (List.length space) s)
      | None => s
      end
  end.

(** [s.lstrip()] and [s.rstrip()], the latter on the reversed bytes. *)
Definition lstrip (s : list ascii) : list ascii :=
  lstrip_with whitespace (List.length s) s.

Definition rstrip (s : list ascii) : list ascii :=
  reverse (lstrip_with (reverse <$> whitespace) (List.length s) (reverse s)).

(** [s.strip()] *)
Definition strip (s : string) : string :=
  string_of_list_ascii (rstrip (lstrip (list_ascii_of_string s))).

(** A byte that continues a character of more than one byte. *)
Definition is_continuation (c : ascii) : bool :=
  let n := nat_of_ascii c in ((128 <=? n) && (n <? 192))%nat.

(** The bytes of [s] up to the character number [n], counting from the
    start of a character. *)
Fixpoint take_chars_from (n : nat) (s : string) : string :=
  match s with
  | EmptyString => EmptyString
  | String c rest =>
      if is_continuation c then String c (take_chars_from n rest)
      else
        match n with
        | O => EmptyString
        | S n' => String c (take_chars_from n' rest)
        end
  end.

(** [s[:n]]: the first [n] characters. *)
Definition take_chars (n : nat) (s : string) : string :=
  match n with
  | O => EmptyString
  | S _ => take_chars_from n s
  end.

(** [s.endswith(suffix)] *)
Definition endswith (suffix s : string) : bool :=
  bool_decide (list_ascii_of_string suffix `suffix_of` list_ascii_of_string s).

(** [sep.join(names)] *)
Fixpoint str_join (sep : string) (names : list string) : string :=
  match names with
  | [] => ""
  | name :: rest =>
      match rest with
      | [] => name
      | _ :: _ => name +:+ sep +:+ str_join sep rest
      end
  end.

(** [random.choices(population, k=k)]; [picks j] stands for the [j]-th
    draw of the generator. *)
Definition random_choices (picks : nat -> nat) (population : list ascii) (k : nat)
  : list ascii :=
  (fun j => nth (picks j mod List.length population) population "0"%char) <$> seq 0 k.

(** [''.join(random.choices(string.digits, k=6))] *)
Definition random_otp (picks : nat -> nat) : string :=
  string_of_list_ascii
    (random_choices picks (list_ascii_of_string "0123456789") 6).

(** What a run of the verification flow meets outside the bot: whether the
    member accepts direct messages, the replies [wait_for] returns ([None]
    for a timeout), the e-mail validator ([None] for [EmailNotValidError],
    otherwise the normalised address), the draws of the generator and
    whether the SMTP server takes the message for a recipient.  With them
    comes [str.lower] of the interpreter, a table over all cased letters
    that is not spelled out here; [lower] is that table on ASCII text. *)
Record VerifyEnv : Type := {
  dm_open : bool;
  email_reply : option string;
  str_lower : string -> string;
  validate_email : string -> option string;
  picks : nat -> nat;
  smtp_send : string -> string -> exc unit;
  otp_reply : option string
}.

(** [send_email] of utils/emailer.py *)
Definition send_email (env : VerifyEnv) (recipient_email otp_code : string) : bool :=
  match smtp_send env recipient_email
          ("Your OTP for Discord verification is: " +:+ otp_code) with
  | Ret _ => true
  | Raise e => false
  end.

(** [self.pending_verifications]: member id to (email, otp). *)
Definition Pending : Type := gmap Z (string * string).

(** What the flow leaves behind: the pending verifications, the guild, the
    role changes requested and the direct messages sent to the member. *)
Record Verification : Type := {
  ver_pending : Pending;
  ver_guild : Guild;
  ver_ops : list RoleOp;
  ver_dms : list Reply
}.

(** [role = discord.utils.get(guild.roles, name=...)], created when there
    is none, then [if role not in member.roles: add_roles; append]. *)
Definition grant_if_missing (role : string) (member : Z)
    (st : Guild * list RoleOp * list string) : Guild * list RoleOp * list string :=
  let '(guild, ops, roles_assigned) := st in
  let guild := get_or_create_role role guild in
  if negb (has_role guild member role)
  then (add_roles member role guild, (ops ++ [AddRoles member role])%list,
        (roles_assigned ++ [role])%list)
  else (guild, ops, roles_assigned).

(** [f"Y{email[:2]}"] *)
Definition batch_role_name (email : string) : string :=
  "Y" +:+ take_chars 2 email.

Definition success_embed (roles_assigned : list string) : Embed :=
  add_field {| name := "Next Steps";
               value := "You can now access all server channels and features!";
               inline := false |}
    (add_field {| name := "Roles Assigned";
                  value := if truthy roles_assigned
                           then str_join ", " roles_assigned else "No new roles";
                  inline := false |}
       {| title := "🎉 Verification Successful!";
          description := "Welcome to the LNMIIT Discord server!";
          color := Color_green; fields := []; footer := "" |}).

(** [VerifyCog.assign_roles]: the guild, the role changes requested and the
    message sent to the member. *)
Definition assign_roles (member : Z) (guild : Guild) (email : string)
  : Guild * list RoleOp * Embed :=
  let st := (guild, [], []) in
  (* Assign LNMIIT role *)
  let st := grant_if_missing "lnmiit" member st in
  (* Assign batch role based on email *)
  let st := grant_if_missing (batch_role_name email) member st in
  let '(guild, ops, roles_assigned) := st in
  (guild, ops, success_embed roles_assigned).

Definition email_prompt : Embed :=
  set_footer "You have 2 minutes to respond"
    (add_field {| name := "Format"; value := "Example: 23ucc123@lnmiit.ac.in";
                  inline := false |}
       {| title := "📧 Email Verification";
          description := "Please enter your LNMIIT email address:";
          color := Color_blue; fields := []; footer := "" |}).

Definition otp_sent_embed (email : string) : Embed :=
  set_footer "You have 2 minutes to respond"
    (add_field {| name := "Next Step";
                  value := "Reply with the 6-digit code from your email";
                  inline := false |}
       {| title := "📨 OTP Sent";
          description := "Please check your email: " +:+ email;
          color := Color_green; fields := []; footer := "" |}).

(** The [except Exception] clause of [start_verification], entered with
    the state the [try] block had reached. *)
Definition verification_failed (member : Z) (st : Verification) : Verification :=
  {| ver_pending := delete member (ver_pending st);
     ver_guild := ver_guild st; ver_ops := ver_ops st;
     ver_dms := (ver_dms st ++ [Text "❌ Verification failed. Please try again."])%list |}.

(** [VerifyCog.start_verification].  The first message is the one whose
    refusal the code handles ([discord.Forbidden]); a timeout of [wait_for]
    is the exception that reaches the [except Exception] clause.  One flow
    runs at a time: nothing else changes [pending_verifications] while it
    waits. *)
Definition start_verification (env : VerifyEnv) (pending : Pending)
    (member : Z) (guild : Guild) : Verification :=
  if negb (dm_open env) then
    {| ver_pending := pending; ver_guild := guild; ver_ops := []; ver_dms := [] |}
  else
    let dms := [Rich email_prompt] in
    let stop pending dms :=
      {| ver_pending := pending; ver_guild := guild; ver_ops := [];
         ver_dms := dms |} in
    (* Get email from user *)
    match email_reply env with
    | None => verification_failed member (stop pending dms)
    | Some email_msg =>
        let email := str_lower env (strip email_msg) in
        (* Validate email *)
        match validate_email env email with
        | None =>
            stop pending
              (dms ++ [Text "❌ Invalid email format. Please try again."])%list
        | Some email =>
            if negb (endswith "@lnmiit.ac.in" email) then
              stop pending
                (dms ++ [Text "❌ Email must end with '@lnmiit.ac.in'. Please try again."])%list
            else
              (* Generate and send OTP *)
              let otp := random_otp (picks env) in
              let pending := <[member := (email, otp)]> pending in
              let email_sent := send_email env email otp in
              if negb email_sent then
                stop pending
                  (dms ++ [Text "❌ Failed to send OTP. Please contact an admin."])%list
              else
                let dms := (dms ++ [Rich (otp_sent_embed email)])%list in
                (* Get OTP from user *)
                match otp_reply env with
                | None => verification_failed member (stop pending dms)
                | Some otp_msg =>
                    match pending !! member with
                    | None =>
                        stop pending
                          (dms ++ [Text "❌ Verification session expired. Please try again."])%list
                    | Some (stored_email, stored_otp) =>
                        if negb (bool_decide (strip otp_msg = stored_otp)) then
                          stop (delete member pending)
                            (dms ++ [Text "❌ Incorrect OTP. Please try again."])%list
                        else
                          (* Assign roles *)
                          let '(guild, ops, embed) := assign_roles member guild email in
                          (* Clean up *)
                          {| ver_pending := delete member pending;
                             ver_guild := guild; ver_ops := ops;
                             ver_dms := (dms ++ [Rich embed])%list |}
                    end
                end
        end
    end.

(** The payload of a raw reaction event. *)
Record Reaction : Type := {
  user_id : Z;
  message_id : Z;
  emoji : string
}.

(** [VerifyCog.on_raw_reaction_add]; [bot_user] is [self.bot.user.id],
    [verify_msg_id] what reading [MSG_FILE] gives ([None] when the file is
    missing or does not hold a number) and [guild] the guild of the
    event. *)
Definition on_raw_reaction_add (env : VerifyEnv) (bot_user : Z)
    (verify_msg_id : option Z) (pending : Pending) (guild : Guild)
    (payload : Reaction) : Verification :=
  let nothing :=
    {| ver_pending := pending; ver_guild := guild; ver_ops := [];
       ver_dms := [] |} in
  (* Ignore bot reactions *)
  if bool_decide (user_id payload = bot_user) then nothing
  else
    match verify_msg_id with
    | None => nothing
    | Some verify_msg_id =>
        if negb (bool_decide (message_id payload = verify_msg_id))
           || negb (bool_decide (emoji payload = "✅"))
        then nothing
        else
          match members guild !! user_id payload with
          | None => nothing
          | Some member =>
              (* Check if user is already verified *)
              if bool_decide ("lnmiit" ∈ roles guild)
                 && bool_decide ("lnmiit" ∈ member_roles member)
              then
                {| ver_pending := pending; ver_guild := guild; ver_ops := [];
                   ver_dms := if dm_open env
                              then [Text "✅ You are already verified!"] else [] |}
              else
                (* Start verification process *)
                start_verification env pending (user_id payload) guild
          end
    end.

(** U+00A0, the no-break space. *)
Definition nbsp : string :=
  String (ascii_of_nat 194) (String (ascii_of_nat 160) EmptyString).

(** A member who answers with the address and the code that was mailed,
    followed by a space and a no-break space. *)
Definition honest_env : VerifyEnv :=
  {| dm_open := true;
     email_reply := Some " 23UCC123@lnmiit.ac.in ";
     str_lower := lower;
     validate_email := fun email => Some email;
     picks := fun j => (3 * j + 7)%nat;
     smtp_send := fun _ _ => Ret tt;
     otp_reply := Some (random_otp (fun j => (3 * j + 7)%nat) +:+ " " +:+ nbsp) |}.


(** * Posts, writes and the remote as they can fail or change *)

(** ** cogs/github_feed.py: a post that is refused, a write that fails *)

Module Fallible.

(** What the bot has asked of [channel.send]: the embeds delivered, oldest
    first, and the number of requests made, delivered or refused. *)
Record Outbox : Type := {
  delivered : Channel;
  requested : nat
}.

(** [await channel.send(embed=embed)]; [delivers n] is what the platform
    does with the request number [n] of the bot: it takes it, or it raises. *)
Definition send (delivers : nat -> exc unit) (embed : Embed) (outbox : Outbox)
  : exc unit * Outbox :=
  match delivers (requested outbox) with
  | Ret _ =>
      (Ret tt, {| delivered := (delivered outbox ++ [embed])%list;
                  requested := S (requested outbox) |})
  | Raise e =>
      (Raise e, {| delivered := delivered outbox;
                   requested := S (requested outbox) |})
  end.

(** The body of [for event in reversed(new_events)]: the first refused
    post ends the loop with its exception. *)
Fixpoint post_each (delivers : nat -> exc unit) (repo : string)
    (events : list Event) (outbox : Outbox) : exc unit * Outbox :=
  match events with
  | [] => (Ret tt, outbox)
  | event :: rest =>
      let embed := create_event_embed repo event in
      if embed_truthy embed then
        match send delivers embed outbox with
        | (Ret _, outbox) => post_each delivers repo rest outbox
        | (Raise e, outbox) => (Raise e, outbox)
        end
      else post_each delivers repo rest outbox
  end.

Definition post_events (delivers : nat -> exc unit) (repo : string)
    (new_events : list Event) (outbox : Outbox) : exc unit * Outbox :=
  post_each delivers repo (reverse new_events) outbox.

(** One poll: the [try] block of [feed_loop].  An exception of the fetch
    or of a post reaches [except Exception], which prints and goes on: the
    assignment of the watermark, which stands after the posts, is then
    skipped. *)
Definition poll_repo (api : Remote) (delivers : nat -> exc unit) (repo : string)
    (cog : GitHubFeed) (outbox : Outbox) : GitHubFeed * Outbox :=
  match fetch_repo_events api repo 5 with
  | Raise e => (cog, outbox)
  | Ret events =>
      if negb (truthy events) then (cog, outbox)
      else
        let last_event_id := last_event_ids cog !! repo in
        let new_events := collect_new_events last_event_id events in
        match post_events delivers repo new_events outbox with
        | (Raise e, outbox) => (cog, outbox)
        | (Ret _, outbox) =>
            match events with
            | newest :: _ => (set_last_event_id repo (id newest) cog, outbox)
            | [] => (cog, outbox)
            end
        end
  end.

(** The body of [for repo in list(self.repo_subscribers.keys())]. *)
Definition feed_step (api : Remote) (delivers : nat -> exc unit)
    (st : GitHubFeed * Outbox) (repo : string) : GitHubFeed * Outbox :=
  let '(cog, outbox) := st in
  match repo_subscribers cog !! repo with
  | Some subscribers =>
      if bool_decide (subscribers = ∅) then (cog, outbox)
      else poll_repo api delivers repo cog outbox
  | None => (cog, outbox)
  end.

(** What becomes of a write: it goes through, the file cannot be opened,
    or it is opened (and so emptied) and the dump does not complete. *)
Inductive WriteOutcome : Type := Written | OpenRefused | DumpInterrupted.

(** [save_last_events]: a failure is printed and the cycle goes on.  A file
    cut short holds no JSON document, and [load_last_events] reads it as
    the empty dictionary. *)
Definition save_last_events (write : WriteOutcome) (cog : GitHubFeed) : GitHubFeed :=
  {| repo_subscribers := repo_subscribers cog;
     last_event_ids := last_event_ids cog;
     feed_file :=
       match write with
       | Written => last_event_ids cog
       | OpenRefused => feed_file cog
       | DumpInterrupted => ∅
       end |}.

(** [feed_loop]; [outbox] is [None] when no feed channel is configured or
    the bot does not find it. *)
Definition feed_loop (api : Remote) (delivers : nat -> exc unit)
    (write : WriteOutcome) (outbox : option Outbox) (cog : GitHubFeed)
  : GitHubFeed * option Outbox :=
  match outbox with
  | None => (cog, None)
  | Some outbox =>
      let '(cog, outbox) :=
        foldl (feed_step api delivers) (cog, outbox)
          (map_to_list (repo_subscribers cog)).*1 in
      (save_last_events write cog, Some outbox)
  end.

End Fallible.

(** ** utils/github_api.py: a remote that changes during a run *)

Module Timed.

(** The remote as it answers the request number [t] of a run; every
    attempt of [_make_request] is one request. *)
Definition Timeline : Type := nat -> Remote.

(** A computation that makes requests: from the number of requests made
    so far to its result and the number made afterwards. *)
Definition timed (A : Type) : Type := nat -> exc A * nat.

Definition ret {A} (a : A) : timed A := fun t => (Ret a, t).

Definition bind {A B} (c : timed A) (k : A -> timed B) : timed B :=
  fun t =>
    match c t with
    | (Ret a, t') => k a t'
    | (Raise e, t') => (Raise e, t')
    end.

(** [try: body  except Exception as e: handler(e)] *)
Definition try_except {A} (body : timed A) (handler : string -> timed A) : timed A :=
  fun t =>
    match body t with
    | (Ret a, t') => (Ret a, t')
    | (Raise e, t') => handler e t'
    end.

Notation "'let@' x ':=' c 'in' k" := (bind c (fun x => k))
  (at level 10, x name, c at level 100, k at level 200).

(** The number of attempts the loop of [_make_request] makes. *)
Fixpoint attempts_made {A} (get : nat -> Attempt A) (attempts : list nat) : nat :=
  match attempts with
  | [] => 0
  | attempt :: rest =>
      match get attempt with
      | TransportError _ =>
          if (attempt <? max_retries - 1)%nat
          then S (attempts_made get rest)
          else 1
      | _ => 1
      end
  end.

(** [_make_request] on an endpoint of a changing remote: attempt number
    [attempt] is the request number [t + attempt]. *)
Definition _make_request {A} (endpoint : Remote -> nat -> Attempt A)
    (timeline : Timeline) : timed (option A) :=
  fun t =>
    let get := fun attempt => endpoint (timeline (t + attempt)%nat) attempt in
    (_make_request get, (t + attempts_made get (seq 0 max_retries))%nat).

Definition fetch_user_merged_prs (timeline : Timeline) (username : string)
    (org since : option string) : timed Z :=
  let query := merged_prs_query username org since in
  let@ data := _make_request (fun api => get_search_issues api query) timeline in
  ret (count_of data).

Definition fetch_user_issues_opened (timeline : Timeline) (username : string)
    (org since : option string) : timed Z :=
  let query := issues_opened_query username org since in
  let@ data := _make_request (fun api => get_search_issues api query) timeline in
  ret (count_of data).

Definition fetch_user_info (timeline : Timeline) (username : string) : timed UserInfo :=
  let@ data := _make_request (fun api => get_user api username) timeline in
  ret (or_default data).

Definition fetch_user_repos (timeline : Timeline) (username : string)
  : timed (list Repo) :=
  let@ data := _make_request (fun api => get_user_repos api username) timeline in
  ret (or_default data).

Definition fetch_user_stats (timeline : Timeline) (clock : Clock) (username : string)
    (org : option string) : timed Stats :=
  let since_year := since_year clock in
  try_except
    (let@ user_info := fetch_user_info timeline username in
     if negb (truthy user_info)
     then ret (ErrorStats username "User not found")
     else
       let@ repos := fetch_user_repos timeline username in
       let total_stars := star_sum repos in
       let@ merged_prs :=
         fetch_user_merged_prs timeline username org (Some since_year) in
       let@ issues_opened :=
         fetch_user_issues_opened timeline username org (Some since_year) in
       ret (FullStats {|
         username := username;
         user_info := user_info;
         total_stars := total_stars;
         total_repos := List.length repos;
         merged_prs := merged_prs;
         issues_opened := issues_opened;
         repositories := repos;
         updated_at := now clock
       |}))
    (fun e => ret (ErrorStats username e)).

End Timed.

(** A remote on which "octocat" gains a repository with every request:
    the request number [t] sees the first [t] of [demo_repos]. *)
Definition growing_timeline : Timed.Timeline :=
  fun t =>
    {| get_user := get_user demo_api;
       get_user_repos := fun username _ =>
         if bool_decide (username = "octocat")
         then Status200 (take t demo_repos) else StatusOther 404;
       get_repo_events := get_repo_events demo_api;
       get_search_issues := get_search_issues demo_api |}.

(** A platform that takes every request. *)
Definition always_delivers : nat -> exc unit := fun _ => Ret tt.

(** The platform takes every request from number [start] on. *)
Definition delivers_from (delivers : nat -> exc unit) (start : nat) : Prop :=
  forall n, (start <= n)%nat -> delivers n = Ret tt.

(** A platform that refuses the second request made of it. *)
Definition refuses_second : nat -> exc unit :=
  fun n => if (n =? 1)%nat then Raise "Forbidden" else Ret tt.

(** An outbox nothing has been asked of. *)
Definition empty_outbox : Fallible.Outbox :=
  {| Fallible.delivered := []; Fallible.requested := 0 |}.

(** A remote that serves a page of events that is older than the newest
    event "E105" of [demo_events]. *)
Definition stale_api : Remote :=
  remote_with_events [push_event "E100"; push_event "E99"].

(** * Properties *)

(** ** The fetch client *)

Section FetchClient.
Context {A : Type}.
Implicit Types get : nat -> Attempt A.

(** A first answer with status 200 is returned decoded. *)
Lemma make_request_200 get data :
  get 0%nat = Status200 data -> _make_request get = Ret (Some data).
Proof. intros H. unfold _make_request. simpl. by rewrite H. Qed.

(** A rate-limit answer ends the request at once with no data. *)
Lemma make_request_403 get :
  get 0%nat = Status403 -> _make_request get = Ret None.
Proof. intros H. unfold _make_request. simpl. by rewrite H. Qed.

(** Three transport failures in a row give no data, and no exception. *)
Lemma make_request_exhausted get :
  (forall attempt, (attempt < max_retries)%nat -> exists msg, get attempt = TransportError msg) ->
  _make_request get = Ret None.
Proof.
  intros H. unfold _make_request. simpl.
  destruct (H 0%nat) as [m0 ->]; [unfold max_retries; lia|]. simpl.
  destruct (H 1%nat) as [m1 ->]; [unfold max_retries; lia|]. simpl.
  destruct (H 2%nat) as [m2 ->]; [unfold max_retries; lia|]. done.
Qed.

(** [data or []] is empty exactly when there is no data or empty data. *)
Lemma or_default_nil (data : option (list A)) :
  or_default data = [] <-> data = None \/ data = Some [].
Proof.
  destruct data as [[|x l]|]; simpl; split; intros H; auto; try done.
  - destruct H; done.
Qed.

Lemma or_default_some (l : list A) : or_default (Some l) = l.
Proof. by destruct l. Qed.
End FetchClient.

(** ** The stats aggregator *)

Section Aggregator.
Variable api : Remote.
Variable clock : Clock.

(** Whatever the fetches do, a record with the username comes back. *)
Lemma fetch_user_stats_returns u org :
  exists stats, fetch_user_stats api clock u org = Ret stats
                /\ stats_username stats = u.
Proof.
  unfold fetch_user_stats.
  destruct (fetch_user_info api u) as [info|e]; simpl; [|by eauto].
  destruct (truthy info); simpl; [|by eauto].
  destruct (fetch_user_repos api u) as [repos|e]; simpl; [|by eauto].
  destruct (fetch_user_merged_prs _ _ _ _) as [prs|e]; simpl; [|by eauto].
  destruct (fetch_user_issues_opened _ _ _ _) as [issues|e]; simpl; by eauto.
Qed.

(** No data on the profile lookup is an empty profile. *)
Lemma fetch_user_info_no_data u :
  _make_request (get_user api u) = Ret None -> fetch_user_info api u = Ret [].
Proof. intros H. unfold fetch_user_info. by rewrite H. Qed.

(** The record assembled when all four fetches return and the profile is
    not empty. *)
Lemma fetch_user_stats_full u org info repos prs issues :
  fetch_user_info api u = Ret info ->
  truthy info = true ->
  fetch_user_repos api u = Ret repos ->
  fetch_user_merged_prs api u org (Some (since_year clock)) = Ret prs ->
  fetch_user_issues_opened api u org (Some (since_year clock)) = Ret issues ->
  fetch_user_stats api clock u org =
    Ret (FullStats {| username := u; user_info := info;
                      total_stars := star_sum repos;
                      total_repos := List.length repos;
                      merged_prs := prs; issues_opened := issues;
                      repositories := repos; updated_at := now clock |}).
Proof.
  intros Hi Ht Hr Hp Hs. unfold fetch_user_stats.
  rewrite Hi. simpl. rewrite Ht. simpl. rewrite Hr. simpl.
  rewrite Hp. simpl. by rewrite Hs.
Qed.

(** Every full record comes out of that path. *)
Lemma fetch_user_stats_full_inv u org r :
  fetch_user_stats api clock u org = Ret (FullStats r) ->
  exists info prs issues,
    fetch_user_info api u = Ret info /\ truthy info = true /\
    fetch_user_repos api u = Ret (repositories r) /\
    r = {| username := u; user_info := info;
           total_stars := star_sum (repositories r);
           total_repos := List.length (repositories r);
           merged_prs := prs; issues_opened := issues;
           repositories := repositories r; updated_at := now clock |}.
Proof.
  unfold fetch_user_stats.
  destruct (fetch_user_info api u) as [info|e] eqn:Hi; simpl; [|done].
  destruct (truthy info) eqn:Ht; simpl; [|done].
  destruct (fetch_user_repos api u) as [repos|e] eqn:Hr; simpl; [|done].
  destruct (fetch_user_merged_prs _ _ _ _) as [prs|e]; simpl; [|done].
  destruct (fetch_user_issues_opened _ _ _ _) as [issues|e]; simpl; [|done].
  intros [= <-]. simpl. by exists info, prs, issues.
Qed.

Lemma star_sum_cons repo repos :
  star_sum (repo :: repos) = default 0 (stargazers_count repo) + star_sum repos.
Proof. reflexivity. Qed.

Lemma star_sum_app repos1 repos2 :
  star_sum (repos1 ++ repos2) = star_sum repos1 + star_sum repos2.
Proof.
  induction repos1 as [|repo repos1 IH]; [done|].
  simpl. rewrite !star_sum_cons, IH. lia.
Qed.

Lemma star_sum_perm repos1 repos2 :
  repos1 ≡ₚ repos2 -> star_sum repos1 = star_sum repos2.
Proof.
  induction 1 as [|x l l' _ IH|x y l|l l' l'' _ IH1 _ IH2];
    rewrite ?star_sum_cons; lia.
Qed.
End Aggregator.


(** ** The aggregator on a remote that changes during the run *)

Section ChangingRemote.
Implicit Types (timeline : Timed.Timeline) (t : nat) (u : string).

Lemma attempts_made_pos {A} (get : nat -> Attempt A) :
  (1 <= Timed.attempts_made get (seq 0 max_retries))%nat.
Proof. simpl. destruct (get 0%nat); simpl; lia. Qed.

Lemma timed_make_request_later {A} (endpoint : Remote -> nat -> Attempt A)
    timeline t :
  (t < (Timed._make_request endpoint timeline t).2)%nat.
Proof.
  unfold Timed._make_request. cbn [snd].
  pose proof (attempts_made_pos
                (fun attempt => endpoint (timeline (t + attempt)%nat) attempt)).
  lia.
Qed.

Lemma timed_make_request_steady {A} (endpoint : Remote -> nat -> Attempt A)
    (api : Remote) t :
  (Timed._make_request endpoint (fun _ => api) t).1 = _make_request (endpoint api).
Proof. reflexivity. Qed.

Lemma timed_fetch_user_repos_later timeline u t :
  (t < (Timed.fetch_user_repos timeline u t).2)%nat.
Proof.
  unfold Timed.fetch_user_repos, Timed.bind.
  pose proof (timed_make_request_later
                (fun api => get_user_repos api u) timeline t) as Hlater.
  by destruct (Timed._make_request _ timeline t) as [[data|e] t'].
Qed.

Lemma timed_fetch_user_info_later timeline u t :
  (t < (Timed.fetch_user_info timeline u t).2)%nat.
Proof.
  unfold Timed.fetch_user_info, Timed.bind.
  pose proof (timed_make_request_later
                (fun api => get_user api u) timeline t) as Hlater.
  by destruct (Timed._make_request _ timeline t) as [[data|e] t'].
Qed.

Lemma timed_fetch_search_later timeline u org since t :
  (t < (Timed.fetch_user_merged_prs timeline u org since t).2)%nat
  /\ (t < (Timed.fetch_user_issues_opened timeline u org since t).2)%nat.
Proof.
  unfold Timed.fetch_user_merged_prs, Timed.fetch_user_issues_opened, Timed.bind.
  split.
  - pose proof (timed_make_request_later
                  (fun api => get_search_issues api
                                (merged_prs_query u org since)) timeline t).
    by destruct (Timed._make_request _ timeline t) as [[data|e] t'].
  - pose proof (timed_make_request_later
                  (fun api => get_search_issues api
                                (issues_opened_query u org since)) timeline t).
    by destruct (Timed._make_request _ timeline t) as [[data|e] t'].
Qed.

(** A full record of the run on a changing remote, taken apart. *)
Lemma timed_fetch_user_stats_full_inv timeline (clock : Clock) u
    (org : option string) t r t' :
  Timed.fetch_user_stats timeline clock u org t = (Ret (FullStats r), t') ->
  exists info t1 repos t2 prs t3 issues,
    Timed.fetch_user_info timeline u t = (Ret info, t1)
    /\ truthy info = true
    /\ Timed.fetch_user_repos timeline u t1 = (Ret repos, t2)
    /\ Timed.fetch_user_merged_prs timeline u org (Some (since_year clock)) t2
       = (Ret prs, t3)
    /\ Timed.fetch_user_issues_opened timeline u org (Some (since_year clock)) t3
       = (Ret issues, t')
    /\ r = {| username := u; user_info := info; total_stars := star_sum repos;
              total_repos := List.length repos; merged_prs := prs;
              issues_opened := issues; repositories := repos;
              updated_at := now clock |}.
Proof.
  unfold Timed.fetch_user_stats, Timed.try_except, Timed.bind.
  destruct (Timed.fetch_user_info timeline u t) as [[info|e] t1]; [|done].
  destruct (truthy info) eqn:Hinfo; cbn [negb]; [|done].
  destruct (Timed.fetch_user_repos timeline u t1) as [[repos|e] t2] eqn:Hrepos;
    [|done].
  destruct (Timed.fetch_user_merged_prs timeline u org _ t2) as [[prs|e] t3]
    eqn:Hprs; [|done].
  destruct (Timed.fetch_user_issues_opened timeline u org _ t3)
    as [[issues|e] t4] eqn:Hissues; [|done].
  unfold Timed.ret. intros [= <- <-].
  exists info, t1, repos, t2, prs, t3, issues. by repeat split.
Qed.

(** On a remote that does not change, the run is the run of the model
    without time. *)
Lemma timed_fetch_user_stats_steady (api : Remote) (clock : Clock) u
    (org : option string) t :
  (Timed.fetch_user_stats (fun _ => api) clock u org t).1
  = fetch_user_stats api clock u org.
Proof.
  unfold Timed.fetch_user_stats, fetch_user_stats, Timed.try_except, try_except.
  unfold Timed.bind at 1.
  assert (forall t0, (Timed.fetch_user_info (fun _ => api) u t0).1
                     = fetch_user_info api u) as Hinfo.
  { intros t0. unfold Timed.fetch_user_info, fetch_user_info, Timed.bind.
    cbn [Timed._make_request].
    by destruct (_make_request _) as [data|e]. }
  assert (forall t0, (Timed.fetch_user_repos (fun _ => api) u t0).1
                     = fetch_user_repos api u) as Hrepos.
  { intros t0. unfold Timed.fetch_user_repos, fetch_user_repos, Timed.bind.
    cbn [Timed._make_request].
    by destruct (_make_request _) as [data|e]. }
  assert (forall since t0,
            (Timed.fetch_user_merged_prs (fun _ => api) u org since t0).1
            = fetch_user_merged_prs api u org since) as Hprs.
  { intros since t0.
    unfold Timed.fetch_user_merged_prs, fetch_user_merged_prs, Timed.bind.
    cbn [Timed._make_request].
    by destruct (_make_request _) as [data|e]. }
  assert (forall since t0,
            (Timed.fetch_user_issues_opened (fun _ => api) u org since t0).1
            = fetch_user_issues_opened api u org since) as Hissues.
  { intros since t0.
    unfold Timed.fetch_user_issues_opened, fetch_user_issues_opened, Timed.bind.
    cbn [Timed._make_request].
    by destruct (_make_request _) as [data|e]. }
  specialize (Hinfo t).
  destruct (Timed.fetch_user_info (fun _ => api) u t) as [[info|e] t1];
    cbn [fst] in Hinfo; rewrite <- Hinfo; [|done]. cbn [bind].
  destruct (truthy info); cbn [negb]; [|done].
  unfold Timed.bind at 1. specialize (Hrepos t1).
  destruct (Timed.fetch_user_repos (fun _ => api) u t1) as [[repos|e] t2];
    cbn [fst] in Hrepos; rewrite <- Hrepos; [|done]. cbn [bind].
  unfold Timed.bind at 1. specialize (Hprs (Some (since_year clock)) t2).
  destruct (Timed.fetch_user_merged_prs (fun _ => api) u org _ t2)
    as [[prs|e] t3]; cbn [fst] in Hprs; rewrite <- Hprs; [|done]. cbn [bind].
  unfold Timed.bind at 1. specialize (Hissues (Some (since_year clock)) t3).
  by destruct (Timed.fetch_user_issues_opened (fun _ => api) u org _ t3)
    as [[issues|e] t4]; cbn [fst] in Hissues; rewrite <- Hissues.
Qed.

End ChangingRemote.

(** ** Claims on the stats aggregator *)

(** C4. Error containment in the aggregator: for every username
    [fetch_user_stats] returns a record that carries the username and never
    raises.  When the profile lookup yields no data the record is the error
    record with the "User not found" marker; an exception raised by any of
    the four fetches is caught and becomes the error record with the
    username and the exception's message. *)
Theorem fetch_user_stats_never_raises (api : Remote) (clock : Clock)
    (u : string) (org : option string) :
  (exists stats, fetch_user_stats api clock u org = Ret stats
                 /\ stats_username stats = u)
  /\ (_make_request (get_user api u) = Ret None ->
      fetch_user_stats api clock u org = Ret (ErrorStats u "User not found"))
  /\ (forall e, fetch_user_info api u = Raise e ->
      fetch_user_stats api clock u org = Ret (ErrorStats u e))
  /\ (forall info e,
      fetch_user_info api u = Ret info -> truthy info = true ->
      fetch_user_repos api u = Raise e ->
      fetch_user_stats api clock u org = Ret (ErrorStats u e))
  /\ (forall info repos e,
      fetch_user_info api u = Ret info -> truthy info = true ->
      fetch_user_repos api u = Ret repos ->
      fetch_user_merged_prs api u org (Some (since_year clock)) = Raise e ->
      fetch_user_stats api clock u org = Ret (ErrorStats u e))
  /\ (forall info repos prs e,
      fetch_user_info api u = Ret info -> truthy info = true ->
      fetch_user_repos api u = Ret repos ->
      fetch_user_merged_prs api u org (Some (since_year clock)) = Ret prs ->
      fetch_user_issues_opened api u org (Some (since_year clock)) = Raise e ->
      fetch_user_stats api clock u org = Ret (ErrorStats u e)).
Proof.
  split; [apply fetch_user_stats_returns|]. repeat split.
  - intros H. unfold fetch_user_stats.
    by rewrite (fetch_user_info_no_data _ _ H).
  - intros e H. unfold fetch_user_stats. by rewrite H.
  - intros info e Hi Ht Hr. unfold fetch_user_stats.
    rewrite Hi. simpl. rewrite Ht. simpl. by rewrite Hr.
  - intros info repos e Hi Ht Hr Hp. unfold fetch_user_stats.
    rewrite Hi. simpl. rewrite Ht. simpl. rewrite Hr. simpl. by rewrite Hp.
  - intros info repos prs e Hi Ht Hr Hp Hs. unfold fetch_user_stats.
    rewrite Hi. simpl. rewrite Ht. simpl. rewrite Hr. simpl.
    rewrite Hp. simpl. by rewrite Hs.
Qed.

(** Three runs: a known user, an unknown user, and a fetch that raises. *)
Example fetch_user_stats_scenarios :
  fetch_user_stats demo_api demo_clock "octocat" None = Ret (FullStats demo_record)
  /\ fetch_user_stats demo_api demo_clock "ghost" None
     = Ret (ErrorStats "ghost" "User not found")
  /\ fetch_user_stats broken_api demo_clock "octocat" None
     = Ret (ErrorStats "octocat" "invalid JSON").
Proof. repeat split. Qed.

(** C9. When the profile is there and the fetches return, the record of
    [fetch_user_stats] holds the list the one call of [fetch_user_repos]
    returned, with [total_stars] the sum of the star counts of that list (a
    repository without a count adds 0) and [total_repos] its length.
    Conversely every full record is of this form, and [total_stars] is the
    same for any run whose repository list is a permutation of it.  Both
    totals come from one snapshot: on a remote that changes from request to
    request, the record's repositories are the list served to the one
    request made after the profile lookup, and both totals are computed
    from that list, whatever the remote serves before or after.  On a
    remote that does not change the run is that of [fetch_user_stats]. *)
Theorem total_stars_from_one_snapshot (api : Remote) (clock : Clock)
    (u : string) (org : option string) :
  let stars (repos : list Repo) :=
    foldr Z.add 0 ((fun repo => default 0 (stargazers_count repo)) <$> repos) in
  (forall info repos prs issues,
     fetch_user_info api u = Ret info -> truthy info = true ->
     fetch_user_repos api u = Ret repos ->
     fetch_user_merged_prs api u org (Some (since_year clock)) = Ret prs ->
     fetch_user_issues_opened api u org (Some (since_year clock)) = Ret issues ->
     exists r, fetch_user_stats api clock u org = Ret (FullStats r)
               /\ repositories r = repos
               /\ total_stars r = stars repos
               /\ total_repos r = List.length repos)
  /\ (forall r,
        fetch_user_stats api clock u org = Ret (FullStats r) ->
        fetch_user_repos api u = Ret (repositories r)
        /\ total_stars r = stars (repositories r)
        /\ total_repos r = List.length (repositories r)
        /\ (forall api' clock' u' org' r',
              fetch_user_stats api' clock' u' org' = Ret (FullStats r') ->
              repositories r' ≡ₚ repositories r ->
              total_stars r' = total_stars r /\ total_repos r' = total_repos r))
  /\ (forall (timeline : Timed.Timeline) (t : nat) r (t' : nat),
        Timed.fetch_user_stats timeline clock u org t = (Ret (FullStats r), t') ->
        exists t1 t2 : nat,
          (t < t1)%nat /\ (t1 < t2)%nat /\ (t2 < t')%nat
          /\ Timed.fetch_user_repos timeline u t1 = (Ret (repositories r), t2)
          /\ total_stars r = stars (repositories r)
          /\ total_repos r = List.length (repositories r))
  /\ (forall t : nat,
        (Timed.fetch_user_stats (fun _ => api) clock u org t).1
        = fetch_user_stats api clock u org).
Proof.
  cbv zeta. split; [|split; [|split]].
  - intros info repos prs issues Hi Ht Hr Hp Hs.
    eexists. split; [by apply (fetch_user_stats_full _ _ _ _ info repos prs issues)|].
    done.
  - intros r H.
    destruct (fetch_user_stats_full_inv _ _ _ _ _ H)
      as (info & prs & issues & _ & _ & Hr & Hrec).
    split; [done|]. split; [by rewrite Hrec|]. split; [by rewrite Hrec|].
    intros api' clock' u' org' r' H' Hperm.
    destruct (fetch_user_stats_full_inv _ _ _ _ _ H')
      as (info' & prs' & issues' & _ & _ & _ & Hrec').
    rewrite Hrec, Hrec'. simpl. split.
    + by apply star_sum_perm.
    + by apply Permutation_length.
  - intros timeline t r t' Hrun.
    destruct (timed_fetch_user_stats_full_inv _ _ _ _ _ _ _ Hrun)
      as (info & t1 & repos & t2 & prs & t3 & issues
          & Hinfo & _ & Hrepos & Hprs & Hissues & ->).
    exists t1, t2. cbn [repositories total_stars total_repos].
    pose proof (timed_fetch_user_info_later timeline u t) as Hlater1.
    pose proof (timed_fetch_user_repos_later timeline u t1) as Hlater2.
    destruct (timed_fetch_search_later timeline u org
                (Some (since_year clock)) t2) as [Hlater3 _].
    destruct (timed_fetch_search_later timeline u org
                (Some (since_year clock)) t3) as [_ Hlater4].
    rewrite Hinfo in Hlater1. rewrite Hrepos in Hlater2.
    rewrite Hprs in Hlater3. rewrite Hissues in Hlater4. cbn [snd] in *.
    split; [done|]. split; [done|]. split; [lia|]. by split.
  - intros t. apply timed_fetch_user_stats_steady.
Qed.

Lemma total_stars_from_one_snapshot_witness :
  fetch_user_stats demo_api demo_clock "octocat" None = Ret (FullStats demo_record)
  /\ fetch_user_repos demo_api "octocat" = Ret demo_repos
  /\ total_stars demo_record = 52
  /\ total_repos demo_record = 3%nat
  /\ exists r t1 t2,
       Timed.fetch_user_stats growing_timeline demo_clock "octocat" None 0%nat
       = (Ret (FullStats r), 4%nat)
       /\ Timed.fetch_user_repos growing_timeline "octocat" t1
          = (Ret (repositories r), t2)
       /\ repositories r = take 1 demo_repos
       /\ total_stars r = 40
       /\ total_repos r = 1%nat.
Proof.
  assert (H : fetch_user_stats demo_api demo_clock "octocat" None
              = Ret (FullStats demo_record)) by reflexivity.
  split; [exact H|].
  destruct (total_stars_from_one_snapshot demo_api demo_clock "octocat" None)
    as (_ & Hinv & Hone & _).
  destruct (Hinv _ H) as (Hr & Hs & Hn & _).
  split; [exact Hr|]. split; [exact Hs|]. split; [exact Hn|].
  assert (Hrun : exists r,
            Timed.fetch_user_stats growing_timeline demo_clock "octocat" None 0%nat
            = (Ret (FullStats r), 4%nat)
            /\ repositories r = take 1 demo_repos)
    by (eexists; split; reflexivity).
  destruct Hrun as (r & Hrun & Hrepos).
  destruct (Hone growing_timeline 0%nat r 4%nat Hrun)
    as (t1 & t2 & _ & _ & _ & Hfetch & Hstars & Hcount).
  exists r, t1, t2. split; [exact Hrun|]. split; [exact Hfetch|].
  split; [exact Hrepos|]. rewrite Hstars, Hcount, Hrepos. split; reflexivity.
Defined.

(** ** Feed polling *)

Section Feed.
Variable api : Remote.
Implicit Types (cog : GitHubFeed) (channel : Channel) (events : list Event).

Lemma create_event_embed_title repo event :
  title (create_event_embed repo event) = "📂 " +:+ repo.
Proof. unfold create_event_embed. repeat case_bool_decide; reflexivity. Qed.

(** The embed of an event has a title, so [if embed:] always holds. *)
Lemma create_event_embed_truthy repo event :
  embed_truthy (create_event_embed repo event) = true.
Proof.
  unfold embed_truthy. rewrite create_event_embed_title. reflexivity.
Qed.

Lemma post_events_snoc repo new_events channel :
  post_events repo new_events channel
  = (channel ++ (create_event_embed repo <$> reverse new_events))%list.
Proof.
  unfold post_events. generalize (reverse new_events) as l.
  intros l. revert channel.
  induction l as [|event l IH]; intros channel; simpl.
  - by rewrite app_nil_r.
  - rewrite create_event_embed_truthy, IH. unfold send.
    by rewrite <- app_assoc.
Qed.

(** Without a watermark the walk never stops. *)
Lemma collect_new_events_cold events :
  collect_new_events None events = events.
Proof. induction events as [|event events IH]; simpl; [done|]. by rewrite IH. Qed.

(** An empty watermark is false in the test of the walk, so it never stops
    either. *)
Lemma collect_new_events_empty_watermark events :
  collect_new_events (Some "") events = events.
Proof. induction events as [|event events IH]; simpl; [done|]. by rewrite IH. Qed.

Lemma at_watermark_true W event :
  W <> "" -> at_watermark (Some W) event = bool_decide (id event = W).
Proof.
  intros HW. unfold at_watermark, str_truthy.
  by rewrite bool_decide_eq_false_2.
Qed.

(** The walk stops at the first event whose id is the watermark. *)
Lemma collect_new_events_first W events k :
  W <> "" ->
  (id <$> events) !! k = Some W ->
  (forall j, (j < k)%nat -> (id <$> events) !! j <> Some W) ->
  collect_new_events (Some W) events = take k events.
Proof.
  intros HW. revert k.
  induction events as [|event events IH]; intros k Hk Hfirst; [done|].
  cbn [collect_new_events]. rewrite at_watermark_true by done.
  destruct k as [|k]; simpl in *.
  - injection Hk as Hk. by rewrite bool_decide_eq_true_2.
  - rewrite bool_decide_eq_false_2.
    + f_equal. apply IH; [done|].
      intros j Hj. apply (Hfirst (S j)). lia.
    + intros Heq. apply (Hfirst 0%nat); [lia|]. simpl. by rewrite Heq.
Qed.

(** A watermark that is not among the fetched events stops nothing. *)
Lemma collect_new_events_absent W events :
  W ∉ (id <$> events) -> collect_new_events (Some W) events = events.
Proof.
  induction events as [|event events IH]; intros Hnot; [done|].
  simpl in *. apply not_elem_of_cons in Hnot as [Hne Hnot].
  unfold at_watermark. rewrite (bool_decide_eq_false_2 (id event = W)) by done.
  rewrite andb_false_r. f_equal. by apply IH.
Qed.

(** What is reported as new is always a prefix of what was fetched. *)
Lemma collect_new_events_prefix last events :
  exists k, collect_new_events last events = take k events.
Proof.
  induction events as [|event events [k IH]]; [by exists 0%nat|].
  simpl. destruct (at_watermark last event).
  - by exists 0%nat.
  - exists (S k). simpl. by rewrite IH.
Qed.

(** One poll whose fetch returned events. *)
Lemma poll_repo_fetched repo cog channel newest rest :
  fetch_repo_events api repo 5 = Ret (newest :: rest) ->
  poll_repo api repo cog channel
  = (set_last_event_id repo (id newest) cog,
     post_events repo
       (collect_new_events (last_event_ids cog !! repo) (newest :: rest)) channel).
Proof. intros H. unfold poll_repo. by rewrite H. Qed.

(** One poll whose fetch raised, or returned nothing. *)
Lemma poll_repo_nothing repo cog channel :
  (exists e, fetch_repo_events api repo 5 = Raise e)
  \/ fetch_repo_events api repo 5 = Ret [] ->
  poll_repo api repo cog channel = (cog, channel).
Proof. intros [[e H]|H]; unfold poll_repo; by rewrite H. Qed.

(** The fetch returns nothing when the request yields no data. *)
Lemma fetch_repo_events_no_data repo per_page :
  _make_request (get_repo_events api repo per_page) = Ret None ->
  fetch_repo_events api repo per_page = Ret [].
Proof. intros H. unfold fetch_repo_events. by rewrite H. Qed.

Lemma poll_repo_watermark repo cog channel r :
  last_event_ids (poll_repo api repo cog channel).1 !! r
  = if bool_decide (r = repo)
    then polled_watermark api repo (last_event_ids cog !! repo)
    else last_event_ids cog !! r.
Proof.
  unfold poll_repo, polled_watermark.
  destruct (fetch_repo_events api repo 5) as [[|newest rest]|e]; simpl;
    case_bool_decide; subst; try done.
  - by rewrite lookup_insert_eq.
  - by rewrite lookup_insert_ne.
Qed.

Lemma poll_repo_subscribers repo cog channel :
  repo_subscribers (poll_repo api repo cog channel).1 = repo_subscribers cog.
Proof.
  unfold poll_repo.
  by destruct (fetch_repo_events api repo 5) as [[|newest rest]|e].
Qed.

Lemma polled_watermark_idem repo old :
  polled_watermark api repo (polled_watermark api repo old) = polled_watermark api repo old.
Proof.
  unfold polled_watermark.
  by destruct (fetch_repo_events api repo 5) as [[|newest rest]|e].
Qed.

(** A poll never drops a watermark. *)
Lemma poll_repo_keeps_watermark repo cog channel :
  is_Some (last_event_ids cog !! repo) ->
  is_Some (last_event_ids (poll_repo api repo cog channel).1 !! repo).
Proof.
  intros Hsome. rewrite poll_repo_watermark, bool_decide_eq_true_2 by done.
  unfold polled_watermark.
  destruct (fetch_repo_events api repo 5) as [[|newest rest]|e]; eauto.
Qed.

Lemma feed_step_watermark st repo r :
  last_event_ids (feed_step api st repo).1 !! r
  = if bool_decide (r = repo) && is_polled st.1 repo
    then polled_watermark api repo (last_event_ids st.1 !! repo)
    else last_event_ids st.1 !! r.
Proof.
  destruct st as [cog channel]. unfold feed_step, is_polled. simpl.
  destruct (repo_subscribers cog !! repo) as [subscribers|];
    [|by rewrite andb_false_r].
  case_bool_decide; simpl; [by rewrite andb_false_r|].
  rewrite andb_true_r. apply poll_repo_watermark.
Qed.

Lemma feed_step_subscribers st repo :
  repo_subscribers (feed_step api st repo).1 = repo_subscribers st.1.
Proof.
  destruct st as [cog channel]. unfold feed_step. simpl.
  destruct (repo_subscribers cog !! repo) as [subscribers|]; [|done].
  case_bool_decide; [done|]. apply poll_repo_subscribers.
Qed.

Lemma feed_steps_subscribers repos st :
  repo_subscribers (foldl (feed_step api) st repos).1 = repo_subscribers st.1.
Proof.
  revert st. induction repos as [|repo repos IH]; intros st; simpl; [done|].
  by rewrite IH, feed_step_subscribers.
Qed.

Lemma feed_steps_watermark repos st r :
  last_event_ids (foldl (feed_step api) st repos).1 !! r
  = if bool_decide (r ∈ repos) && is_polled st.1 r
    then polled_watermark api r (last_event_ids st.1 !! r)
    else last_event_ids st.1 !! r.
Proof.
  revert st. induction repos as [|repo repos IH]; intros st; simpl.
  - done.
  - rewrite IH. unfold is_polled at 1. rewrite feed_step_subscribers.
    fold (is_polled st.1 r). rewrite feed_step_watermark.
    destruct (decide (r = repo)) as [->|Hne].
    + rewrite (bool_decide_eq_true_2 (repo = repo)) by done.
      rewrite (bool_decide_eq_true_2 (repo ∈ repo :: repos))
        by (apply elem_of_cons; by left).
      destruct (is_polled st.1 repo); rewrite ?andb_false_r, ?andb_true_r;
        simpl; [|done].
      case_bool_decide; [by rewrite polled_watermark_idem|done].
    + rewrite (bool_decide_eq_false_2 (r = repo)) by done. simpl.
      case_bool_decide as Hin.
      * rewrite bool_decide_eq_true_2 by (apply elem_of_cons; by right). done.
      * rewrite bool_decide_eq_false_2
          by (rewrite elem_of_cons; intros [?|?]; done).
        done.
Qed.

(** A whole cycle: a repository with subscribers gets the watermark of one
    poll; every other repository keeps its watermark. *)
Lemma feed_loop_watermark channel cog r :
  last_event_ids (feed_loop api (Some channel) cog).1 !! r
  = if is_polled cog r
    then polled_watermark api r (last_event_ids cog !! r)
    else last_event_ids cog !! r.
Proof.
  unfold feed_loop.
  destruct (foldl _ _ _) as [cog' channel'] eqn:Hfold. simpl.
  change cog' with (cog', channel').1. rewrite <- Hfold.
  rewrite feed_steps_watermark. simpl.
  destruct (is_polled cog r) eqn:Hp; rewrite ?andb_false_r; [|done].
  rewrite andb_true_r, bool_decide_eq_true_2; [done|].
  unfold is_polled in Hp.
  destruct (repo_subscribers cog !! r) as [subscribers|] eqn:Hr; [|done].
  apply list_elem_of_fmap. exists (r, subscribers). split; [done|].
  by apply elem_of_map_to_list.
Qed.

(** Without a channel the cycle does nothing. *)
Lemma feed_loop_no_channel cog : feed_loop api None cog = (cog, None).
Proof. reflexivity. Qed.

(** The cycle ends by saving the watermarks. *)
Lemma feed_loop_saved channel cog :
  feed_file (feed_loop api (Some channel) cog).1
  = last_event_ids (feed_loop api (Some channel) cog).1.
Proof.
  unfold feed_loop. by destruct (foldl _ _ _) as [cog' channel'].
Qed.

End Feed.


(** ** Feed polling when a post is refused or a write fails *)

Section FallibleFeed.
Variable api : Remote.
Implicit Types (cog : GitHubFeed) (outbox : Fallible.Outbox)
  (delivers : nat -> exc unit) (events : list Event).

Lemma outbox_eq outbox1 outbox2 :
  Fallible.delivered outbox1 = Fallible.delivered outbox2 ->
  Fallible.requested outbox1 = Fallible.requested outbox2 ->
  outbox1 = outbox2.
Proof. destruct outbox1, outbox2. simpl. by intros -> ->. Qed.

(** What a run of posts leaves in the outbox: the embeds of the events
    before the first refused request. *)
Lemma post_each_outbox delivers repo events outbox :
  exists j,
    (j <= List.length events)%nat
    /\ Fallible.delivered (Fallible.post_each delivers repo events outbox).2
       = (Fallible.delivered outbox
          ++ (create_event_embed repo <$> take j events))%list
    /\ ((Fallible.post_each delivers repo events outbox).1 = Ret tt ->
        j = List.length events
        /\ Fallible.requested (Fallible.post_each delivers repo events outbox).2
           = (Fallible.requested outbox + j)%nat)
    /\ (forall e, (Fallible.post_each delivers repo events outbox).1 = Raise e ->
          (j < List.length events)%nat
          /\ delivers (Fallible.requested outbox + j)%nat = Raise e
          /\ Fallible.requested (Fallible.post_each delivers repo events outbox).2
             = S (Fallible.requested outbox + j)).
Proof.
  revert outbox. induction events as [|event events IH]; intros outbox.
  - exists 0%nat. simpl. rewrite app_nil_r. repeat split; try done; lia.
  - cbn [Fallible.post_each]. rewrite create_event_embed_truthy.
    unfold Fallible.send.
    destruct (delivers (Fallible.requested outbox)) as [[]|e] eqn:Hsend.
    + destruct (IH {| Fallible.delivered :=
                        (Fallible.delivered outbox
                         ++ [create_event_embed repo event])%list;
                      Fallible.requested := S (Fallible.requested outbox) |})
        as (j & Hj & Hdelivered & Hret & Hraise).
      exists (S j). cbn [Fallible.delivered Fallible.requested] in *.
      split; [simpl; lia|]. split.
      { rewrite Hdelivered. cbn [take fmap list_fmap]. by rewrite <- app_assoc. }
      split.
      * intros Hok. destruct (Hret Hok) as [-> ->]. split; [done|lia].
      * intros e He. destruct (Hraise e He) as (Hlt & Hrefused & ->).
        split; [simpl; lia|]. split; [|lia].
        by replace (Fallible.requested outbox + S j)%nat
          with (S (Fallible.requested outbox) + j)%nat by lia.
    + exists 0%nat. cbn [fst snd Fallible.delivered Fallible.requested take].
      rewrite app_nil_r. split; [simpl; lia|]. split; [done|].
      split; [done|]. intros e' [= <-].
      rewrite Nat.add_0_r. split; [simpl; lia|]. by split.
Qed.

Lemma post_each_delivers delivers repo events outbox :
  delivers_from delivers (Fallible.requested outbox) ->
  Fallible.post_each delivers repo events outbox
  = (Ret tt,
     {| Fallible.delivered :=
          (Fallible.delivered outbox ++ (create_event_embed repo <$> events))%list;
        Fallible.requested := (Fallible.requested outbox + List.length events)%nat |}).
Proof.
  intros Hdelivers.
  destruct (post_each_outbox delivers repo events outbox)
    as (j & Hj & Hdelivered & Hret & Hraise).
  destruct (Fallible.post_each delivers repo events outbox) as [[[]|e] outbox'].
  - destruct (Hret eq_refl) as [-> Hrequested]. simpl in *.
    f_equal. apply outbox_eq; simpl; [|done].
    by rewrite Hdelivered, firstn_all.
  - destruct (Hraise e eq_refl) as (_ & Hrefused & _).
    rewrite Hdelivers in Hrefused by lia. done.
Qed.

Lemma fallible_poll_repo_posted delivers repo cog outbox newest rest :
  fetch_repo_events api repo 5 = Ret (newest :: rest) ->
  (Fallible.post_events delivers repo
     (collect_new_events (last_event_ids cog !! repo) (newest :: rest)) outbox).1
  = Ret tt ->
  Fallible.poll_repo api delivers repo cog outbox
  = (set_last_event_id repo (id newest) cog,
     (Fallible.post_events delivers repo
        (collect_new_events (last_event_ids cog !! repo) (newest :: rest))
        outbox).2).
Proof.
  intros Hfetch Hposted. unfold Fallible.poll_repo. rewrite Hfetch. cbn [truthy negb].
  by destruct (Fallible.post_events _ _ _ _) as [[[]|e] outbox'].
Qed.

Lemma fallible_poll_repo_refused delivers repo cog outbox events e :
  fetch_repo_events api repo 5 = Ret events ->
  (Fallible.post_events delivers repo
     (collect_new_events (last_event_ids cog !! repo) events) outbox).1
  = Raise e ->
  Fallible.poll_repo api delivers repo cog outbox
  = (cog,
     (Fallible.post_events delivers repo
        (collect_new_events (last_event_ids cog !! repo) events) outbox).2).
Proof.
  intros Hfetch Hposted. unfold Fallible.poll_repo. rewrite Hfetch.
  destruct events as [|newest rest]; [done|]. cbn [truthy negb].
  by destruct (Fallible.post_events _ _ _ _) as [[[]|e'] outbox'].
Qed.

Lemma fallible_poll_repo_nothing delivers repo cog outbox :
  (exists e, fetch_repo_events api repo 5 = Raise e)
  \/ fetch_repo_events api repo 5 = Ret [] ->
  Fallible.poll_repo api delivers repo cog outbox = (cog, outbox).
Proof. intros [[e H]|H]; unfold Fallible.poll_repo; by rewrite H. Qed.

(** A poll changes no watermark but that of its repository, and that one
    only to the id of the newest fetched event. *)
Lemma fallible_poll_repo_watermark delivers repo cog outbox r :
  last_event_ids (Fallible.poll_repo api delivers repo cog outbox).1 !! r
  = last_event_ids cog !! r
  \/ (r = repo
      /\ exists newest rest,
           fetch_repo_events api repo 5 = Ret (newest :: rest)
           /\ last_event_ids (Fallible.poll_repo api delivers repo cog outbox).1 !! r
              = Some (id newest)).
Proof.
  unfold Fallible.poll_repo.
  destruct (fetch_repo_events api repo 5) as [[|newest rest]|e] eqn:Hfetch;
    [by left| |by left].
  cbn [truthy negb].
  destruct (Fallible.post_events _ _ _ _) as [[[]|e] outbox']; [|by left].
  cbn [fst]. unfold set_last_event_id. cbn [last_event_ids].
  destruct (decide (r = repo)) as [->|Hne].
  - right. split; [done|]. exists newest, rest. by rewrite lookup_insert_eq.
  - left. by rewrite lookup_insert_ne.
Qed.

Lemma fallible_poll_repo_subscribers delivers repo cog outbox :
  repo_subscribers (Fallible.poll_repo api delivers repo cog outbox).1
  = repo_subscribers cog.
Proof.
  unfold Fallible.poll_repo.
  destruct (fetch_repo_events api repo 5) as [[|newest rest]|e]; try done.
  cbn [truthy negb].
  by destruct (Fallible.post_events _ _ _ _) as [[[]|e] outbox'].
Qed.

Lemma fallible_poll_repo_file delivers repo cog outbox :
  feed_file (Fallible.poll_repo api delivers repo cog outbox).1 = feed_file cog.
Proof.
  unfold Fallible.poll_repo.
  destruct (fetch_repo_events api repo 5) as [[|newest rest]|e]; try done.
  cbn [truthy negb].
  by destruct (Fallible.post_events _ _ _ _) as [[[]|e] outbox'].
Qed.

Lemma fallible_poll_repo_requested delivers repo cog outbox :
  (Fallible.requested outbox
   <= Fallible.requested (Fallible.poll_repo api delivers repo cog outbox).2)%nat.
Proof.
  unfold Fallible.poll_repo.
  destruct (fetch_repo_events api repo 5) as [[|newest rest]|e]; try done.
  cbn [truthy negb]. unfold Fallible.post_events.
  set (posts := reverse _).
  destruct (post_each_outbox delivers repo posts outbox)
    as (j & _ & _ & Hret & Hraise).
  destruct (Fallible.post_each delivers repo posts outbox) as [[[]|e] outbox'].
  - destruct (Hret eq_refl) as [_ Hrequested]. simpl in *. lia.
  - destruct (Hraise e eq_refl) as (_ & _ & Hrequested). simpl in *. lia.
Qed.

(** When every request is taken, a poll is the poll of the model without
    refusals. *)
Lemma fallible_poll_repo_delivers delivers repo cog outbox :
  delivers_from delivers (Fallible.requested outbox) ->
  (Fallible.poll_repo api delivers repo cog outbox).1
  = (poll_repo api repo cog (Fallible.delivered outbox)).1
  /\ Fallible.delivered (Fallible.poll_repo api delivers repo cog outbox).2
     = (poll_repo api repo cog (Fallible.delivered outbox)).2.
Proof.
  intros Hdelivers. unfold Fallible.poll_repo, poll_repo.
  destruct (fetch_repo_events api repo 5) as [[|newest rest]|e]; try done.
  cbn [truthy negb]. unfold Fallible.post_events.
  rewrite post_each_delivers by done. cbn [fst snd Fallible.delivered].
  by rewrite post_events_snoc.
Qed.

Lemma fallible_feed_step_delivers delivers (st : GitHubFeed * Fallible.Outbox) repo :
  delivers_from delivers (Fallible.requested st.2) ->
  (Fallible.feed_step api delivers st repo).1
  = (feed_step api (st.1, Fallible.delivered st.2) repo).1
  /\ Fallible.delivered (Fallible.feed_step api delivers st repo).2
     = (feed_step api (st.1, Fallible.delivered st.2) repo).2
  /\ delivers_from delivers
       (Fallible.requested (Fallible.feed_step api delivers st repo).2).
Proof.
  destruct st as [cog outbox]. cbn [fst snd]. intros Hdelivers.
  unfold Fallible.feed_step, feed_step.
  destruct (repo_subscribers cog !! repo) as [subscribers|]; [|done].
  case_bool_decide; [done|].
  destruct (fallible_poll_repo_delivers delivers repo cog outbox Hdelivers)
    as [Hcog Houtbox].
  split; [done|]. split; [done|].
  intros n Hn. apply Hdelivers.
  pose proof (fallible_poll_repo_requested delivers repo cog outbox). lia.
Qed.

Lemma fallible_feed_steps_delivers delivers repos (st : GitHubFeed * Fallible.Outbox) :
  delivers_from delivers (Fallible.requested st.2) ->
  (foldl (Fallible.feed_step api delivers) st repos).1
  = (foldl (feed_step api) (st.1, Fallible.delivered st.2) repos).1
  /\ Fallible.delivered (foldl (Fallible.feed_step api delivers) st repos).2
     = (foldl (feed_step api) (st.1, Fallible.delivered st.2) repos).2.
Proof.
  revert st. induction repos as [|repo repos IH]; intros st Hdelivers; [done|].
  cbn [foldl].
  destruct (fallible_feed_step_delivers delivers st repo Hdelivers)
    as (Hcog & Houtbox & Hnext).
  destruct (IH _ Hnext) as [-> ->]. rewrite Hcog, Houtbox.
  by destruct (feed_step api (st.1, Fallible.delivered st.2) repo).
Qed.

Lemma fallible_feed_step_watermark delivers (st : GitHubFeed * Fallible.Outbox) repo r :
  last_event_ids (Fallible.feed_step api delivers st repo).1 !! r
  = last_event_ids st.1 !! r
  \/ (is_polled st.1 r = true
      /\ exists newest rest,
           fetch_repo_events api r 5 = Ret (newest :: rest)
           /\ last_event_ids (Fallible.feed_step api delivers st repo).1 !! r
              = Some (id newest)).
Proof.
  destruct st as [cog outbox]. unfold Fallible.feed_step. cbn [fst].
  destruct (repo_subscribers cog !! repo) as [subscribers|] eqn:Hrepo; [|by left].
  case_bool_decide as Hempty; [by left|].
  destruct (fallible_poll_repo_watermark delivers repo cog outbox r)
    as [Hsame|(-> & Hnew)]; [by left|].
  right. split; [|done]. unfold is_polled. rewrite Hrepo.
  by rewrite bool_decide_eq_false_2.
Qed.

Lemma fallible_feed_step_subscribers delivers (st : GitHubFeed * Fallible.Outbox) repo :
  repo_subscribers (Fallible.feed_step api delivers st repo).1 = repo_subscribers st.1
  /\ feed_file (Fallible.feed_step api delivers st repo).1 = feed_file st.1.
Proof.
  destruct st as [cog outbox]. unfold Fallible.feed_step. cbn [fst].
  destruct (repo_subscribers cog !! repo) as [subscribers|]; [|done].
  case_bool_decide; [done|].
  by rewrite fallible_poll_repo_subscribers, fallible_poll_repo_file.
Qed.

Lemma fallible_feed_steps_subscribers delivers repos (st : GitHubFeed * Fallible.Outbox) :
  repo_subscribers (foldl (Fallible.feed_step api delivers) st repos).1
  = repo_subscribers st.1
  /\ feed_file (foldl (Fallible.feed_step api delivers) st repos).1 = feed_file st.1.
Proof.
  revert st. induction repos as [|repo repos IH]; intros st; [done|].
  cbn [foldl]. destruct (IH (Fallible.feed_step api delivers st repo)) as [-> ->].
  apply fallible_feed_step_subscribers.
Qed.

Lemma fallible_feed_steps_watermark delivers repos (st : GitHubFeed * Fallible.Outbox) r :
  last_event_ids (foldl (Fallible.feed_step api delivers) st repos).1 !! r
  = last_event_ids st.1 !! r
  \/ (is_polled st.1 r = true
      /\ exists newest rest,
           fetch_repo_events api r 5 = Ret (newest :: rest)
           /\ last_event_ids (foldl (Fallible.feed_step api delivers) st repos).1 !! r
              = Some (id newest)).
Proof.
  revert st. induction repos as [|repo repos IH]; intros st; [by left|].
  cbn [foldl].
  assert (is_polled (Fallible.feed_step api delivers st repo).1 r = is_polled st.1 r)
    as Hpolled.
  { unfold is_polled.
    by destruct (fallible_feed_step_subscribers delivers st repo) as [-> _]. }
  destruct (IH (Fallible.feed_step api delivers st repo)) as [Hsame|[Hp Hnew]].
  - rewrite Hsame. apply fallible_feed_step_watermark.
  - right. by rewrite <- Hpolled.
Qed.

End FallibleFeed.

(** ** Claims on feed polling *)

(** The scenario of the specification: watermark "E100", fetched
    E105, E104, E100, E99; E104 then E105 are posted and the watermark
    becomes "E105". *)
Example poll_scenario :
  let '(cog, channel) := poll_repo demo_api "octo/demo" (demo_cog (Some "E100")) [] in
  channel = create_event_embed "octo/demo" <$> [push_event "E104"; push_event "E105"]
  /\ last_event_ids cog !! "octo/demo" = Some "E105".
Proof. vm_compute. done. Qed.

(** C1, as the code has it.  For a repository whose stored watermark [W]
    is not the empty string, and a poll whose fetched list (newest first)
    has its first event with id [W] at position [k], the events reported as
    new are exactly those at positions [0, k), and their embeds are posted
    oldest first. *)
Theorem dedup_reports_prefix (api : Remote) (repo : string) (cog : GitHubFeed)
    (channel : Channel) (W : string) (events : list Event) (k : nat) :
  last_event_ids cog !! repo = Some W ->
  W <> "" ->
  fetch_repo_events api repo 5 = Ret events ->
  (id <$> events) !! k = Some W ->
  (forall j, (j < k)%nat -> (id <$> events) !! j <> Some W) ->
  collect_new_events (last_event_ids cog !! repo) events = take k events
  /\ (poll_repo api repo cog channel).2
     = (channel ++ (create_event_embed repo <$> reverse (take k events)))%list.
Proof.
  intros Hw HW Hfetch Hk Hfirst.
  assert (Hnew : collect_new_events (last_event_ids cog !! repo) events
                 = take k events).
  { rewrite Hw. by apply collect_new_events_first. }
  split; [done|].
  destruct events as [|newest rest]; [done|].
  rewrite (poll_repo_fetched _ _ _ _ _ _ Hfetch). cbn [snd].
  by rewrite post_events_snoc, Hnew.
Qed.

Lemma dedup_reports_prefix_witness :
  collect_new_events (last_event_ids (demo_cog (Some "E100")) !! "octo/demo")
    demo_events = [push_event "E105"; push_event "E104"]
  /\ (poll_repo demo_api "octo/demo" (demo_cog (Some "E100")) []).2
     = create_event_embed "octo/demo" <$> [push_event "E104"; push_event "E105"].
Proof.
  apply (dedup_reports_prefix demo_api "octo/demo" (demo_cog (Some "E100")) []
           "E100" demo_events 2).
  - reflexivity.
  - discriminate.
  - reflexivity.
  - reflexivity.
  - intros j Hj. destruct j as [|[|j]]; [discriminate|discriminate|lia].
Defined.

(** C1 as stated fails in two ways.  When the watermark's id occurs twice
    in the fetched list, the walk stops at the first occurrence, so for the
    later position [k = 2] the event at position 1 is not reported.  When
    the stored watermark is the empty string, the walk never stops, so the
    event at position [k = 1] that carries it is reported too. *)
Lemma dedup_as_stated_fails :
  (let events := [push_event "E105"; push_event "E100"; push_event "E100"] in
   let cog := demo_cog (Some "E100") in
   last_event_ids cog !! "octo/demo" = Some "E100"
   /\ fetch_repo_events (remote_with_events events) "octo/demo" 5 = Ret events
   /\ (id <$> events) !! 2%nat = Some "E100"
   /\ (poll_repo (remote_with_events events) "octo/demo" cog []).2
      = create_event_embed "octo/demo" <$> [push_event "E105"]
   /\ (poll_repo (remote_with_events events) "octo/demo" cog []).2
      <> create_event_embed "octo/demo" <$> reverse (take 2 events))
  /\
  (let events := [push_event "E105"; push_event ""] in
   let cog := demo_cog (Some "") in
   last_event_ids cog !! "octo/demo" = Some ""
   /\ fetch_repo_events (remote_with_events events) "octo/demo" 5 = Ret events
   /\ (id <$> events) !! 1%nat = Some ""
   /\ (poll_repo (remote_with_events events) "octo/demo" cog []).2
      = create_event_embed "octo/demo" <$> [push_event ""; push_event "E105"]
   /\ (poll_repo (remote_with_events events) "octo/demo" cog []).2
      <> create_event_embed "octo/demo" <$> reverse (take 1 events)).
Proof.
  split; cbv zeta; repeat split; try reflexivity; vm_compute; discriminate.
Qed.

(** C2, as the code has it.  Watermark advancement.  After a poll of
    [repo] whose fetch returned a non-empty list and whose posts were all
    taken, the stored watermark is the id of the event at index 0 of that
    list, whatever was stored before and however many events were new.
    The id is not compared with the stored watermark: when the stored
    watermark is not among the fetched events - as on a page that is older
    than it - every fetched event is posted and the watermark becomes the
    newest id of that page.  A fetch that raises, returns the empty list or
    yields no data leaves the store and the outbox unchanged, and a refused
    post leaves the store unchanged.  Other repositories are never touched
    and a stored watermark is never lost.  The same holds over a whole
    cycle of [feed_loop], which polls the repositories that have
    subscribers; its write, when it fails, does not undo the advance in
    memory. *)
Theorem watermark_advances_to_newest (api : Remote) (delivers : nat -> exc unit)
    (repo : string) (cog : GitHubFeed) (outbox : Fallible.Outbox) :
  let polled := Fallible.poll_repo api delivers repo cog outbox in
  let posting events :=
    Fallible.post_events delivers repo
      (collect_new_events (last_event_ids cog !! repo) events) outbox in
  (forall newest rest,
     fetch_repo_events api repo 5 = Ret (newest :: rest) ->
     (posting (newest :: rest)).1 = Ret tt ->
     last_event_ids polled.1 !! repo = Some (id newest))
  /\ (forall W newest rest,
        last_event_ids cog !! repo = Some W ->
        W ∉ id <$> newest :: rest ->
        fetch_repo_events api repo 5 = Ret (newest :: rest) ->
        delivers_from delivers (Fallible.requested outbox) ->
        last_event_ids polled.1 !! repo = Some (id newest)
        /\ Fallible.delivered polled.2
           = (Fallible.delivered outbox
              ++ (create_event_embed repo <$> reverse (newest :: rest)))%list)
  /\ (forall events e,
        fetch_repo_events api repo 5 = Ret events ->
        (posting events).1 = Raise e ->
        polled.1 = cog)
  /\ (forall events e,
        fetch_repo_events api repo 5 = Ret events ->
        collect_new_events (last_event_ids cog !! repo) events <> [] ->
        delivers (Fallible.requested outbox) = Raise e ->
        polled
        = (cog, {| Fallible.delivered := Fallible.delivered outbox;
                   Fallible.requested := S (Fallible.requested outbox) |}))
  /\ (forall e, fetch_repo_events api repo 5 = Raise e -> polled = (cog, outbox))
  /\ (fetch_repo_events api repo 5 = Ret [] -> polled = (cog, outbox))
  /\ (_make_request (get_repo_events api repo 5) = Ret None -> polled = (cog, outbox))
  /\ (forall other, other <> repo ->
        last_event_ids polled.1 !! other = last_event_ids cog !! other)
  /\ (forall polls : list (Remote * (nat -> exc unit)),
        is_Some (last_event_ids cog !! repo) ->
        is_Some (last_event_ids
                   (foldl (fun st poll => Fallible.poll_repo poll.1 poll.2 repo st.1 st.2)
                      (cog, outbox) polls).1 !! repo))
  /\ (forall write newest rest,
        is_polled cog repo = true ->
        fetch_repo_events api repo 5 = Ret (newest :: rest) ->
        delivers_from delivers (Fallible.requested outbox) ->
        last_event_ids
          (Fallible.feed_loop api delivers write (Some outbox) cog).1 !! repo
        = Some (id newest))
  /\ (forall write,
        is_polled cog repo = false
        \/ (exists e, fetch_repo_events api repo 5 = Raise e)
        \/ fetch_repo_events api repo 5 = Ret [] ->
        last_event_ids
          (Fallible.feed_loop api delivers write (Some outbox) cog).1 !! repo
        = last_event_ids cog !! repo)
  /\ (let saved write :=
        feed_file (Fallible.feed_loop api delivers write (Some outbox) cog).1 in
      saved Fallible.Written
      = last_event_ids
          (Fallible.feed_loop api delivers Fallible.Written (Some outbox) cog).1
      /\ saved Fallible.OpenRefused = feed_file cog
      /\ saved Fallible.DumpInterrupted = ∅).
Proof.
  cbv zeta.
  split; [|split; [|split; [|split; [|split; [|split; [|split; [|split;
    [|split; [|split; [|split]]]]]]]]]].
  - intros newest rest Hfetch Hposted.
    rewrite (fallible_poll_repo_posted _ _ _ _ _ _ _ Hfetch Hposted).
    cbn [fst set_last_event_id last_event_ids]. by rewrite lookup_insert_eq.
  - intros W newest rest HW Habsent Hfetch Hdelivers.
    assert (Fallible.post_events delivers repo
              (collect_new_events (last_event_ids cog !! repo) (newest :: rest))
              outbox
            = (Ret tt,
               {| Fallible.delivered :=
                    (Fallible.delivered outbox
                     ++ (create_event_embed repo <$> reverse (newest :: rest)))%list;
                  Fallible.requested :=
                    (Fallible.requested outbox
                     + List.length (reverse (newest :: rest)))%nat |}))
      as Hposted.
    { rewrite HW, collect_new_events_absent by done.
      unfold Fallible.post_events. by apply post_each_delivers. }
    rewrite (fallible_poll_repo_posted _ _ _ _ _ _ _ Hfetch)
      by (by rewrite Hposted).
    rewrite Hposted. cbn [fst snd set_last_event_id last_event_ids].
    by rewrite lookup_insert_eq.
  - intros events e Hfetch Hrefused.
    by rewrite (fallible_poll_repo_refused _ _ _ _ _ _ _ Hfetch Hrefused).
  - intros events e Hfetch Hnew Hrefused.
    assert (Fallible.post_events delivers repo
              (collect_new_events (last_event_ids cog !! repo) events) outbox
            = (Raise e,
               {| Fallible.delivered := Fallible.delivered outbox;
                  Fallible.requested := S (Fallible.requested outbox) |}))
      as Hposted.
    { unfold Fallible.post_events.
      destruct (reverse (collect_new_events (last_event_ids cog !! repo) events))
        as [|event posts] eqn:Hposts.
      - apply (f_equal reverse) in Hposts. rewrite reverse_involutive in Hposts.
        by destruct Hnew.
      - cbn [Fallible.post_each]. rewrite create_event_embed_truthy.
        unfold Fallible.send. by rewrite Hrefused. }
    rewrite (fallible_poll_repo_refused _ _ _ _ _ _ e Hfetch)
      by (by rewrite Hposted).
    by rewrite Hposted.
  - intros e Hfetch. apply fallible_poll_repo_nothing. eauto.
  - intros Hfetch. apply fallible_poll_repo_nothing. eauto.
  - intros Hnone. apply fallible_poll_repo_nothing. right.
    by apply fetch_repo_events_no_data.
  - intros other Hne.
    by destruct (fallible_poll_repo_watermark api delivers repo cog outbox other)
      as [?|[? _]].
  - intros polls. generalize outbox. generalize cog.
    induction polls as [|poll polls IH]; intros cog0 outbox0 Hsome; [done|].
    cbn [foldl]. cbn [fst snd].
    destruct (Fallible.poll_repo poll.1 poll.2 repo cog0 outbox0)
      as [cog1 outbox1] eqn:Hpoll.
    apply IH.
    destruct (fallible_poll_repo_watermark poll.1 poll.2 repo cog0 outbox0 repo)
      as [Hsame|(_ & newest & rest & _ & Hnew)];
      rewrite Hpoll in *; cbn [fst] in *.
    + by rewrite Hsame.
    + by rewrite Hnew.
  - intros write newest rest Hpolled Hfetch Hdelivers.
    unfold Fallible.feed_loop.
    pose proof (fallible_feed_steps_delivers api delivers
                  (map_to_list (repo_subscribers cog)).*1 (cog, outbox) Hdelivers)
      as [Hcog _].
    destruct (foldl (Fallible.feed_step api delivers) _ _) as [cog' outbox'].
    cbn [fst snd Fallible.save_last_events last_event_ids] in *. rewrite Hcog.
    pose proof (feed_loop_watermark api (Fallible.delivered outbox) cog repo)
      as Hwatermark.
    unfold feed_loop in Hwatermark.
    destruct (foldl (feed_step api) _ _) as [cog'' channel''].
    cbn [fst save_last_events last_event_ids] in *.
    rewrite Hwatermark, Hpolled. unfold polled_watermark. by rewrite Hfetch.
  - intros write Hnot. unfold Fallible.feed_loop.
    pose proof (fallible_feed_steps_watermark api delivers
                  (map_to_list (repo_subscribers cog)).*1 (cog, outbox) repo)
      as Hwatermark.
    destruct (foldl (Fallible.feed_step api delivers) _ _) as [cog' outbox'].
    cbn [fst snd Fallible.save_last_events last_event_ids] in *.
    destruct Hwatermark as [Hsame|(Hpolled & newest & rest & Hfetch & _)];
      [done|].
    destruct Hnot as [Hnot|[[e Hnot]|Hnot]]; congruence.
  - unfold Fallible.feed_loop.
    pose proof (fallible_feed_steps_subscribers api delivers
                  (map_to_list (repo_subscribers cog)).*1 (cog, outbox))
      as [_ Hfile].
    by destruct (foldl (Fallible.feed_step api delivers) _ _) as [cog' outbox'].
Qed.

(** C2 as the specification words it does not hold: the watermark can
    regress.  The first poll sees the page E105, E104, E100, E99 and stores
    "E105"; a later poll is served the older page E100, E99, which does not
    hold "E105": it stores "E100", an event that stands after E105 in the
    newest-first history, and posts E99 and E100 a second time. *)
Lemma watermark_never_regresses_as_stated_fails :
  let first :=
    Fallible.poll_repo demo_api always_delivers "octo/demo" (demo_cog None)
      empty_outbox in
  let second :=
    Fallible.poll_repo stale_api always_delivers "octo/demo" first.1 first.2 in
  fetch_repo_events demo_api "octo/demo" 5 = Ret demo_events
  /\ id <$> demo_events = ["E105"; "E104"; "E100"; "E99"]
  /\ last_event_ids first.1 !! "octo/demo" = Some "E105"
  /\ Fallible.delivered first.2
     = create_event_embed "octo/demo"
         <$> [push_event "E99"; push_event "E100"; push_event "E104";
              push_event "E105"]
  /\ fetch_repo_events stale_api "octo/demo" 5
     = Ret [push_event "E100"; push_event "E99"]
  /\ last_event_ids second.1 !! "octo/demo" = Some "E100"
  /\ Fallible.delivered second.2
     = (Fallible.delivered first.2
        ++ (create_event_embed "octo/demo"
              <$> [push_event "E99"; push_event "E100"]))%list.
Proof. cbv zeta. repeat split; reflexivity. Qed.

(** C3. Cold start.  For a repository with no stored watermark, a poll
    reports every fetched event as new and posts the embeds of all of them,
    oldest first. *)
Theorem cold_start_emits_all (api : Remote) (repo : string) (cog : GitHubFeed)
    (channel : Channel) (events : list Event) :
  last_event_ids cog !! repo = None ->
  fetch_repo_events api repo 5 = Ret events ->
  collect_new_events (last_event_ids cog !! repo) events = events
  /\ (poll_repo api repo cog channel).2
     = (channel ++ (create_event_embed repo <$> reverse events))%list
  /\ List.length (poll_repo api repo cog channel).2
     = (List.length channel + List.length events)%nat.
Proof.
  intros Hw Hfetch.
  assert (Hposted : (poll_repo api repo cog channel).2
     = (channel ++ (create_event_embed repo <$> reverse events))%list).
  { destruct events as [|newest rest].
    - rewrite poll_repo_nothing by eauto. simpl. by rewrite app_nil_r.
    - rewrite (poll_repo_fetched _ _ _ _ _ _ Hfetch). cbn [snd].
      by rewrite post_events_snoc, Hw, collect_new_events_cold. }
  split; [by rewrite Hw, collect_new_events_cold|].
  split; [done|].
  rewrite Hposted, length_app, length_fmap, length_reverse. done.
Qed.

Lemma cold_start_emits_all_witness :
  collect_new_events (last_event_ids (demo_cog None) !! "octo/demo") demo_events
  = demo_events
  /\ (poll_repo demo_api "octo/demo" (demo_cog None) []).2
     = create_event_embed "octo/demo"
         <$> [push_event "E99"; push_event "E100"; push_event "E104"; push_event "E105"]
  /\ List.length (poll_repo demo_api "octo/demo" (demo_cog None) []).2 = 4%nat.
Proof.
  apply (cold_start_emits_all demo_api "octo/demo" (demo_cog None) [] demo_events);
    reflexivity.
Defined.


(** ** Ranking *)

Section Sorting.
Context {A : Type} (key : A -> Z).
Implicit Types (x : A) (l : list A).

Lemma insert_reverse_perm x l : insert_reverse key x l ≡ₚ x :: l.
Proof.
  induction l as [|y l IH]; simpl; [done|].
  destruct (key x <? key y); [|done].
  rewrite IH. apply Permutation_swap.
Qed.

Lemma sort_reverse_perm l : sort_reverse key l ≡ₚ l.
Proof.
  induction l as [|x l IH]; simpl; [done|].
  by rewrite insert_reverse_perm, IH.
Qed.

Lemma insert_reverse_sorted x l :
  StronglySorted (fun a b => key b <= key a) l ->
  StronglySorted (fun a b => key b <= key a) (insert_reverse key x l).
Proof.
  induction 1 as [|y l Hsorted IH Hy]; simpl.
  - repeat constructor.
  - destruct (key x <? key y) eqn:Hlt.
    + apply Z.ltb_lt in Hlt. constructor; [done|].
      rewrite insert_reverse_perm. constructor; [lia|done].
    + apply Z.ltb_ge in Hlt. constructor.
      * by constructor.
      * constructor; [done|].
        eapply Forall_impl; [exact Hy|]. simpl. intros z Hz. lia.
Qed.

Lemma sort_reverse_sorted l :
  StronglySorted (fun a b => key b <= key a) (sort_reverse key l).
Proof.
  induction l as [|x l IH]; simpl; [constructor|].
  by apply insert_reverse_sorted.
Qed.

(** Inserting an entry moves it only past entries with a larger key, so
    the entries of any one key keep their order. *)
Lemma insert_reverse_stable v x l :
  filter (fun y => key y = v) (insert_reverse key x l)
  = filter (fun y => key y = v) (x :: l).
Proof.
  induction l as [|y l IH]; simpl; [done|].
  destruct (key x <? key y) eqn:Hlt; [|done].
  apply Z.ltb_lt in Hlt.
  rewrite (filter_cons _ y), IH, !(filter_cons _ x), !(filter_cons _ y).
  repeat case_decide; try done; lia.
Qed.

Lemma sort_reverse_stable v l :
  filter (fun y => key y = v) (sort_reverse key l) = filter (fun y => key y = v) l.
Proof.
  induction l as [|x l IH]; simpl; [done|].
  rewrite insert_reverse_stable, !(filter_cons _ x), IH. done.
Qed.

(** Being descending and keeping the order within each key determines the
    result: whatever algorithm the sort runs, a stable descending sort of
    [l] returns [sort_reverse key l]. *)
Lemma stable_descending_unique (s1 s2 : list A) :
  StronglySorted (fun a b => key b <= key a) s1 ->
  StronglySorted (fun a b => key b <= key a) s2 ->
  (forall v, filter (fun y => key y = v) s1 = filter (fun y => key y = v) s2) ->
  s1 = s2.
Proof.
  intros Hs1. revert s2.
  induction Hs1 as [|x s1 Hs1 IH Hx]; intros s2 Hs2 Hstable.
  - destruct s2 as [|y s2]; [done|].
    specialize (Hstable (key y)). rewrite filter_cons, decide_True in Hstable by done.
    done.
  - destruct Hs2 as [|y s2 Hs2 Hy].
    + specialize (Hstable (key x)).
      rewrite filter_cons, decide_True in Hstable by done. done.
    + assert (key x <= key y) as Hxy.
      { assert (x ∈ filter (fun z => key z = key x) (y :: s2)) as Hin.
        { rewrite <- Hstable, filter_cons, decide_True by done.
          apply elem_of_cons. by left. }
        apply list_elem_of_filter in Hin as [_ Hin].
        apply elem_of_cons in Hin as [->|Hin]; [lia|].
        rewrite Forall_forall in Hy. by apply Hy. }
      assert (key y <= key x) as Hyx.
      { assert (y ∈ filter (fun z => key z = key y) (x :: s1)) as Hin.
        { rewrite Hstable, filter_cons, decide_True by done.
          apply elem_of_cons. by left. }
        apply list_elem_of_filter in Hin as [_ Hin].
        apply elem_of_cons in Hin as [->|Hin]; [lia|].
        rewrite Forall_forall in Hx. by apply Hx. }
      assert (x = y) as ->.
      { specialize (Hstable (key x)).
        rewrite !filter_cons, !decide_True in Hstable by lia. congruence. }
      f_equal. apply IH; [done|]. intros v. specialize (Hstable v).
      rewrite !filter_cons in Hstable. case_decide; congruence.
Qed.

Lemma sort_reverse_unique l (s : list A) :
  StronglySorted (fun a b => key b <= key a) s ->
  (forall v, filter (fun y => key y = v) s = filter (fun y => key y = v) l) ->
  s = sort_reverse key l.
Proof.
  intros Hs Hstable. apply stable_descending_unique; [done|..].
  - apply sort_reverse_sorted.
  - intros v. by rewrite Hstable, sort_reverse_stable.
Qed.

Lemma sort_reverse_elem_of x l : x ∈ sort_reverse key l <-> x ∈ l.
Proof. by rewrite sort_reverse_perm. Qed.

Lemma sort_reverse_length l : List.length (sort_reverse key l) = List.length l.
Proof. by rewrite sort_reverse_perm. Qed.

(** In a ranked list, a later entry never has a larger key. *)
Lemma sort_reverse_lookup_le l i j x y :
  sort_reverse key l !! i = Some x ->
  sort_reverse key l !! j = Some y ->
  (i < j)%nat -> key y <= key x.
Proof.
  generalize (sort_reverse_sorted l). generalize (sort_reverse key l) as s.
  intros s Hs. revert i j.
  induction Hs as [|z s Hs IH Hz]; intros i j Hi Hj Hlt; [done|].
  destruct j as [|j]; [lia|]. simpl in Hj.
  destruct i as [|i]; simpl in Hi.
  - injection Hi as ->. rewrite Forall_forall in Hz.
    apply Hz. by eapply list_elem_of_lookup_2.
  - eapply IH; [done..|lia].
Qed.
End Sorting.

(** ** Role reconciliation *)

Section Roles.
Implicit Types (guild : Guild) (st : RoleState) (m : Member) (i : Z)
  (role : string) (user_stats : list UserStats).

Lemma member_eq m1 m2 :
  display_name m1 = display_name m2 ->
  (forall r, r ∈ member_roles m1 <-> r ∈ member_roles m2) ->
  m1 = m2.
Proof.
  destruct m1 as [n1 rs1], m2 as [n2 rs2]. simpl. intros -> H.
  f_equal. by apply set_eq.
Qed.

Lemma elem_of_without_role role m r :
  r ∈ member_roles (without_role role m) <-> r ∈ member_roles m /\ r <> role.
Proof. unfold without_role. simpl. set_solver. Qed.

Lemma elem_of_with_role role m r :
  r ∈ member_roles (with_role role m) <-> r ∈ member_roles m \/ r = role.
Proof. unfold with_role. simpl. set_solver. Qed.

Lemma without_role_absent role m :
  role ∉ member_roles m -> without_role role m = m.
Proof.
  intros H. apply member_eq; [done|]. intros r.
  rewrite elem_of_without_role. split; [tauto|]. intros Hr. split; [done|].
  by intros ->.
Qed.

Lemma with_role_present role m :
  role ∈ member_roles m -> with_role role m = m.
Proof.
  intros H. apply member_eq; [done|]. intros r.
  rewrite elem_of_with_role. split; [|tauto]. by intros [?| ->].
Qed.

Lemma without_role_idem role m :
  without_role role (without_role role m) = without_role role m.
Proof.
  apply without_role_absent. rewrite elem_of_without_role. tauto.
Qed.

Lemma with_role_idem role m :
  with_role role (with_role role m) = with_role role m.
Proof.
  apply with_role_present. rewrite elem_of_with_role. tauto.
Qed.

Lemma has_role_true guild i role :
  has_role guild i role = true
  <-> exists m, members guild !! i = Some m /\ role ∈ member_roles m.
Proof.
  unfold has_role. destruct (members guild !! i) as [m|].
  - rewrite bool_decide_eq_true. split.
    + intros H. by exists m.
    + by intros (m' & [= <-] & H).
  - split; [done|]. by intros (m' & ? & _).
Qed.

(** *** Removing a role from all members *)

Lemma strip_role_members role st mid i :
  members (strip_role role st mid).1 !! i
  = if decide (i = mid) then without_role role <$> members st.1 !! i
    else members st.1 !! i.
Proof.
  unfold strip_role, has_role.
  destruct (members st.1 !! mid) as [m|] eqn:Hm.
  - case_bool_decide as Hr; simpl.
    + rewrite lookup_alter. repeat case_decide; by subst.
    + case_decide; [|done]. subst. rewrite Hm. simpl.
      by rewrite without_role_absent.
  - case_decide; [|done]. subst. by rewrite Hm.
Qed.

Lemma strip_role_frame role st mid :
  roles (strip_role role st mid).1 = roles st.1
  /\ text_channels (strip_role role st mid).1 = text_channels st.1.
Proof. unfold strip_role. by destruct (has_role _ _ _). Qed.

Lemma strip_role_ops role st mid :
  (strip_role role st mid).2
  = (st.2 ++ if has_role st.1 mid role then [RemoveRoles mid role] else [])%list.
Proof.
  unfold strip_role. destruct (has_role _ _ _); simpl; [done|].
  by rewrite app_nil_r.
Qed.

Lemma strip_role_has_role role st mid i :
  i <> mid -> has_role (strip_role role st mid).1 i role = has_role st.1 i role.
Proof.
  intros Hne. unfold has_role. rewrite strip_role_members.
  by rewrite decide_False.
Qed.

Lemma strip_all_members role ids st i :
  members (foldl (strip_role role) st ids).1 !! i
  = if decide (i ∈ ids) then without_role role <$> members st.1 !! i
    else members st.1 !! i.
Proof.
  revert st. induction ids as [|mid ids IH]; intros st; simpl.
  - done.
  - rewrite IH, strip_role_members.
    destruct (decide (i = mid)) as [->|Hne].
    + rewrite (decide_True (P := mid ∈ mid :: ids)) by (apply elem_of_cons; by left).
      case_decide; [|done].
      rewrite <- option_fmap_compose. apply option_fmap_ext.
      intros m. apply without_role_idem.
    + case_decide as Hin.
      * by rewrite decide_True by (apply elem_of_cons; by right).
      * rewrite decide_False; [done|].
        rewrite elem_of_cons. by intros [?|?].
Qed.

Lemma strip_all_frame role ids st :
  roles (foldl (strip_role role) st ids).1 = roles st.1
  /\ text_channels (foldl (strip_role role) st ids).1 = text_channels st.1.
Proof.
  revert st. induction ids as [|mid ids IH]; intros st; simpl; [done|].
  destruct (IH (strip_role role st mid)) as [-> ->].
  apply strip_role_frame.
Qed.

Lemma filter_ext_elem_of {X} (P Q : X -> Prop)
    `{!forall x, Decision (P x)} `{!forall x, Decision (Q x)} (l : list X) :
  (forall x, x ∈ l -> (P x <-> Q x)) -> filter P l = filter Q l.
Proof.
  induction l as [|x l IH]; intros Hext; [done|].
  rewrite !filter_cons.
  rewrite IH by (intros y Hy; apply Hext; by apply elem_of_cons; right).
  assert (P x <-> Q x) as Hx by (apply Hext; by apply elem_of_cons; left).
  repeat case_decide; tauto.
Qed.

(** The removals requested: one for each member that holds the role. *)
Lemma strip_all_ops role ids st :
  NoDup ids ->
  (foldl (strip_role role) st ids).2
  = (st.2 ++ ((fun i => RemoveRoles i role)
                <$> filter (fun i => has_role st.1 i role = true) ids))%list.
Proof.
  revert st. induction ids as [|mid ids IH]; intros st Hnd; simpl.
  - by rewrite app_nil_r.
  - apply NoDup_cons in Hnd as [Hmid Hnd].
    rewrite IH, strip_role_ops, filter_cons by done.
    rewrite <- app_assoc. f_equal.
    rewrite (filter_ext_elem_of
               (fun i => has_role (strip_role role st mid).1 i role = true)
               (fun i => has_role st.1 i role = true)).
    + case_decide as Hh; [by rewrite Hh|].
      apply not_true_is_false in Hh. by rewrite Hh.
    + intros i Hi. rewrite strip_role_has_role; [done|]. by intros ->.
Qed.

(** *** Granting a role to the listed entries *)

Lemma grant_role_members role st entry i :
  members (grant_role role st entry).1 !! i
  = if decide (i = discord_id entry) then with_role role <$> members st.1 !! i
    else members st.1 !! i.
Proof.
  unfold grant_role.
  destruct (members st.1 !! discord_id entry) as [m|] eqn:Hm; simpl.
  - rewrite lookup_alter. repeat case_decide; by subst.
  - case_decide; [|done]. subst. by rewrite Hm.
Qed.

Lemma grant_role_frame role st entry :
  roles (grant_role role st entry).1 = roles st.1
  /\ text_channels (grant_role role st entry).1 = text_channels st.1.
Proof. unfold grant_role. by destruct (members st.1 !! _). Qed.

Lemma grant_role_ops role st entry :
  (grant_role role st entry).2
  = (st.2 ++ if decide (is_Some (members st.1 !! discord_id entry))
             then [AddRoles (discord_id entry) role] else [])%list.
Proof.
  unfold grant_role.
  destruct (members st.1 !! discord_id entry) as [m|] eqn:Hm; simpl.
  - done.
  - by rewrite app_nil_r.
Qed.

Lemma grant_all_members role entries st i :
  members (foldl (grant_role role) st entries).1 !! i
  = if decide (i ∈ discord_id <$> entries)
    then with_role role <$> members st.1 !! i
    else members st.1 !! i.
Proof.
  revert st. induction entries as [|entry entries IH]; intros st; simpl.
  - done.
  - rewrite IH, grant_role_members.
    destruct (decide (i = discord_id entry)) as [->|Hne].
    + rewrite (decide_True (P := discord_id entry ∈ _ :: _))
        by (apply elem_of_cons; by left).
      case_decide; [|done].
      rewrite <- option_fmap_compose. apply option_fmap_ext.
      intros m. apply with_role_idem.
    + case_decide as Hin.
      * by rewrite decide_True by (apply elem_of_cons; by right).
      * rewrite decide_False; [done|].
        rewrite elem_of_cons. by intros [?|?].
Qed.

Lemma grant_all_frame role entries st :
  roles (foldl (grant_role role) st entries).1 = roles st.1
  /\ text_channels (foldl (grant_role role) st entries).1 = text_channels st.1.
Proof.
  revert st. induction entries as [|entry entries IH]; intros st; simpl; [done|].
  destruct (IH (grant_role role st entry)) as [-> ->].
  apply grant_role_frame.
Qed.

(** The grants requested: one for each listed entry that resolves to a
    member, in the order of the list. *)
Lemma grant_all_ops role entries st :
  (foldl (grant_role role) st entries).2
  = (st.2 ++ ((fun entry => AddRoles (discord_id entry) role)
                <$> filter (fun entry => is_Some (members st.1 !! discord_id entry))
                      entries))%list.
Proof.
  revert st. induction entries as [|entry entries IH]; intros st; simpl.
  - by rewrite app_nil_r.
  - rewrite IH, grant_role_ops, filter_cons.
    rewrite <- app_assoc. f_equal.
    rewrite (filter_ext_elem_of
               (fun e => is_Some (members (grant_role role st entry).1 !! discord_id e))
               (fun e => is_Some (members st.1 !! discord_id e))).
    + by case_decide.
    + intros e _. rewrite grant_role_members.
      case_decide; [|done]. by rewrite fmap_is_Some.
Qed.

End Roles.

Section TopRole.
Implicit Types (guild : Guild) (i : Z) (user_stats : list UserStats).

Lemma get_or_create_role_members role guild :
  members (get_or_create_role role guild) = members guild.
Proof. unfold get_or_create_role. by case_bool_decide. Qed.

Lemma get_or_create_role_text_channels role guild :
  text_channels (get_or_create_role role guild) = text_channels guild.
Proof. unfold get_or_create_role. by case_bool_decide. Qed.

Lemma get_or_create_role_has_role role guild i r :
  has_role (get_or_create_role role guild) i r = has_role guild i r.
Proof. unfold has_role. by rewrite get_or_create_role_members. Qed.

Lemma get_or_create_role_elem_of role guild :
  role ∈ roles (get_or_create_role role guild).
Proof.
  unfold get_or_create_role. case_bool_decide; [done|]. simpl.
  apply elem_of_app. right. by apply list_elem_of_singleton.
Qed.

Lemma get_or_create_role_present role guild :
  role ∈ roles guild -> get_or_create_role role guild = guild.
Proof. intros H. unfold get_or_create_role. by rewrite bool_decide_eq_true_2. Qed.

Lemma get_or_create_role_mono role guild r :
  r ∈ roles guild -> r ∈ roles (get_or_create_role role guild).
Proof.
  intros H. unfold get_or_create_role. case_bool_decide; [done|]. simpl.
  apply elem_of_app. by left.
Qed.

Lemma member_ids_elem_of guild i :
  i ∈ member_ids guild <-> is_Some (members guild !! i).
Proof.
  unfold member_ids. rewrite list_elem_of_fmap. split.
  - intros ([i' m] & -> & Hin). apply elem_of_map_to_list in Hin. by exists m.
  - intros [m Hm]. exists (i, m). split; [done|]. by apply elem_of_map_to_list.
Qed.

Lemma get_or_create_role_member_ids role guild :
  member_ids (get_or_create_role role guild) = member_ids guild.
Proof. unfold member_ids. by rewrite get_or_create_role_members. Qed.

Lemma member_ids_NoDup guild : NoDup (member_ids guild).
Proof. apply NoDup_fst_map_to_list. Qed.

(** The two loops together, seen from one member. *)
Lemma assign_top_contributor_roles_members guild user_stats i :
  members (assign_top_contributor_roles guild user_stats).1 !! i
  = top_effect user_stats i <$> members guild !! i.
Proof.
  unfold assign_top_contributor_roles.
  rewrite grant_all_members, strip_all_members. simpl.
  rewrite get_or_create_role_members.
  destruct (members guild !! i) as [m|] eqn:Hm.
  - rewrite (decide_True (P := i ∈ member_ids _)).
    2:{ apply member_ids_elem_of. rewrite get_or_create_role_members. eauto. }
    unfold top_effect. simpl. case_decide.
    + by rewrite bool_decide_eq_true_2.
    + by rewrite bool_decide_eq_false_2.
  - by repeat case_decide.
Qed.

Lemma assign_top_contributor_roles_frame guild user_stats :
  roles (assign_top_contributor_roles guild user_stats).1
  = roles (get_or_create_role top_role guild)
  /\ text_channels (assign_top_contributor_roles guild user_stats).1
     = text_channels guild.
Proof.
  unfold assign_top_contributor_roles.
  destruct (grant_all_frame top_role (take 3 user_stats)
              (foldl (strip_role top_role) (get_or_create_role top_role guild, [])
                 (member_ids (get_or_create_role top_role guild)))) as [-> ->].
  destruct (strip_all_frame top_role
              (member_ids (get_or_create_role top_role guild))
              (get_or_create_role top_role guild, [])) as [-> ->].
  simpl. by rewrite get_or_create_role_text_channels.
Qed.

(** The mutations requested by [assign_top_contributor_roles]: the role is
    removed from every member that holds it, then added to every entry of
    the first three that resolves to a member. *)
Lemma assign_top_contributor_roles_ops guild user_stats :
  (assign_top_contributor_roles guild user_stats).2
  = (((fun i => RemoveRoles i top_role)
        <$> filter (fun i => has_role guild i top_role = true) (member_ids guild))
     ++ ((fun entry => AddRoles (discord_id entry) top_role)
           <$> filter (fun entry => is_Some (members guild !! discord_id entry))
                 (take 3 user_stats)))%list.
Proof.
  unfold assign_top_contributor_roles.
  rewrite grant_all_ops, strip_all_ops by apply member_ids_NoDup. simpl.
  rewrite get_or_create_role_member_ids. f_equal.
  - f_equal. apply filter_ext_elem_of. intros i _.
    by rewrite get_or_create_role_has_role.
  - f_equal. apply filter_ext_elem_of. intros entry _.
    rewrite strip_all_members. simpl. rewrite get_or_create_role_members.
    case_decide; [|done]. by rewrite fmap_is_Some.
Qed.

Lemma top_effect_roles user_stats i m r :
  r ∈ member_roles (top_effect user_stats i m)
  <-> if decide (r = top_role) then i ∈ discord_id <$> take 3 user_stats
      else r ∈ member_roles m.
Proof.
  unfold top_effect. simpl. case_bool_decide as Hin.
  - rewrite elem_of_with_role, elem_of_without_role.
    case_decide; [tauto|]. tauto.
  - rewrite elem_of_without_role. case_decide; [|tauto]. subst. tauto.
Qed.

Lemma top_effect_display_name user_stats i m :
  display_name (top_effect user_stats i m) = display_name m.
Proof. unfold top_effect. simpl. by case_bool_decide. Qed.

Lemma assign_top_contributor_roles_has_role guild user_stats i r :
  has_role (assign_top_contributor_roles guild user_stats).1 i r = true
  <-> if decide (r = top_role)
      then is_Some (members guild !! i) /\ i ∈ discord_id <$> take 3 user_stats
      else has_role guild i r = true.
Proof.
  rewrite !has_role_true. setoid_rewrite assign_top_contributor_roles_members.
  destruct (members guild !! i) as [m|] eqn:Hm; simpl.
  - split.
    + intros (m' & [= <-] & Hr). apply top_effect_roles in Hr.
      case_decide; [by eauto|]. rewrite has_role_true. eauto.
    + intros H. eexists. split; [done|]. apply top_effect_roles.
      case_decide; [tauto|]. apply has_role_true in H as (m' & Hm' & Hr).
      by simplify_eq.
  - split; [by intros (m' & ? & _)|].
    case_decide; [by intros [[? ?] _]|].
    rewrite has_role_true. intros (m' & Hm' & _). by rewrite Hm in Hm'.
Qed.

End TopRole.

(** [monthly_leaderboard] replaces the top role exactly as
    [assign_top_contributor_roles] does, on the same ranking. *)
Lemma monthly_leaderboard_roles (api : Remote) (clock : Clock)
    (links_file : option (list (Z * string))) (guild : Guild) (channel : Channel) :
  truthy (fetch_all_user_stats api clock links_file) = true ->
  (monthly_leaderboard api clock links_file (Some guild) (Some channel)).1
  = Some (assign_top_contributor_roles guild
            (sort_reverse stars_key (fetch_all_user_stats api clock links_file))).
Proof. intros H. unfold monthly_leaderboard. by rewrite H. Qed.

(** C6, as the code has it.  Reconciling the top role is a full replace:
    [assign_top_contributor_roles] requests the removal of the role from
    every member that holds it (also from holders that are in the new top
    3), then requests its addition for every entry of the new top 3 that
    resolves to a member (also for those that held it).  The net change of
    membership is the minimal delta: afterwards the holders are exactly the
    members among the new top 3, so a holder loses the role if and only if
    it is not in the new top 3, and a member without it gains it if and
    only if it is in the new top 3; no other role is changed. *)
Theorem top_role_full_replace (guild : Guild) (user_stats : list UserStats) :
  let run := assign_top_contributor_roles guild user_stats in
  let top3 := discord_id <$> take 3 user_stats in
  run.2 = (((fun i => RemoveRoles i top_role)
              <$> filter (fun i => has_role guild i top_role = true)
                    (member_ids guild))
           ++ ((fun entry => AddRoles (discord_id entry) top_role)
                 <$> filter (fun entry => is_Some (members guild !! discord_id entry))
                       (take 3 user_stats)))%list
  /\ (forall i, RemoveRoles i top_role ∈ run.2 <-> has_role guild i top_role = true)
  /\ (forall i, AddRoles i top_role ∈ run.2
                <-> is_Some (members guild !! i) /\ i ∈ top3)
  /\ (forall i, has_role run.1 i top_role = true
                <-> is_Some (members guild !! i) /\ i ∈ top3)
  /\ (forall i, has_role guild i top_role = true ->
                (has_role run.1 i top_role = false <-> i ∉ top3))
  /\ (forall i, has_role guild i top_role = false ->
                (has_role run.1 i top_role = true
                 <-> is_Some (members guild !! i) /\ i ∈ top3))
  /\ (forall i role, role <> top_role ->
                     has_role run.1 i role = has_role guild i role).
Proof.
  cbv zeta.
  assert (Hafter : forall i, has_role (assign_top_contributor_roles guild user_stats).1
                               i top_role = true
                             <-> is_Some (members guild !! i)
                                 /\ i ∈ discord_id <$> take 3 user_stats).
  { intros i. rewrite assign_top_contributor_roles_has_role.
    by rewrite decide_True. }
  split; [apply assign_top_contributor_roles_ops|].
  split; [|split; [|split; [exact Hafter|split; [|split]]]].
  - intros i. rewrite assign_top_contributor_roles_ops, elem_of_app.
    rewrite !list_elem_of_fmap. split.
    + intros [(j & [= ->] & Hj)|(entry & [=] & _)].
      by apply list_elem_of_filter in Hj as [Hj _].
    + intros Hi. left. exists i. split; [done|].
      apply list_elem_of_filter. split; [done|].
      apply member_ids_elem_of. apply has_role_true in Hi as (m & -> & _). eauto.
  - intros i. rewrite assign_top_contributor_roles_ops, elem_of_app.
    rewrite !list_elem_of_fmap. split.
    + intros [(j & [=] & _)|(entry & [= ->] & Hentry)].
      apply list_elem_of_filter in Hentry as [Hpresent Hin].
      split; [done|]. by exists entry.
    + intros [Hpresent (entry & -> & Hin)]. right.
      exists entry. split; [done|]. by apply list_elem_of_filter.
  - intros i Hheld. rewrite <- not_true_iff_false, Hafter. split.
    + intros Hnot Hin. apply Hnot. split; [|done].
      apply has_role_true in Hheld as (m & -> & _). eauto.
    + intros Hnot [_ Hin]. done.
  - intros i _. apply Hafter.
  - intros i role Hne.
    apply eq_true_iff_eq. rewrite assign_top_contributor_roles_has_role.
    by rewrite decide_False.
Qed.

(** C6 as stated fails: alice (1001) holds the top role and is in the new
    top 3, and the role is removed from her all the same, then added
    again. *)
Lemma minimal_delta_as_stated_fails :
  let ranked := sort_reverse stars_key demo_user_stats in
  has_role demo_guild 1001 top_role = true
  /\ 1001 ∈ discord_id <$> take 3 ranked
  /\ (assign_top_contributor_roles demo_guild ranked).2
     = [RemoveRoles 1001 top_role; RemoveRoles 1004 top_role;
        AddRoles 1002 top_role; AddRoles 1001 top_role]
  /\ RemoveRoles 1001 top_role ∈ (assign_top_contributor_roles demo_guild ranked).2
  /\ AddRoles 1001 top_role ∈ (assign_top_contributor_roles demo_guild ranked).2.
Proof.
  cbv zeta.
  assert (Hops : (assign_top_contributor_roles demo_guild
                    (sort_reverse stars_key demo_user_stats)).2
     = [RemoveRoles 1001 top_role; RemoveRoles 1004 top_role;
        AddRoles 1002 top_role; AddRoles 1001 top_role]) by (vm_compute; reflexivity).
  split; [vm_compute; reflexivity|].
  split; [apply (bool_decide_unpack _); vm_compute; exact I|].
  split; [exact Hops|].
  rewrite Hops. split; apply (bool_decide_unpack _); vm_compute; exact I.
Qed.

Section OpenSourceRole.
Implicit Types (guild : Guild) (st : RoleState) (m : Member) (i : Z)
  (entry : UserStats) (user_stats : list UserStats).

Lemma top_role_neq_os_role : top_role <> os_role.
Proof. discriminate. Qed.


Lemma open_source_step_members st entry i :
  members (open_source_step st entry).1 !! i
  = (fun m => open_source_effect i m entry) <$> members st.1 !! i.
Proof.
  unfold open_source_step, open_source_effect.
  destruct (members st.1 !! discord_id entry) as [m|] eqn:Hm.
  - destruct (meets_criteria (stats_of entry)); case_bool_decide as Hr; simpl;
      rewrite ?lookup_alter; repeat case_decide; subst;
      rewrite ?Hm; simpl;
      rewrite ?bool_decide_eq_true_2 by done; try done;
      try (by destruct (members st.1 !! i)).
    + by rewrite with_role_present.
    + by rewrite without_role_absent.
  - case_bool_decide; subst; [by rewrite Hm|].
    by destruct (members st.1 !! i).
Qed.

Lemma open_source_step_frame st entry :
  roles (open_source_step st entry).1 = roles st.1
  /\ text_channels (open_source_step st entry).1 = text_channels st.1.
Proof.
  unfold open_source_step.
  destruct (members st.1 !! discord_id entry) as [m|]; [|done].
  destruct (meets_criteria _); by case_bool_decide.
Qed.

Lemma open_source_steps_members user_stats st i :
  members (foldl open_source_step st user_stats).1 !! i
  = (fun m => foldl (open_source_effect i) m user_stats) <$> members st.1 !! i.
Proof.
  revert st. induction user_stats as [|entry user_stats IH]; intros st; simpl.
  - by destruct (members st.1 !! i).
  - rewrite IH, open_source_step_members.
    by destruct (members st.1 !! i).
Qed.

Lemma open_source_steps_frame user_stats st :
  roles (foldl open_source_step st user_stats).1 = roles st.1
  /\ text_channels (foldl open_source_step st user_stats).1 = text_channels st.1.
Proof.
  revert st. induction user_stats as [|entry user_stats IH]; intros st; simpl;
    [done|].
  destruct (IH (open_source_step st entry)) as [-> ->].
  apply open_source_step_frame.
Qed.

Lemma assign_open_source_roles_members guild user_stats i :
  members (assign_open_source_roles guild user_stats).1 !! i
  = (fun m => foldl (open_source_effect i) m user_stats) <$> members guild !! i.
Proof.
  unfold assign_open_source_roles. rewrite open_source_steps_members. simpl.
  by rewrite get_or_create_role_members.
Qed.

Lemma open_source_effects_display_name i user_stats m :
  display_name (foldl (open_source_effect i) m user_stats) = display_name m.
Proof.
  revert m. induction user_stats as [|entry user_stats IH]; intros m; simpl;
    [done|].
  rewrite IH. unfold open_source_effect.
  case_bool_decide; [|done]. by destruct (meets_criteria _).
Qed.

(** After the loop, whether a member holds the contributor role is decided
    by the last entry that carries its id; a member no entry names keeps
    what it had.  No other role is touched. *)
Lemma open_source_effects_roles i user_stats m r :
  r ∈ member_roles (foldl (open_source_effect i) m user_stats)
  <-> if decide (r = os_role) then
        match last (filter (fun entry => discord_id entry = i) user_stats) with
        | Some entry => meets_criteria (stats_of entry) = true
        | None => r ∈ member_roles m
        end
      else r ∈ member_roles m.
Proof.
  induction user_stats as [|entry user_stats IH] using rev_ind.
  - simpl. by case_decide.
  - rewrite foldl_app, filter_app. simpl.
    rewrite filter_cons, filter_nil. unfold open_source_effect at 1.
    destruct (decide (discord_id entry = i)) as [Hid|Hid].
    + rewrite bool_decide_eq_true_2 by done. rewrite last_snoc.
      destruct (meets_criteria (stats_of entry)) eqn:Hmeets.
      * rewrite elem_of_with_role, IH. case_decide; [tauto|].
        split; [|tauto]. by intros [?|?].
      * rewrite elem_of_without_role, IH. case_decide; [|tauto].
        split; [tauto|done].
    + rewrite bool_decide_eq_false_2 by done. by rewrite app_nil_r.
Qed.

Lemma filter_absent_key {X} (f : X -> Z) (l : list X) (k : Z) :
  k ∉ f <$> l -> filter (fun y => f y = k) l = [].
Proof.
  induction l as [|y l IH]; intros Hk; [done|].
  rewrite fmap_cons in Hk. apply not_elem_of_cons in Hk as [Hne Hk].
  rewrite filter_cons, decide_False by done. by apply IH.
Qed.

Lemma filter_unique_key {X} (f : X -> Z) (l : list X) (x : X) :
  NoDup (f <$> l) -> x ∈ l -> filter (fun y => f y = f x) l = [x].
Proof.
  induction l as [|y l IH]; intros Hnd Hin; [by apply elem_of_nil in Hin|].
  rewrite fmap_cons in Hnd. apply NoDup_cons in Hnd as [Hy Hnd].
  rewrite filter_cons. apply elem_of_cons in Hin as [->|Hin].
  - rewrite decide_True by done. f_equal. by apply filter_absent_key.
  - rewrite decide_False; [by apply IH|].
    intros Heq. apply Hy. rewrite Heq. by apply list_elem_of_fmap_2.
Qed.

(** With one entry per identity, each resolvable identity ends up holding
    the contributor role exactly when its own stats meet the criteria. *)
Lemma assign_open_source_roles_has_role guild user_stats entry :
  NoDup (discord_id <$> user_stats) ->
  entry ∈ user_stats ->
  is_Some (members guild !! discord_id entry) ->
  has_role (assign_open_source_roles guild user_stats).1 (discord_id entry) os_role
  = meets_criteria (stats_of entry).
Proof.
  intros Hnd Hin [m Hm]. apply eq_true_iff_eq.
  rewrite has_role_true, assign_open_source_roles_members, Hm. simpl. split.
  - intros (m' & [= <-] & Hr). apply open_source_effects_roles in Hr.
    rewrite decide_True in Hr by done.
    by rewrite (filter_unique_key discord_id) in Hr.
  - intros Hmeets. eexists. split; [done|]. apply open_source_effects_roles.
    rewrite decide_True by done.
    by rewrite (filter_unique_key discord_id).
Qed.

End OpenSourceRole.

(** ** The batch of linked users *)

Section Batch.
Variable api : Remote.
Variable clock : Clock.
Implicit Types (links : list (Z * string)) (user_stats : list UserStats).

Lemma dict_set_keys {V} (k : Z) (v : V) (d : list (Z * V)) :
  (dict_set k v d).*1 = if decide (k ∈ d.*1) then d.*1 else (d.*1 ++ [k])%list.
Proof.
  induction d as [|[k' v'] d IH]; [done|].
  cbn [dict_set]. case_bool_decide as Hk; rewrite !fmap_cons; cbn [fst].
  - subst. by rewrite decide_True by (apply elem_of_cons; by left).
  - rewrite IH. destruct (decide (k ∈ d.*1)) as [Hin|Hin].
    + by rewrite decide_True by (apply elem_of_cons; by right).
    + rewrite decide_False; [done|].
      rewrite elem_of_cons. intros [?|?]; [by subst|done].
Qed.

Lemma dict_set_NoDup {V} (k : Z) (v : V) (d : list (Z * V)) :
  NoDup d.*1 -> NoDup (dict_set k v d).*1.
Proof.
  intros Hnd. rewrite dict_set_keys. case_decide as Hin; [done|].
  apply NoDup_app. split; [done|]. split.
  - intros x Hx ->%list_elem_of_singleton. done.
  - apply NoDup_singleton.
Qed.

(** A dictionary has each key once. *)
Lemma load_links_NoDup file : NoDup (load_links file).*1.
Proof.
  destruct file as [data|]; simpl; [|constructor].
  assert (H : forall acc : list (Z * string), NoDup acc.*1 ->
            NoDup (foldl (fun links '(k, v) => dict_set k v links) acc data).*1).
  { induction data as [|[k v] data IH]; intros acc Hacc; simpl; [done|].
    apply IH. by apply dict_set_NoDup. }
  apply H. constructor.
Qed.

Lemma fetch_stats_steps_ids links user_stats :
  discord_id <$> foldl (fetch_stats_step api clock) user_stats links
  = ((discord_id <$> user_stats) ++ links.*1)%list.
Proof.
  revert user_stats. induction links as [|[i u] links IH]; intros user_stats; simpl.
  - by rewrite app_nil_r.
  - rewrite IH. destruct (fetch_user_stats_returns api clock u None) as [stats [-> _]].
    rewrite fmap_app. simpl. by rewrite <- app_assoc.
Qed.

Lemma fetch_stats_steps_elem_of links user_stats x :
  x ∈ foldl (fetch_stats_step api clock) user_stats links
  <-> x ∈ user_stats
      \/ exists i u stats, x = (i, u, stats) /\ (i, u) ∈ links
                           /\ fetch_user_stats api clock u None = Ret stats.
Proof.
  revert user_stats. induction links as [|[i u] links IH]; intros user_stats; simpl.
  - split; [by left|]. intros [?|(i & u & stats & _ & Hin & _)]; [done|].
    by apply elem_of_nil in Hin.
  - rewrite IH. destruct (fetch_user_stats_returns api clock u None) as [stats [Hstats _]].
    rewrite Hstats, elem_of_app, list_elem_of_singleton. split.
    + intros [[?| ->]|(i' & u' & stats' & -> & Hin & H')]; [by left|..].
      * right. exists i, u, stats. split; [done|]. split; [|done].
        apply elem_of_cons. by left.
      * right. exists i', u', stats'. split; [done|]. split; [|done].
        apply elem_of_cons. by right.
    + intros [?|(i' & u' & stats' & -> & Hin & H')]; [by left; left|].
      apply elem_of_cons in Hin as [[= -> ->]|Hin].
      * left. right. congruence.
      * right. by exists i', u', stats'.
Qed.

(** The batch has one entry per link, in the order of the links. *)
Lemma fetch_all_user_stats_ids file :
  discord_id <$> fetch_all_user_stats api clock file = (load_links file).*1.
Proof. unfold fetch_all_user_stats. by rewrite fetch_stats_steps_ids. Qed.

Lemma fetch_all_user_stats_elem_of file i u stats :
  (i, u, stats) ∈ fetch_all_user_stats api clock file
  <-> (i, u) ∈ load_links file /\ fetch_user_stats api clock u None = Ret stats.
Proof.
  unfold fetch_all_user_stats. rewrite fetch_stats_steps_elem_of. split.
  - intros [Hnil|(i' & u' & stats' & [= -> -> ->] & Hin & H)]; [|done].
    by apply elem_of_nil in Hnil.
  - intros [Hin H]. right. by exists i, u, stats.
Qed.

Lemma ranked_ids_NoDup file :
  NoDup (discord_id <$> sort_reverse stars_key (fetch_all_user_stats api clock file)).
Proof.
  rewrite sort_reverse_perm, fetch_all_user_stats_ids. apply load_links_NoDup.
Qed.

Lemma ranked_elem_of file i u stats :
  (i, u, stats) ∈ sort_reverse stars_key (fetch_all_user_stats api clock file)
  <-> (i, u) ∈ load_links file /\ fetch_user_stats api clock u None = Ret stats.
Proof. by rewrite sort_reverse_elem_of, fetch_all_user_stats_elem_of. Qed.

(** A run of [update_github_roles] on a guild ends in the guild that the
    two role assignments leave, on the ranked batch. *)
Lemma update_github_roles_run file guild :
  exists run,
    update_github_roles api clock file (Some guild) = Some run
    /\ run_guild run
       = reconcile_roles
           (sort_reverse stars_key (fetch_all_user_stats api clock file)) guild
    /\ run_ops run
       = ((assign_top_contributor_roles guild
             (sort_reverse stars_key (fetch_all_user_stats api clock file))).2
          ++ (assign_open_source_roles
                (assign_top_contributor_roles guild
                   (sort_reverse stars_key (fetch_all_user_stats api clock file))).1
                (sort_reverse stars_key (fetch_all_user_stats api clock file))).2)%list.
Proof.
  unfold update_github_roles, reconcile_roles.
  destruct (assign_top_contributor_roles _ _) as [guild1 ops1]. simpl.
  destruct (assign_open_source_roles _ _) as [guild2 ops2]. simpl.
  eexists. split; [done|]. by simpl.
Qed.

End Batch.

(** ** Both role assignments together *)

Section Reconcile.
Implicit Types (guild : Guild) (m : Member) (i : Z) (user_stats : list UserStats).

Lemma guild_eq guild1 guild2 :
  roles guild1 = roles guild2 ->
  text_channels guild1 = text_channels guild2 ->
  (forall i, members guild1 !! i = members guild2 !! i) ->
  guild1 = guild2.
Proof.
  destruct guild1, guild2. simpl. intros -> -> H. f_equal. by apply map_eq.
Qed.

Lemma get_or_create_role_roles role guild guild' :
  roles guild = roles guild' ->
  roles (get_or_create_role role guild) = roles (get_or_create_role role guild').
Proof.
  intros H. unfold get_or_create_role. rewrite H.
  case_bool_decide; simpl; by rewrite ?H.
Qed.

Lemma reconcile_roles_roles user_stats guild :
  roles (reconcile_roles user_stats guild)
  = roles (get_or_create_role os_role (get_or_create_role top_role guild)).
Proof.
  unfold reconcile_roles, assign_open_source_roles.
  destruct (open_source_steps_frame user_stats
              (get_or_create_role os_role
                 (assign_top_contributor_roles guild user_stats).1, [])) as [-> _].
  simpl. apply get_or_create_role_roles.
  apply assign_top_contributor_roles_frame.
Qed.

Lemma reconcile_roles_text_channels user_stats guild :
  text_channels (reconcile_roles user_stats guild) = text_channels guild.
Proof.
  unfold reconcile_roles, assign_open_source_roles.
  destruct (open_source_steps_frame user_stats
              (get_or_create_role os_role
                 (assign_top_contributor_roles guild user_stats).1, [])) as [_ ->].
  simpl. rewrite get_or_create_role_text_channels.
  apply assign_top_contributor_roles_frame.
Qed.

Lemma reconcile_roles_members user_stats guild i :
  members (reconcile_roles user_stats guild) !! i
  = (fun m => foldl (open_source_effect i) (top_effect user_stats i m) user_stats)
      <$> members guild !! i.
Proof.
  unfold reconcile_roles.
  rewrite assign_open_source_roles_members, assign_top_contributor_roles_members.
  by destruct (members guild !! i).
Qed.

(** The roles of one member after both assignments. *)
Lemma reconciled_member_roles user_stats i m r :
  r ∈ member_roles (foldl (open_source_effect i) (top_effect user_stats i m) user_stats)
  <-> if decide (r = os_role) then
        match last (filter (fun entry => discord_id entry = i) user_stats) with
        | Some entry => meets_criteria (stats_of entry) = true
        | None => r ∈ member_roles m
        end
      else if decide (r = top_role) then i ∈ discord_id <$> take 3 user_stats
      else r ∈ member_roles m.
Proof.
  rewrite open_source_effects_roles.
  destruct (decide (r = os_role)) as [->|Hos].
  - destruct (last _); [done|]. rewrite top_effect_roles.
    by rewrite decide_False by (intros H; by apply top_role_neq_os_role).
  - apply top_effect_roles.
Qed.

Lemma reconciled_member_idem user_stats i m :
  foldl (open_source_effect i)
    (top_effect user_stats i
       (foldl (open_source_effect i) (top_effect user_stats i m) user_stats))
    user_stats
  = foldl (open_source_effect i) (top_effect user_stats i m) user_stats.
Proof.
  apply member_eq.
  - repeat first [ rewrite open_source_effects_display_name
                 | rewrite top_effect_display_name ].
    done.
  - intros r. rewrite (reconciled_member_roles user_stats i _ r).
    rewrite (reconciled_member_roles user_stats i m r).
    destruct (decide (r = os_role)) as [->|Hos].
    + destruct (last _) eqn:Hlast; [done|].
      rewrite (reconciled_member_roles user_stats i m os_role).
      by rewrite decide_True, Hlast by done.
    + destruct (decide (r = top_role)) as [->|Htop]; [done|].
      rewrite (reconciled_member_roles user_stats i m r).
      by rewrite !decide_False by done.
Qed.

Lemma reconcile_roles_idem user_stats guild :
  reconcile_roles user_stats (reconcile_roles user_stats guild)
  = reconcile_roles user_stats guild.
Proof.
  apply guild_eq.
  - rewrite reconcile_roles_roles.
    rewrite !get_or_create_role_present; [done|..].
    + rewrite reconcile_roles_roles. apply get_or_create_role_mono.
      apply get_or_create_role_elem_of.
    + rewrite get_or_create_role_present.
      * rewrite reconcile_roles_roles. apply get_or_create_role_elem_of.
      * rewrite reconcile_roles_roles. apply get_or_create_role_mono.
        apply get_or_create_role_elem_of.
  - by rewrite !reconcile_roles_text_channels.
  - intros i. rewrite !reconcile_roles_members.
    destruct (members guild !! i) as [m|]; simpl; [|done].
    f_equal. apply reconciled_member_idem.
Qed.

Lemma reconcile_roles_has_role user_stats guild i r :
  has_role (reconcile_roles user_stats guild) i r = true
  <-> exists m, members guild !! i = Some m
      /\ r ∈ member_roles
               (foldl (open_source_effect i) (top_effect user_stats i m) user_stats).
Proof.
  rewrite has_role_true, reconcile_roles_members.
  destruct (members guild !! i) as [m|]; simpl.
  - split.
    + intros (m' & [= <-] & H). eauto.
    + intros (m' & [= <-] & H). eauto.
  - split; by intros (m' & ? & _).
Qed.

End Reconcile.



(** C8. Role reconciliation is idempotent: running both role assignments a
    second time on the guild the first run left, with the same stats, gives
    the same guild, members and role memberships included.  So does a
    second run of [update_github_roles] when the stats fetched have not
    changed. *)
Theorem reconciliation_idempotent (user_stats : list UserStats) (guild : Guild) :
  reconcile_roles user_stats (reconcile_roles user_stats guild)
  = reconcile_roles user_stats guild
  /\ (forall i role,
        has_role (reconcile_roles user_stats (reconcile_roles user_stats guild)) i role
        = has_role (reconcile_roles user_stats guild) i role)
  /\ (forall api clock links_file,
        exists run1 run2,
          update_github_roles api clock links_file (Some guild) = Some run1
          /\ update_github_roles api clock links_file (Some (run_guild run1))
             = Some run2
          /\ run_guild run2 = run_guild run1).
Proof.
  split; [apply reconcile_roles_idem|].
  split; [intros i role; by rewrite reconcile_roles_idem|].
  intros api clock links_file.
  destruct (update_github_roles_run api clock links_file guild)
    as (run1 & Hrun1 & Hguild1 & _).
  destruct (update_github_roles_run api clock links_file (run_guild run1))
    as (run2 & Hrun2 & Hguild2 & _).
  exists run1, run2. split; [done|]. split; [done|].
  rewrite Hguild2, Hguild1. apply reconcile_roles_idem.
Qed.

(** ** Error records in the batch *)

Section ErrorRecords.
Implicit Types (guild : Guild) (st : RoleState) (i : Z) (entry : UserStats)
  (user_stats : list UserStats).

(** The contributor loop leaves every other role alone. *)
Lemma assign_open_source_roles_other_role guild user_stats i r :
  r <> os_role ->
  has_role (assign_open_source_roles guild user_stats).1 i r = has_role guild i r.
Proof.
  intros Hne. apply eq_true_iff_eq.
  rewrite !has_role_true, assign_open_source_roles_members.
  destruct (members guild !! i) as [m|]; simpl.
  - split.
    + intros (m' & [= <-] & Hr). apply open_source_effects_roles in Hr.
      rewrite decide_False in Hr by done. eauto.
    + intros (m' & [= <-] & Hr). eexists. split; [done|].
      apply open_source_effects_roles. by rewrite decide_False.
  - split; by intros (m' & ? & _).
Qed.

Lemma open_source_step_ops_mono st entry (op : RoleOp) :
  op ∈ st.2 -> op ∈ (open_source_step st entry).2.
Proof.
  intros Hop. unfold open_source_step.
  destruct (members st.1 !! discord_id entry) as [m|]; [|done].
  destruct (meets_criteria _); case_bool_decide; simpl; try done;
    apply elem_of_app; by left.
Qed.

Lemma open_source_steps_ops_mono user_stats st (op : RoleOp) :
  op ∈ st.2 -> op ∈ (foldl open_source_step st user_stats).2.
Proof.
  revert st. induction user_stats as [|entry user_stats IH]; intros st Hop;
    simpl; [done|].
  apply IH. by apply open_source_step_ops_mono.
Qed.

(** A holder whose entry does not meet the criteria gets a removal. *)
Lemma open_source_steps_removes user_stats st entry :
  NoDup (discord_id <$> user_stats) ->
  entry ∈ user_stats ->
  has_role st.1 (discord_id entry) os_role = true ->
  meets_criteria (stats_of entry) = false ->
  RemoveRoles (discord_id entry) os_role ∈ (foldl open_source_step st user_stats).2.
Proof.
  revert st. induction user_stats as [|first user_stats IH];
    intros st Hnd Hin Hheld Hmeets; [by apply elem_of_nil in Hin|].
  rewrite fmap_cons in Hnd. apply NoDup_cons in Hnd as [Hfirst Hnd]. simpl.
  apply elem_of_cons in Hin as [->|Hin].
  - apply open_source_steps_ops_mono. unfold open_source_step.
    apply has_role_true in Hheld as (m & -> & Hr).
    rewrite Hmeets, bool_decide_eq_true_2 by done. simpl.
    apply elem_of_app. right. by apply list_elem_of_singleton.
  - apply IH; [done..| |done].
    apply has_role_true in Hheld as (m & Hm & Hr). apply has_role_true.
    exists m. split; [|done].
    rewrite open_source_step_members, Hm. simpl. unfold open_source_effect.
    rewrite bool_decide_eq_false_2; [done|].
    intros Heq. apply Hfirst. rewrite Heq. by apply list_elem_of_fmap_2.
Qed.

Lemma filter_none {X} (P : X -> Prop) `{!forall x, Decision (P x)} (l : list X) :
  Forall (fun x => ~ P x) l -> filter P l = [].
Proof.
  induction 1 as [|x l Hx _ IH]; [done|].
  by rewrite filter_cons, decide_False.
Qed.

(** In a ranked list with one entry per identity, an entry without stars
    is not among the first three when three entries have stars. *)
Lemma zero_stars_not_in_top3 user_stats entry :
  StronglySorted (fun a b => stars_key b <= stars_key a) user_stats ->
  NoDup (discord_id <$> user_stats) ->
  entry ∈ user_stats ->
  stars_key entry <= 0 ->
  (3 <= List.length (filter (fun x => (0 < stars_key x)%Z) user_stats))%nat ->
  discord_id entry ∉ discord_id <$> take 3 user_stats.
Proof.
  intros Hsorted Hnd Hin Hzero Hthree.
  apply list_elem_of_split in Hin as (l1 & l2 & ->).
  apply StronglySorted_app in Hsorted as (_ & _ & Hsorted).
  apply StronglySorted_cons in Hsorted as [Hbelow _].
  rewrite filter_app in Hthree.
  rewrite (filter_none _ (entry :: l2)) in Hthree.
  2:{ constructor; [lia|]. eapply Forall_impl; [exact Hbelow|].
      simpl. intros x Hx. lia. }
  rewrite app_nil_r in Hthree.
  pose proof (length_filter (fun x => 0 < stars_key x) l1) as Hlen.
  rewrite take_app_le by lia.
  rewrite fmap_app in Hnd. apply NoDup_app in Hnd as (_ & Hdisjoint & _).
  intros (x & Hid & Hx)%list_elem_of_fmap.
  apply elem_of_take in Hx as (k & Hk & _).
  apply (Hdisjoint (discord_id entry)).
  - rewrite Hid. apply list_elem_of_fmap_2. by eapply list_elem_of_lookup_2.
  - rewrite fmap_cons. apply elem_of_cons. by left.
Qed.

End ErrorRecords.

(** ** The text of the leaderboards *)

Section LeaderboardText.
Variable api : Remote.
Variable clock : Clock.
Implicit Types (guild : Guild) (user_stats : list UserStats)
  (links_file : option (list (Z * string))).

Lemma append_nonempty_l (a b : string) : a <> "" -> a +:+ b <> "".
Proof. by destruct a. Qed.

Lemma append_nonempty_r (a b : string) : b <> "" -> a +:+ b <> "".
Proof. intros Hb. induction a as [|c a IH]; [done|]. simpl. discriminate. Qed.

Lemma join_lines_nonempty (lines : list string) (text : string) :
  text <> "" \/ (lines <> [] /\ Forall (fun line => line <> "") lines) ->
  foldl (fun text line => text +:+ line) text lines <> "".
Proof.
  revert text. induction lines as [|line lines IH]; intros text Hne.
  - simpl. by destruct Hne as [?|[? _]].
  - cbn [foldl]. apply IH. left. destruct Hne as [Htext|[_ Hlines]].
    + by apply append_nonempty_l.
    + apply append_nonempty_r. by inversion Hlines.
Qed.

Lemma stars_repos_line_nonempty (guild : option Guild) i entry :
  stars_repos_line guild i entry <> "".
Proof. unfold stars_repos_line. by apply append_nonempty_r. Qed.

Lemma stars_line_nonempty (guild : option Guild) i entry :
  stars_line guild i entry <> "".
Proof. unfold stars_line. by apply append_nonempty_r. Qed.

Lemma leaderboard_text_truthy (line : nat -> UserStats -> string) user_stats :
  (forall i entry, line i entry <> "") ->
  str_truthy (leaderboard_text (imap line user_stats))
  = truthy user_stats.
Proof.
  intros Hline. destruct user_stats as [|entry user_stats]; [done|].
  unfold str_truthy, leaderboard_text. rewrite bool_decide_eq_false_2; [done|].
  apply join_lines_nonempty. right. split; [done|].
  apply Forall_forall. intros x (i & y & -> & _)%elem_of_lookup_imap.
  apply Hline.
Qed.

Lemma fetch_all_user_stats_truthy links_file :
  truthy (fetch_all_user_stats api clock links_file)
  = truthy (load_links links_file).
Proof.
  pose proof (fetch_all_user_stats_ids api clock links_file) as Hids.
  destruct (fetch_all_user_stats api clock links_file),
    (load_links links_file); done.
Qed.

Lemma ranked_truthy links_file :
  truthy (sort_reverse stars_key (fetch_all_user_stats api clock links_file))
  = truthy (load_links links_file).
Proof.
  rewrite <- fetch_all_user_stats_truthy.
  pose proof (sort_reverse_length stars_key
                (fetch_all_user_stats api clock links_file)) as Hlen.
  destruct (sort_reverse _ _), (fetch_all_user_stats _ _ _); done.
Qed.

Lemma truthy_false {X} (l : list X) : truthy l = false <-> l = [].
Proof. by destruct l. Qed.

End LeaderboardText.

Lemma update_github_roles_post (api : Remote) (clock : Clock)
    (links_file : option (list (Z * string))) (guild : Guild) :
  exists run,
    update_github_roles api clock links_file (Some guild) = Some run
    /\ run_guild run
       = reconcile_roles
           (sort_reverse stars_key (fetch_all_user_stats api clock links_file)) guild
    /\ run_post run
       = post_daily_leaderboard (run_guild run)
           (sort_reverse stars_key (fetch_all_user_stats api clock links_file)).
Proof.
  unfold update_github_roles, reconcile_roles.
  destruct (assign_top_contributor_roles _ _) as [guild1 ops1]. simpl.
  destruct (assign_open_source_roles _ _) as [guild2 ops2]. simpl.
  eexists. split; [done|]. by simpl.
Qed.

(** C5. Ranking is a stable descending sort by [total_stars].  The batch
    holds the linked identities in link-insertion order; the ranked list is
    a permutation of it, no later entry has more stars than an earlier
    one, and the entries of any one star count keep their input order (the
    key is the star count alone) - which determines the ranked list.  Role
    assignment takes the first 3 entries of the ranked list: after
    [assign_top_contributor_roles], and after a whole run, the holders of
    the top role are the members among them and no one else.  The daily
    leaderboard shows the lines of the first 10 entries, the weekly one
    posts the lines of the first 10 and the monthly one those of the first
    15, each in ranked order.  A(10), B(50), C(50) in this order rank as
    B, C, A. *)
Theorem ranking_is_stable_descending (user_stats : list UserStats) :
  let ranked := sort_reverse stars_key user_stats in
  ranked ≡ₚ user_stats
  /\ StronglySorted (fun a b => stars_key b <= stars_key a) ranked
  /\ (forall v, filter (fun x => stars_key x = v) ranked
                = filter (fun x => stars_key x = v) user_stats)
  /\ (forall s,
        StronglySorted (fun a b => stars_key b <= stars_key a) s ->
        (forall v, filter (fun x => stars_key x = v) s
                   = filter (fun x => stars_key x = v) user_stats) ->
        s = ranked)
  /\ (forall api clock links_file,
        discord_id <$> fetch_all_user_stats api clock links_file
        = (load_links links_file).*1)
  /\ (forall guild i,
        has_role (assign_top_contributor_roles guild ranked).1 i top_role = true
        <-> is_Some (members guild !! i) /\ i ∈ discord_id <$> take 3 ranked)
  /\ (forall guild,
        "general" ∈ text_channels guild ->
        ranked <> [] ->
        post_daily_leaderboard guild ranked
        = Some ("general",
                {| title := "🏆 Daily GitHub Leaderboard";
                   description := "Top contributors based on GitHub stars";
                   color := Color_blue;
                   fields :=
                     [{| name := "Top Contributors";
                         value := leaderboard_text
                                    (imap (stars_repos_line (Some guild))
                                       (take 10 ranked));
                         inline := false |}];
                   footer := "" |}))
  /\ (forall api clock links_file guild,
        let batch :=
          sort_reverse stars_key (fetch_all_user_stats api clock links_file) in
        exists run,
          update_github_roles api clock links_file (Some guild) = Some run
          /\ (forall i,
                has_role (run_guild run) i top_role = true
                <-> is_Some (members guild !! i) /\ i ∈ discord_id <$> take 3 batch)
          /\ run_post run = post_daily_leaderboard (run_guild run) batch)
  /\ (forall api clock links_file guild channel,
        load_links links_file <> [] ->
        let batch :=
          sort_reverse stars_key (fetch_all_user_stats api clock links_file) in
        weekly_leaderboard api clock links_file guild (Some channel)
        = Some (channel
                ++ [{| title := "🏆 Weekly GitHub Leaderboard";
                       description := "Top contributors this week";
                       color := Color_gold;
                       fields :=
                         [{| name := "🏆 Rankings";
                             value := leaderboard_text
                                        (imap (stars_line guild) (take 10 batch));
                             inline := false |}];
                       footer := "" |}])%list)
  /\ (forall api clock links_file guild channel,
        load_links links_file <> [] ->
        let batch :=
          sort_reverse stars_key (fetch_all_user_stats api clock links_file) in
        let replaced := (fun g => assign_top_contributor_roles g batch) <$> guild in
        monthly_leaderboard api clock links_file guild (Some channel)
        = (replaced,
           Some (channel
                 ++ [{| title := "🎉 Monthly GitHub Champions";
                        description :=
                          "Congratulations to this month's top contributors!";
                        color := Color_gold;
                        fields :=
                          [{| name := "🏆 Rankings";
                              value := leaderboard_text
                                         (imap (stars_line (fst <$> replaced))
                                            (take 15 batch));
                              inline := false |}];
                        footer := "" |}])%list))
  /\ github_username <$> sort_reverse stars_key demo_user_stats = ["B"; "C"; "A"].
Proof.
  cbv zeta. split; [apply sort_reverse_perm|].
  split; [apply sort_reverse_sorted|].
  split; [intros v; apply sort_reverse_stable|].
  split; [intros s Hs Hstable; by apply sort_reverse_unique|].
  split; [intros api clock links_file; apply fetch_all_user_stats_ids|].
  split.
  { intros guild i. rewrite assign_top_contributor_roles_has_role.
    by destruct (decide (top_role = top_role)). }
  split.
  { intros guild Hgeneral Hranked. unfold post_daily_leaderboard.
    rewrite bool_decide_eq_true_2 by done.
    rewrite leaderboard_text_truthy by (intros; apply stars_repos_line_nonempty).
    by destruct (sort_reverse stars_key user_stats). }
  split.
  { intros api clock links_file guild.
    destruct (update_github_roles_post api clock links_file guild)
      as (run & Hrun & Hguild & Hpost).
    exists run. split; [done|]. split; [|done].
    intros i. rewrite Hguild. unfold reconcile_roles.
    rewrite assign_open_source_roles_other_role by apply top_role_neq_os_role.
    rewrite assign_top_contributor_roles_has_role.
    by destruct (decide (top_role = top_role)). }
  split.
  { intros api clock links_file guild channel Hlinks. unfold weekly_leaderboard.
    rewrite fetch_all_user_stats_truthy.
    by destruct (load_links links_file). }
  split.
  { intros api clock links_file guild channel Hlinks. unfold monthly_leaderboard.
    rewrite fetch_all_user_stats_truthy.
    destruct (load_links links_file); [done|]. cbn [truthy negb].
    by destruct guild. }
  reflexivity.
Qed.

(** C10, as the code has it.  A linked identity whose [fetch_user_stats]
    result is an error record stays in the batch and counts with 0 stars
    and 0 repositories: every entry with positive stars is ranked before
    it, and after the run it does not hold the contributor role (a removal
    is requested if it held it).  It is kept out of the top role when at
    least three linked identities have positive stars. *)
Theorem error_record_ranks_as_zero (api : Remote) (clock : Clock)
    (links_file : option (list (Z * string))) (guild : Guild)
    (i : Z) (u e : string) :
  (i, u) ∈ load_links links_file ->
  fetch_user_stats api clock u None = Ret (ErrorStats u e) ->
  let ranked := sort_reverse stars_key (fetch_all_user_stats api clock links_file) in
  exists run,
    update_github_roles api clock links_file (Some guild) = Some run
    /\ (i, u, ErrorStats u e) ∈ ranked
    /\ stars_key (i, u, ErrorStats u e) = 0
    /\ get_total_repos (ErrorStats u e) = 0%nat
    /\ (forall k j entry,
          ranked !! k = Some (i, u, ErrorStats u e) ->
          ranked !! j = Some entry ->
          0 < stars_key entry -> (j < k)%nat)
    /\ ((3 <= List.length (filter (fun x => (0 < stars_key x)%Z) ranked))%nat ->
        has_role (run_guild run) i top_role = false)
    /\ has_role (run_guild run) i os_role = false
    /\ (has_role guild i os_role = true -> RemoveRoles i os_role ∈ run_ops run).
Proof.
  intros Hlink Hstats. cbv zeta.
  destruct (update_github_roles_run api clock links_file guild)
    as (run & Hrun & Hguild & Hops).
  set (ranked := sort_reverse stars_key (fetch_all_user_stats api clock links_file))
    in *.
  assert (Hin : (i, u, ErrorStats u e) ∈ ranked) by (by apply ranked_elem_of).
  assert (Hnd : NoDup (discord_id <$> ranked)) by apply ranked_ids_NoDup.
  exists run. split; [done|]. split; [done|]. split; [done|]. split; [done|].
  split; [|split; [|split]].
  - intros k j entry Hk Hj Hpos.
    destruct (decide (j < k)%nat) as [|Hge]; [done|]. exfalso.
    destruct (decide (j = k)) as [Heq|Hne].
    + subst j. pose proof (eq_trans (eq_sym Hk) Hj) as Heq.
      injection Heq as <-. unfold stars_key in Hpos. simpl in Hpos. lia.
    + assert (stars_key entry <= stars_key (i, u, ErrorStats u e)) as Hle.
      { eapply (sort_reverse_lookup_le stars_key); [exact Hk|exact Hj|lia]. }
      unfold stars_key at 2 in Hle. simpl in Hle. lia.
  - intros Hthree. apply not_true_is_false. rewrite Hguild.
    unfold reconcile_roles.
    rewrite assign_open_source_roles_other_role by apply top_role_neq_os_role.
    rewrite assign_top_contributor_roles_has_role, decide_True by done.
    intros [_ Htop].
    apply (zero_stars_not_in_top3 ranked (i, u, ErrorStats u e)); try done.
    apply sort_reverse_sorted.
  - rewrite Hguild. unfold reconcile_roles.
    destruct (members guild !! i) as [m|] eqn:Hm.
    + change i with (discord_id (i, u, ErrorStats u e)).
      rewrite assign_open_source_roles_has_role; [done|done|done|].
      rewrite assign_top_contributor_roles_members. apply fmap_is_Some.
      exists m. exact Hm.
    + unfold has_role.
      by rewrite assign_open_source_roles_members,
        assign_top_contributor_roles_members, Hm.
  - intros Hheld. rewrite Hops. apply elem_of_app. right.
    unfold assign_open_source_roles.
    change i with (discord_id (i, u, ErrorStats u e)).
    apply open_source_steps_removes; [done|done| |done].
    simpl. rewrite get_or_create_role_has_role.
    apply eq_true_iff_eq.
    rewrite assign_top_contributor_roles_has_role.
    rewrite decide_False by (intros H; by apply top_role_neq_os_role).
    done.
Qed.

Lemma error_record_ranks_as_zero_witness :
  let links_file := Some [(1001, "octocat"); (1002, "ghost")] in
  let ranked :=
    sort_reverse stars_key (fetch_all_user_stats demo_api demo_clock links_file) in
  let ghost := (1002, "ghost", ErrorStats "ghost" "User not found") in
  exists run,
    update_github_roles demo_api demo_clock links_file (Some demo_guild) = Some run
    /\ ghost ∈ ranked
    /\ stars_key ghost = 0
    /\ get_total_repos (ErrorStats "ghost" "User not found") = 0%nat
    /\ (forall k j entry,
          ranked !! k = Some ghost -> ranked !! j = Some entry ->
          0 < stars_key entry -> (j < k)%nat)
    /\ ((3 <= List.length (filter (fun x => (0 < stars_key x)%Z) ranked))%nat ->
        has_role (run_guild run) 1002 top_role = false)
    /\ has_role (run_guild run) 1002 os_role = false
    /\ (has_role demo_guild 1002 os_role = true ->
        RemoveRoles 1002 os_role ∈ run_ops run).
Proof.
  apply (error_record_ranks_as_zero demo_api demo_clock
           (Some [(1001, "octocat"); (1002, "ghost")]) demo_guild
           1002 "ghost" "User not found").
  - apply (bool_decide_unpack _). vm_compute. exact I.
  - reflexivity.
Defined.

(** C10 as stated fails on the top role: with "octocat" (52 stars) and
    "ghost" (no such user, so an error record) linked, "ghost" ranks second
    and, being among the first three, receives the top role. *)
Lemma error_record_excluded_as_stated_fails :
  let links_file := Some [(1001, "octocat"); (1002, "ghost")] in
  fetch_user_stats demo_api demo_clock "ghost" None
  = Ret (ErrorStats "ghost" "User not found")
  /\ github_username
       <$> sort_reverse stars_key (fetch_all_user_stats demo_api demo_clock links_file)
     = ["octocat"; "ghost"]
  /\ has_role demo_guild 1002 top_role = false
  /\ exists run,
       update_github_roles demo_api demo_clock links_file (Some demo_guild) = Some run
       /\ has_role (run_guild run) 1002 top_role = true
       /\ AddRoles 1002 top_role ∈ run_ops run.
Proof.
  cbv zeta. split; [reflexivity|]. split; [vm_compute; reflexivity|].
  split; [vm_compute; reflexivity|].
  eexists. split; [reflexivity|].
  split; [vm_compute; reflexivity|].
  apply (bool_decide_unpack _). vm_compute. exact I.
Qed.

(** * Further properties *)

(** ** The fetch client *)

Section FetchClientOutcomes.
Context {A : Type}.
Implicit Types get : nat -> Attempt A.

Lemma retried_0 get : retried get 0%nat.
Proof. intros j Hj. lia. Qed.

Lemma retried_S get i :
  retried get (S i) <-> retried get i /\ exists msg, get i = TransportError msg.
Proof.
  split.
  - intros H. split; [intros j Hj; apply H; lia|apply H; lia].
  - intros [H Hi] j Hj. destruct (decide (j = i)) as [->|]; [done|].
    apply H. lia.
Qed.

(** The outcome of [_make_request], read off the first attempt that is
    not a transport failure. *)
Lemma make_request_outcome get :
  (exists i, (i < max_retries)%nat /\ retried get i
             /\ match get i with
                | Status200 data => _make_request get = Ret (Some data)
                | Status403 | StatusOther _ => _make_request get = Ret None
                | OtherException e => _make_request get = Raise e
                | TransportError _ => False
                end)
  \/ (retried get max_retries /\ _make_request get = Ret None).
Proof.
  unfold _make_request, max_retries. simpl.
  destruct (get 0%nat) as [d0| |s0|m0|e0] eqn:H0;
    try (left; exists 0%nat; rewrite H0; split; [lia|]; split;
         [apply retried_0|done]).
  destruct (get 1%nat) as [d1| |s1|m1|e1] eqn:H1;
    try (left; exists 1%nat; rewrite H1; split; [lia|]; split;
         [apply retried_S; split; [apply retried_0|by eauto]|done]).
  destruct (get 2%nat) as [d2| |s2|m2|e2] eqn:H2;
    try (left; exists 2%nat; rewrite H2; split; [lia|]; split;
         [apply retried_S; split;
            [apply retried_S; split; [apply retried_0|by eauto]|by eauto]|done]).
  right. split; [|done].
  apply retried_S; split; [|by eauto].
  apply retried_S; split; [|by eauto].
  apply retried_S; split; [apply retried_0|by eauto].
Qed.

(** Two attempts that both end the retries are the same attempt. *)
Lemma first_answer_unique get i j :
  retried get i -> retried get j ->
  (forall msg, get i <> TransportError msg) ->
  (forall msg, get j <> TransportError msg) ->
  i = j.
Proof.
  intros Hi Hj Hni Hnj.
  destruct (Nat.lt_trichotomy i j) as [Hlt|[->|Hlt]]; [|done|].
  - destruct (Hj i Hlt) as [msg Hmsg]. by destruct (Hni msg).
  - destruct (Hi j Hlt) as [msg Hmsg]. by destruct (Hnj msg).
Qed.

(** [_make_request] returns data exactly when one of the three attempts
    answers 200 and every attempt before it failed in transport. *)
Theorem make_request_data_iff get data :
  _make_request get = Ret (Some data)
  <-> exists i, (i < max_retries)%nat /\ get i = Status200 data /\ retried get i.
Proof.
  destruct (make_request_outcome get) as [(i & Hi & Hretried & Hout)|[Hall Hout]].
  - split.
    + intros Hdata. exists i. split; [done|]. split; [|done].
      destruct (get i) as [d| |s|m|e]; try congruence; try done.
    + intros (j & Hj & Hget & Hretried').
      assert (i = j) as ->.
      { apply (first_answer_unique get); try done.
        - intros msg Hmsg. by rewrite Hmsg in Hout.
        - intros msg Hmsg. congruence. }
      by rewrite Hget in Hout.
  - split; [congruence|].
    intros (j & Hj & Hget & _). destruct (Hall j Hj) as [msg Hmsg]. congruence.
Qed.

(** [_make_request] raises exactly when one of the three attempts raises
    something other than a transport failure, every attempt before it
    having failed in transport; transport failures alone never raise. *)
Theorem make_request_raises_iff get e :
  _make_request get = Raise e
  <-> exists i, (i < max_retries)%nat /\ get i = OtherException e /\ retried get i.
Proof.
  destruct (make_request_outcome get) as [(i & Hi & Hretried & Hout)|[Hall Hout]].
  - split.
    + intros Hraise. exists i. split; [done|]. split; [|done].
      destruct (get i) as [d| |s|m|e']; try congruence; try done.
    + intros (j & Hj & Hget & Hretried').
      assert (i = j) as ->.
      { apply (first_answer_unique get); try done.
        - intros msg Hmsg. by rewrite Hmsg in Hout.
        - intros msg Hmsg. congruence. }
      by rewrite Hget in Hout.
  - split; [congruence|].
    intros (j & Hj & Hget & _). destruct (Hall j Hj) as [msg Hmsg]. congruence.
Qed.

(** An answer with a status other than 200 is never retried: the request
    ends there with no data. *)
Theorem make_request_status_not_retried get i :
  (i < max_retries)%nat -> retried get i ->
  (get i = Status403 \/ exists status, get i = StatusOther status) ->
  _make_request get = Ret None
  /\ forall get', (forall j, (j <= i)%nat -> get' j = get j) ->
                  _make_request get' = Ret None.
Proof.
  intros Hi Hretried Hstatus.
  assert (Hone : forall g, (forall j, (j <= i)%nat -> g j = get j) ->
                           _make_request g = Ret None).
  { intros g Hsame.
    destruct (make_request_outcome g) as [(k & Hk & Hretried' & Hout)|[Hall Hout]];
      [|done].
    assert (k = i) as ->.
    { apply (first_answer_unique g).
      - done.
      - intros j Hj. rewrite Hsame by lia. by apply Hretried.
      - intros msg Hmsg. by rewrite Hmsg in Hout.
      - intros msg. rewrite Hsame by lia.
        destruct Hstatus as [->|[status ->]]; done. }
    rewrite Hsame in Hout by lia.
    by destruct Hstatus as [Hs|[status Hs]]; rewrite Hs in Hout. }
  split; [by apply Hone|done].
Qed.

End FetchClientOutcomes.

Lemma make_request_status_not_retried_witness :
  _make_request flaky_then_limited = Ret None
  /\ forall get', (forall j, (j <= 1)%nat -> get' j = flaky_then_limited j) ->
                  _make_request get' = Ret None.
Proof.
  apply (make_request_status_not_retried flaky_then_limited 1).
  - unfold max_retries. lia.
  - intros j Hj. assert (j = 0%nat) as -> by lia. by exists "timeout".
  - left. reflexivity.
Defined.

Section ClientEffects.
Context {A : Type}.
Implicit Types (get : nat -> Attempt A) (c : Client).

Lemma make_request_on_value get c :
  (_make_request_on get c).1 = _make_request get.
Proof.
  unfold _make_request_on, _make_request, max_retries. simpl.
  destruct (get 0%nat); simpl; try done.
  destruct (get 1%nat); simpl; try done.
  by destruct (get 2%nat).
Qed.

Lemma get_session_open c : session (_get_session c) = Some SessionOpen.
Proof. unfold _get_session. by destruct (session c) as [[|]|] eqn:Hs. Qed.

Lemma get_session_slept c : slept (_get_session c) = slept c.
Proof. unfold _get_session. by destruct (session c) as [[|]|] eqn:Hs. Qed.

Lemma get_session_balance c :
  created c = (closed c + open_sessions c)%nat ->
  created (_get_session c)
  = (closed (_get_session c) + open_sessions (_get_session c))%nat.
Proof.
  unfold _get_session, open_sessions.
  destruct (session c) as [[|]|] eqn:Hs; simpl; rewrite ?Hs; lia.
Qed.

Lemma reset_session_balance c :
  created c = (closed c + open_sessions c)%nat ->
  created (reset_session c)
  = (closed (reset_session c) + open_sessions (reset_session c))%nat.
Proof.
  unfold reset_session, open_sessions.
  destruct (session c) as [[|]|]; simpl; lia.
Qed.

Lemma sleep_balance c seconds :
  created c = (closed c + open_sessions c)%nat ->
  created (sleep seconds c)
  = (closed (sleep seconds c) + open_sessions (sleep seconds c))%nat.
Proof. done. Qed.

(** The back-off of [_make_request]: it sleeps only after a transport
    failure that is followed by another attempt, 1 second after the first
    attempt and 2 after the second, so never more than 3 seconds in all and
    never after an answer or after the last attempt.  What it returns is
    what [_make_request] returns. *)
Theorem make_request_backoff get c :
  (_make_request_on get c).1 = _make_request get
  /\ exists n,
       (n <= 2)%nat
       /\ retried get n
       /\ ((n < 2)%nat -> forall msg, get n <> TransportError msg)
       /\ slept (_make_request_on get c).2
          = (slept c ++ ((fun attempt => 2 ^ attempt)%nat <$> seq 0 n))%list
       /\ (sum_list ((fun attempt => 2 ^ attempt)%nat <$> seq 0 n) <= 3)%nat.
Proof.
  split; [apply make_request_on_value|].
  unfold _make_request_on, max_retries.
  assert (Hslept : forall c', slept (_get_session c') = slept c')
    by apply get_session_slept.
  simpl.
  destruct (get 0%nat) as [d0| |s0|m0|e0] eqn:H0;
    try (exists 0%nat; simpl; rewrite ?Hslept, ?app_nil_r;
         repeat split; [lia|apply retried_0|intros _ msg; congruence|lia]).
  destruct (get 1%nat) as [d1| |s1|m1|e1] eqn:H1;
    try (exists 1%nat; simpl; rewrite ?Hslept; simpl; rewrite ?Hslept;
         repeat split;
         [lia|apply retried_S; split; [apply retried_0|by eauto]
         |intros _ msg; congruence|lia]).
  exists 2%nat.
  assert (retried get 2) as Hretried.
  { apply retried_S; split; [|by eauto].
    apply retried_S; split; [apply retried_0|by eauto]. }
  destruct (get 2%nat) as [d2| |s2|m2|e2]; simpl;
    rewrite ?Hslept; simpl; rewrite ?Hslept; simpl; rewrite ?Hslept;
    rewrite <- ?app_assoc; simpl;
    (repeat split; [lia|done|lia|lia]).
Qed.

Lemma make_request_on_balance get c :
  created c = (closed c + open_sessions c)%nat ->
  created (_make_request_on get c).2
  = (closed (_make_request_on get c).2 + open_sessions (_make_request_on get c).2)%nat.
Proof.
  intros Hbalance. unfold _make_request_on, max_retries.
  pose proof (get_session_balance c Hbalance) as H0.
  pose proof (get_session_open c) as O0.
  cbn [seq request_attempts_on].
  destruct (get 0%nat); cbn [snd]; try done.
  cbn [Nat.ltb Nat.leb Nat.sub].
  set (c1 := reset_session (sleep (2 ^ 0) (_get_session c))).
  assert (created c1 = (closed c1 + open_sessions c1)%nat) as Hb1.
  { by apply reset_session_balance, sleep_balance. }
  pose proof (get_session_balance c1 Hb1) as H1.
  pose proof (get_session_open c1) as O1.
  destruct (get 1%nat); cbn [snd]; try done.
  set (c2 := reset_session (sleep (2 ^ 1) (_get_session c1))).
  assert (created c2 = (closed c2 + open_sessions c2)%nat) as Hb2.
  { by apply reset_session_balance, sleep_balance. }
  pose proof (get_session_balance c2 Hb2) as H2.
  pose proof (get_session_open c2) as O2.
  by destruct (get 2%nat).
Qed.

(** [_make_request] loses no session: each session it drops after a
    transport failure it has closed, and it leaves an open one. *)
Theorem make_request_keeps_sessions get c :
  created c = (closed c + open_sessions c)%nat ->
  created (_make_request_on get c).2
  = (closed (_make_request_on get c).2 + open_sessions (_make_request_on get c).2)%nat
  /\ session (_make_request_on get c).2 = Some SessionOpen.
Proof.
  intros Hbalance. unfold _make_request_on, max_retries.
  pose proof (get_session_balance c Hbalance) as H0.
  pose proof (get_session_open c) as O0.
  cbn [seq request_attempts_on].
  destruct (get 0%nat); cbn [snd]; try done.
  cbn [Nat.ltb Nat.leb Nat.sub].
  set (c1 := reset_session (sleep (2 ^ 0) (_get_session c))).
  assert (created c1 = (closed c1 + open_sessions c1)%nat) as Hb1.
  { by apply reset_session_balance, sleep_balance. }
  pose proof (get_session_balance c1 Hb1) as H1.
  pose proof (get_session_open c1) as O1.
  destruct (get 1%nat); cbn [snd]; try done.
  set (c2 := reset_session (sleep (2 ^ 1) (_get_session c1))).
  assert (created c2 = (closed c2 + open_sessions c2)%nat) as Hb2.
  { by apply reset_session_balance, sleep_balance. }
  pose proof (get_session_balance c2 Hb2) as H2.
  pose proof (get_session_open c2) as O2.
  by destruct (get 2%nat).
Qed.

Lemma aexit_closed c :
  created c = (closed c + open_sessions c)%nat ->
  created (__aexit__ c) = closed (__aexit__ c)
  /\ session (__aexit__ c) <> Some SessionOpen.
Proof.
  unfold __aexit__, open_sessions.
  destruct (session c) as [[|]|] eqn:Hs; simpl; rewrite ?Hs; intros H;
    split; try done; lia.
Qed.

(** Inside [async with api] no session is lost either: after any number
    of requests and [__aexit__], every session created has been closed and
    none is open, whatever the requests met. *)
Theorem with_client_closes_sessions (gets : list (nat -> Attempt A)) c :
  created c = (closed c + open_sessions c)%nat ->
  created (with_client gets c) = closed (with_client gets c)
  /\ session (with_client gets c) <> Some SessionOpen.
Proof.
  intros Hbalance. unfold with_client. apply aexit_closed.
  assert (Henter : created (__aenter__ c)
                   = (closed (__aenter__ c) + open_sessions (__aenter__ c))%nat)
    by by apply get_session_balance.
  revert Henter. generalize (__aenter__ c). clear c Hbalance.
  induction gets as [|get gets IH]; intros c Hbalance; simpl; [done|].
  apply IH. by apply make_request_on_balance.
Qed.

End ClientEffects.

Lemma make_request_keeps_sessions_witness :
  created (_make_request_on unreachable new_client).2 = 3%nat
  /\ closed (_make_request_on unreachable new_client).2 = 2%nat
  /\ created (_make_request_on unreachable new_client).2
     = (closed (_make_request_on unreachable new_client).2
        + open_sessions (_make_request_on unreachable new_client).2)%nat
  /\ session (_make_request_on unreachable new_client).2 = Some SessionOpen.
Proof.
  split; [reflexivity|]. split; [reflexivity|].
  apply (make_request_keeps_sessions unreachable new_client). reflexivity.
Defined.

Lemma with_client_closes_sessions_witness :
  created (with_client [unreachable; flaky_then_limited] new_client)
  = closed (with_client [unreachable; flaky_then_limited] new_client)
  /\ session (with_client [unreachable; flaky_then_limited] new_client)
     <> Some SessionOpen.
Proof.
  apply (with_client_closes_sessions [unreachable; flaky_then_limited] new_client).
  reflexivity.
Defined.

(** ** The aggregator and its wrappers *)

(** [get_github_stars] and [get_github_repos] never raise.  They give 0
    when the profile lookup yields no data and whenever the stats are an
    error record, and the totals of the fetched repository list
    otherwise. *)
Theorem get_github_counts_never_raise (api : Remote) (clock : Clock) (u : string) :
  exists stars repos,
    get_github_stars api clock u = Ret stars
    /\ get_github_repos api clock u = Ret repos
    /\ (_make_request (get_user api u) = Ret None -> stars = 0 /\ repos = 0%nat)
    /\ (forall user e, fetch_user_stats api clock u None = Ret (ErrorStats user e) ->
                       stars = 0 /\ repos = 0%nat)
    /\ (forall r, fetch_user_stats api clock u None = Ret (FullStats r) ->
                  stars = star_sum (repositories r)
                  /\ repos = List.length (repositories r)).
Proof.
  unfold get_github_stars, get_github_repos.
  destruct (fetch_user_stats_returns api clock u None) as (stats & Hstats & _).
  rewrite Hstats. simpl. exists (get_total_stars stats), (get_total_repos stats).
  split; [done|]. split; [done|]. split; [|split].
  - intros Hnone. unfold fetch_user_stats in Hstats.
    rewrite (fetch_user_info_no_data _ _ Hnone) in Hstats. simpl in Hstats.
    by injection Hstats as <-.
  - intros user e [= ->]. done.
  - intros r Hr. injection Hr as ->.
    destruct (fetch_user_stats_full_inv _ _ _ _ _ Hstats)
      as (info & prs & issues & _ & _ & _ & Hrec).
    simpl. rewrite Hrec. done.
Qed.

(** A search that yields no data (rate limit, error status, transport
    failures) does not turn the stats into an error record: the record is
    full, with both counts 0. *)
Theorem search_without_data_counts_zero (api : Remote) (clock : Clock)
    (u : string) (org : option string) (info : UserInfo) (repos : list Repo) :
  fetch_user_info api u = Ret info ->
  truthy info = true ->
  fetch_user_repos api u = Ret repos ->
  (forall query, _make_request (get_search_issues api query) = Ret None) ->
  exists r, fetch_user_stats api clock u org = Ret (FullStats r)
            /\ merged_prs r = 0 /\ issues_opened r = 0
            /\ total_stars r = star_sum repos
            /\ total_repos r = List.length repos.
Proof.
  intros Hinfo Htruthy Hrepos Hsearch.
  eexists. split.
  - apply (fetch_user_stats_full api clock u org info repos 0 0); try done.
    + unfold fetch_user_merged_prs. by rewrite Hsearch.
    + unfold fetch_user_issues_opened. by rewrite Hsearch.
  - done.
Qed.

Lemma search_without_data_counts_zero_witness :
  exists r, fetch_user_stats search_limited_api demo_clock "octocat" None
            = Ret (FullStats r)
            /\ merged_prs r = 0 /\ issues_opened r = 0
            /\ total_stars r = star_sum demo_repos
            /\ total_repos r = List.length demo_repos.
Proof.
  apply (search_without_data_counts_zero search_limited_api demo_clock "octocat"
           None [("login", "octocat")] demo_repos); try reflexivity.
Defined.

(** ** The link store *)

Section Links.
Context {V : Type}.
Implicit Types (d : list (Z * V)) (k : Z) (v : V).

Lemma dict_get_set_eq k v d : dict_get k (dict_set k v d) = Some v.
Proof.
  induction d as [|[k' v'] d IH]; simpl.
  - by rewrite bool_decide_eq_true_2.
  - case_bool_decide as Hk; simpl.
    + by rewrite bool_decide_eq_true_2.
    + by rewrite bool_decide_eq_false_2.
Qed.

Lemma dict_get_set_ne k k' v d :
  k' <> k -> dict_get k' (dict_set k v d) = dict_get k' d.
Proof.
  intros Hne. induction d as [|[k0 v0] d IH]; simpl.
  - by rewrite bool_decide_eq_false_2.
  - case_bool_decide as Hk; simpl.
    + subst. by rewrite !bool_decide_eq_false_2 by done.
    + by rewrite IH.
Qed.

Lemma dict_set_fresh k v d :
  k ∉ d.*1 -> dict_set k v d = (d ++ [(k, v)])%list.
Proof.
  induction d as [|[k' v'] d IH]; intros Hk; [done|].
  rewrite fmap_cons in Hk. apply not_elem_of_cons in Hk as [Hne Hk].
  simpl. rewrite bool_decide_eq_false_2 by done. by rewrite IH.
Qed.

Lemma dict_get_elem_of k v d :
  NoDup d.*1 -> (dict_get k d = Some v <-> (k, v) ∈ d).
Proof.
  induction d as [|[k' v'] d IH]; intros Hnd; simpl.
  - split; [done|]. by intros ?%elem_of_nil.
  - rewrite fmap_cons in Hnd. apply NoDup_cons in Hnd as [Hk' Hnd].
    rewrite elem_of_cons. case_bool_decide as Hk.
    + subst. split.
      * intros [= ->]. by left.
      * intros [[= ->]|Hin]; [done|].
        exfalso. apply Hk'. by apply (list_elem_of_fmap_2 fst) in Hin.
    + rewrite IH by done. split; [by right|].
      intros [[= ? ?]|?]; [by subst|done].
Qed.

Lemma dict_get_None k d : dict_get k d = None <-> k ∉ d.*1.
Proof.
  induction d as [|[k' v'] d IH]; simpl.
  - split; [intros _; apply not_elem_of_nil|done].
  - rewrite not_elem_of_cons. case_bool_decide as Hk.
    + split; [done|]. by intros [? _].
    + rewrite IH. split; [by split|by intros [_ ?]].
Qed.

End Links.

Lemma load_items_NoDup (data acc : list (Z * string)) :
  NoDup ((acc ++ data)%list).*1 ->
  foldl (fun links '(k, v) => dict_set k v links) acc data = (acc ++ data)%list.
Proof.
  revert acc. induction data as [|[k v] data IH]; intros acc Hnd; simpl.
  - by rewrite app_nil_r.
  - rewrite dict_set_fresh.
    + rewrite IH; rewrite <- app_assoc; done.
    + rewrite fmap_app in Hnd. apply NoDup_app in Hnd as (_ & Hdisjoint & _).
      intros Hin. apply (Hdisjoint k Hin). rewrite fmap_cons.
      apply elem_of_cons. by left.
Qed.

Lemma load_links_saved (links : list (Z * string)) :
  NoDup links.*1 -> load_links (Some links) = links.
Proof. intros Hnd. simpl. by rewrite load_items_NoDup. Qed.

(** ** cogs/github.py *)

Section LinkGithub.
Variable api : Remote.
Implicit Types (file : option (list (Z * string))) (author : Z) (u : string).

Lemma link_github_linked writable file author u info :
  fetch_user_info api u = Ret info -> truthy info = true ->
  (link_github api writable file author u).1
  = save_links writable (dict_set author u (load_links file)) file.
Proof.
  intros Hinfo Htruthy. unfold link_github. by rewrite Hinfo, Htruthy.
Qed.

(** [link_github] on a user the remote knows: afterwards the author is
    linked to that username, whether it was linked before or not, and every
    other identity is linked as before.  When the remote does not know the
    user, when the lookup raises, or when the file cannot be written, the
    links file is what it was. *)
Theorem link_github_links_author writable file author u :
  (forall info,
     fetch_user_info api u = Ret info -> truthy info = true -> writable = true ->
     dict_get author (load_links (link_github api writable file author u).1) = Some u
     /\ (forall other, other <> author ->
           dict_get other (load_links (link_github api writable file author u).1)
           = dict_get other (load_links file))
     /\ exists embed, (link_github api writable file author u).2 = Rich embed)
  /\ ((exists e, fetch_user_info api u = Raise e)
      \/ fetch_user_info api u = Ret []
      \/ _make_request (get_user api u) = Ret None
      \/ writable = false ->
      load_links (link_github api writable file author u).1 = load_links file)
  /\ ((exists e, fetch_user_info api u = Raise e)
      \/ fetch_user_info api u = Ret [] ->
      (link_github api writable file author u).1 = file
      /\ exists text, (link_github api writable file author u).2 = Text text).
Proof.
  split; [|split].
  - intros info Hinfo Htruthy ->.
    rewrite (link_github_linked _ _ _ _ _ Hinfo Htruthy).
    unfold save_links.
    rewrite load_links_saved by apply dict_set_NoDup, load_links_NoDup.
    split; [apply dict_get_set_eq|]. split.
    + intros other Hne. by apply dict_get_set_ne.
    + unfold link_github. rewrite Hinfo, Htruthy. simpl. eauto.
  - intros [[e He]|[Hnil|[Hnone| ->]]].
    + unfold link_github. by rewrite He.
    + unfold link_github. by rewrite Hnil.
    + unfold link_github. by rewrite (fetch_user_info_no_data _ _ Hnone).
    + unfold link_github.
      destruct (fetch_user_info api u) as [info|e]; [|done].
      by destruct (truthy info).
  - intros [[e He]|Hnil].
    + unfold link_github. rewrite He. eauto.
    + unfold link_github. rewrite Hnil. simpl. eauto.
Qed.

End LinkGithub.

(** Linking and the role run compose: once [link_github] has linked the
    author to a user the remote knows, the next batch holds the author with
    that username and the stats fetched for it, and a run of
    [update_github_roles] leaves the
    author, if a member, holding the contributor role exactly when those
    stats meet the criteria. *)
Theorem linked_author_joins_batch (api : Remote) (clock : Clock)
    (file : option (list (Z * string))) (author : Z) (u : string) (info : UserInfo) :
  fetch_user_info api u = Ret info ->
  truthy info = true ->
  let file' := (link_github api true file author u).1 in
  exists stats,
    fetch_user_stats api clock u None = Ret stats
    /\ (author, u, stats) ∈ fetch_all_user_stats api clock file'
    /\ (forall guild,
          is_Some (members guild !! author) ->
          exists run,
            update_github_roles api clock file' (Some guild) = Some run
            /\ has_role (run_guild run) author os_role = meets_criteria stats).
Proof.
  intros Hinfo Htruthy. cbv zeta.
  destruct (fetch_user_stats_returns api clock u None) as (stats & Hstats & _).
  assert (Hlinked : (author, u) ∈ load_links (link_github api true file author u).1).
  { apply dict_get_elem_of; [apply load_links_NoDup|].
    rewrite (link_github_linked _ _ _ _ _ _ Hinfo Htruthy). unfold save_links.
    rewrite load_links_saved by apply dict_set_NoDup, load_links_NoDup.
    apply dict_get_set_eq. }
  exists stats. split; [done|]. split.
  - by apply fetch_all_user_stats_elem_of.
  - intros guild Hmember.
    destruct (update_github_roles_run api clock
                (link_github api true file author u).1 guild)
      as (run & Hrun & Hguild & _).
    exists run. split; [done|]. rewrite Hguild. unfold reconcile_roles.
    change author with (discord_id (author, u, stats)).
    change (meets_criteria stats) with (meets_criteria (stats_of (author, u, stats))).
    apply assign_open_source_roles_has_role.
    + apply ranked_ids_NoDup.
    + by apply ranked_elem_of.
    + rewrite assign_top_contributor_roles_members. by apply fmap_is_Some.
Qed.

Lemma linked_author_joins_batch_witness :
  exists stats,
    fetch_user_stats demo_api demo_clock "octocat" None = Ret stats
    /\ (1002, "octocat", stats)
         ∈ fetch_all_user_stats demo_api demo_clock
             (link_github demo_api true (Some [(1002, "ghost")]) 1002 "octocat").1
    /\ (forall guild,
          is_Some (members guild !! 1002) ->
          exists run,
            update_github_roles demo_api demo_clock
              (link_github demo_api true (Some [(1002, "ghost")]) 1002 "octocat").1
              (Some guild) = Some run
            /\ has_role (run_guild run) 1002 os_role = meets_criteria stats).
Proof.
  apply (linked_author_joins_batch demo_api demo_clock (Some [(1002, "ghost")])
           1002 "octocat" [("login", "octocat")]); reflexivity.
Defined.

(** ** cogs/github_feed.py: the subscriptions *)

Section RepoFormat.

Lemma split_slash_not_nil s : split_slash s <> [].
Proof.
  destruct s as [|c s]; simpl; [done|].
  case_bool_decide; [done|]. by destruct (split_slash s).
Qed.

Lemma split_slash_no_slash s : contains_slash s = false -> split_slash s = [s].
Proof.
  induction s as [|c s IH]; simpl; [done|].
  intros [Hc Hs]%orb_false_iff. rewrite Hc. by rewrite IH.
Qed.

Lemma split_slash_one s piece :
  split_slash s = [piece] -> s = piece /\ contains_slash piece = false.
Proof.
  revert piece. induction s as [|c s IH]; intros piece; simpl.
  - by intros [= <-].
  - case_bool_decide as Hc.
    + intros [= _ Hrest]. by destruct (split_slash_not_nil s).
    + destruct (split_slash s) as [|p ps] eqn:Hs; [by destruct (split_slash_not_nil s)|].
      intros [= <- ->]. destruct (IH p eq_refl) as [-> Hp].
      split; [done|]. simpl. by rewrite bool_decide_eq_false_2.
Qed.

Lemma split_slash_two s owner name :
  split_slash s = [owner; name] ->
  s = owner +:+ "/" +:+ name
  /\ contains_slash owner = false /\ contains_slash name = false.
Proof.
  revert owner. induction s as [|c s IH]; intros owner; simpl; [done|].
  case_bool_decide as Hc.
  - intros [= <- Hrest]. apply split_slash_one in Hrest as [-> Hname].
    subst c. done.
  - destruct (split_slash s) as [|p ps] eqn:Hs; [done|].
    intros [= <- ->]. destruct (IH p eq_refl) as (-> & Hp & Hname).
    split; [done|]. split; [|done]. simpl. by rewrite bool_decide_eq_false_2.
Qed.

Lemma split_slash_join owner name :
  contains_slash owner = false ->
  split_slash (owner +:+ "/" +:+ name) = owner :: split_slash name.
Proof.
  induction owner as [|c owner IH]; simpl; [done|].
  intros [Hc Howner]%orb_false_iff. rewrite Hc. by rewrite IH.
Qed.

Lemma contains_slash_join owner name :
  contains_slash (owner +:+ "/" +:+ name) = true.
Proof.
  induction owner as [|c owner IH]; simpl; [done|].
  rewrite IH. apply orb_true_r.
Qed.

(** The format [subscribe_repo] accepts is: exactly one slash.  Nothing is
    asked of what stands before and after it, so "/" alone is accepted,
    and "owner/repo/extra" is not. *)
Theorem valid_repo_format_iff (repo : string) :
  (valid_repo_format repo = true
   <-> exists owner name,
         repo = owner +:+ "/" +:+ name
         /\ contains_slash owner = false /\ contains_slash name = false)
  /\ valid_repo_format "/" = true
  /\ valid_repo_format "octo/demo" = true
  /\ valid_repo_format "octo/demo/extra" = false
  /\ valid_repo_format "octo" = false
  /\ valid_repo_format "" = false.
Proof.
  split; [|done]. unfold valid_repo_format. split.
  - intros [_ Hlen%negb_false_iff%Nat.eqb_eq]%negb_true_iff%orb_false_iff.
    destruct (split_slash repo) as [|owner [|name [|? ?]]] eqn:Hsplit; try done.
    exists owner, name. by apply split_slash_two.
  - intros (owner & name & -> & Howner & Hname).
    rewrite contains_slash_join, split_slash_join by done.
    by rewrite split_slash_no_slash.
Qed.

End RepoFormat.

Section Subscriptions.
Implicit Types (cog : GitHubFeed) (author : Z) (repo : string)
  (file : option (gmap string (list Z))).

Lemma set_subscribers_same cog : set_subscribers (repo_subscribers cog) cog = cog.
Proof. by destruct cog. Qed.

(** What [subscribe_repo] leaves in memory for a valid repository name. *)
Lemma subscribe_repo_subscribers writable file cog author repo :
  valid_repo_format repo = true ->
  repo_subscribers (cmd_cog (subscribe_repo writable file cog author repo))
  = <[repo := default ∅ (repo_subscribers cog !! repo) ∪ {[author]}]>
      (repo_subscribers cog).
Proof.
  intros Hvalid. unfold subscribe_repo. rewrite Hvalid. simpl.
  destruct (repo_subscribers cog !! repo) as [current|] eqn:Hrepo; simpl.
  - rewrite Hrepo. simpl. case_bool_decide as Hin; simpl; [|done].
    symmetry. apply insert_id. rewrite Hrepo. f_equal.
    apply set_eq. intros x. rewrite elem_of_union, elem_of_singleton.
    split; [by left|]. by intros [?| ->].
  - rewrite lookup_insert_eq. simpl.
    rewrite bool_decide_eq_false_2 by apply not_elem_of_empty. simpl.
    by rewrite insert_insert_eq.
Qed.

(** What [unsubscribe_repo] leaves in memory for a subscriber. *)
Lemma unsubscribe_repo_subscribers writable file cog author repo current :
  repo_subscribers cog !! repo = Some current ->
  author ∈ current ->
  repo_subscribers (cmd_cog (unsubscribe_repo writable file cog author repo))
  = if bool_decide (current ∖ {[author]} = ∅)
    then delete repo (repo_subscribers cog)
    else <[repo := current ∖ {[author]}]> (repo_subscribers cog).
Proof.
  intros Hrepo Hin. unfold unsubscribe_repo. rewrite Hrepo.
  rewrite bool_decide_eq_true_2 by done. simpl.
  case_bool_decide; [|done]. by rewrite delete_insert_eq.
Qed.

Lemma unsubscribe_repo_not_subscribed writable file cog author repo :
  author ∉ default ∅ (repo_subscribers cog !! repo) ->
  unsubscribe_repo writable file cog author repo
  = {| cmd_cog := cog; cmd_file := file;
       cmd_reply := Text ("❌ You are not subscribed to **" +:+ repo +:+ "**") |}.
Proof.
  intros Hnot. unfold unsubscribe_repo.
  destruct (repo_subscribers cog !! repo) as [current|]; [|done].
  simpl in Hnot. by rewrite bool_decide_eq_false_2.
Qed.

(** Neither command touches the watermarks or the events file. *)
Lemma subscribe_repo_frame writable file cog author repo :
  last_event_ids (cmd_cog (subscribe_repo writable file cog author repo))
  = last_event_ids cog
  /\ feed_file (cmd_cog (subscribe_repo writable file cog author repo))
     = feed_file cog.
Proof.
  unfold subscribe_repo. destruct (valid_repo_format repo); simpl; [|done].
  by case_bool_decide.
Qed.

Lemma unsubscribe_repo_frame writable file cog author repo :
  last_event_ids (cmd_cog (unsubscribe_repo writable file cog author repo))
  = last_event_ids cog
  /\ feed_file (cmd_cog (unsubscribe_repo writable file cog author repo))
     = feed_file cog.
Proof.
  unfold unsubscribe_repo.
  destruct (repo_subscribers cog !! repo) as [current|]; [|done].
  by case_bool_decide.
Qed.

Lemma feed_cog_eq (cog cog' : GitHubFeed) :
  repo_subscribers cog' = repo_subscribers cog ->
  last_event_ids cog' = last_event_ids cog ->
  feed_file cog' = feed_file cog -> cog' = cog.
Proof. destruct cog, cog'. simpl. by intros -> -> ->. Qed.

Lemma subscribe_repo_polled writable file cog author repo :
  valid_repo_format repo = true ->
  is_polled (cmd_cog (subscribe_repo writable file cog author repo)) repo = true.
Proof.
  intros Hvalid. unfold is_polled.
  rewrite subscribe_repo_subscribers, lookup_insert_eq by done.
  rewrite bool_decide_eq_false_2; [done|].
  intros Hempty. apply (not_elem_of_empty (C := gset Z) author).
  rewrite <- Hempty. apply elem_of_union. right. by apply elem_of_singleton.
Qed.

(** [subscribe_repo]: a name that is not of the accepted format changes
    nothing.  Otherwise the author is a subscriber of the repository
    afterwards, the other subscribers of the repository and all other
    repositories are as before, no watermark is touched, and the
    repository is one that [feed_loop] polls. *)
Theorem subscribe_repo_adds_author writable file cog author repo :
  let result := subscribe_repo writable file cog author repo in
  (valid_repo_format repo = false ->
   cmd_cog result = cog /\ cmd_file result = file)
  /\ (valid_repo_format repo = true ->
      author ∈ default ∅ (repo_subscribers (cmd_cog result) !! repo)
      /\ (forall user, user <> author ->
            (user ∈ default ∅ (repo_subscribers (cmd_cog result) !! repo)
             <-> user ∈ default ∅ (repo_subscribers cog !! repo)))
      /\ (forall other, other <> repo ->
            repo_subscribers (cmd_cog result) !! other
            = repo_subscribers cog !! other)
      /\ last_event_ids (cmd_cog result) = last_event_ids cog
      /\ is_polled (cmd_cog result) repo = true).
Proof.
  cbv zeta. split.
  - intros Hinvalid. unfold subscribe_repo. by rewrite Hinvalid.
  - intros Hvalid.
    pose proof (subscribe_repo_subscribers writable file cog author repo Hvalid)
      as Hsubs.
    split; [|split; [|split; [|split]]].
    + rewrite Hsubs, lookup_insert_eq. simpl.
      apply elem_of_union. right. by apply elem_of_singleton.
    + intros user Hne. rewrite Hsubs, lookup_insert_eq. simpl.
      rewrite elem_of_union, elem_of_singleton. tauto.
    + intros other Hne. by rewrite Hsubs, lookup_insert_ne.
    + apply subscribe_repo_frame.
    + by apply subscribe_repo_polled.
Qed.

(** Subscribing and unsubscribing undo each other.  A valid subscription
    of an author who was not subscribed, followed by the author's
    unsubscription, gives back the cog as it was, provided the repository
    was not kept with an empty subscriber set (unsubscribing deletes the
    entry of a repository that is left without subscribers).  The
    unsubscription of a subscriber followed by a subscription gives back
    the cog as well. *)
Theorem subscribe_unsubscribe_round_trip writable file cog author repo :
  (valid_repo_format repo = true ->
   author ∉ default ∅ (repo_subscribers cog !! repo) ->
   repo_subscribers cog !! repo <> Some ∅ ->
   forall writable' file',
     cmd_cog (unsubscribe_repo writable' file'
                (cmd_cog (subscribe_repo writable file cog author repo))
                author repo) = cog)
  /\ (valid_repo_format repo = true ->
      author ∈ default ∅ (repo_subscribers cog !! repo) ->
      forall writable' file',
        cmd_cog (subscribe_repo writable' file'
                   (cmd_cog (unsubscribe_repo writable file cog author repo))
                   author repo) = cog).
Proof.
  split.
  - intros Hvalid Hnot Hnonempty writable' file'.
    pose proof (subscribe_repo_subscribers writable file cog author repo Hvalid)
      as Hsubs.
    destruct (subscribe_repo_frame writable file cog author repo) as [Hw Hf].
    set (cog1 := cmd_cog (subscribe_repo writable file cog author repo)) in *.
    set (current := default ∅ (repo_subscribers cog !! repo)) in *.
    assert (Hlookup : repo_subscribers cog1 !! repo = Some (current ∪ {[author]}))
      by (by rewrite Hsubs, lookup_insert_eq).
    assert (Hin : author ∈ current ∪ {[author]})
      by (apply elem_of_union; right; by apply elem_of_singleton).
    pose proof (unsubscribe_repo_subscribers writable' file' cog1 author repo _
                  Hlookup Hin) as Hunsub.
    assert ((current ∪ {[author]}) ∖ {[author]} = current) as Hback.
    { apply set_eq. intros x.
      rewrite elem_of_difference, elem_of_union, elem_of_singleton.
      split; [tauto|]. intros Hx. split; [by left|]. by intros ->. }
    rewrite Hback in Hunsub.
    destruct (unsubscribe_repo_frame writable' file' cog1 author repo) as [Hw' Hf'].
    apply feed_cog_eq; [|congruence|congruence].
    rewrite Hunsub, Hsubs.
    destruct (decide (current = ∅)) as [Hempty|Hempty].
    + rewrite bool_decide_eq_true_2 by done.
      rewrite delete_insert_eq. apply delete_id.
      destruct (repo_subscribers cog !! repo) as [s0|] eqn:Hrepo; [|done].
      exfalso. apply Hnonempty. by f_equal.
    + rewrite bool_decide_eq_false_2 by done.
      rewrite insert_insert_eq. apply insert_id.
      destruct (repo_subscribers cog !! repo) as [s0|] eqn:Hrepo; [done|].
      by destruct Hempty.
  - intros Hvalid Hin writable' file'.
    destruct (repo_subscribers cog !! repo) as [current|] eqn:Hrepo;
      [|by apply not_elem_of_empty in Hin].
    simpl in Hin.
    pose proof (unsubscribe_repo_subscribers writable file cog author repo _
                  Hrepo Hin) as Hunsub.
    destruct (unsubscribe_repo_frame writable file cog author repo) as [Hw Hf].
    set (cog1 := cmd_cog (unsubscribe_repo writable file cog author repo)) in *.
    pose proof (subscribe_repo_subscribers writable' file' cog1 author repo Hvalid)
      as Hsubs.
    destruct (subscribe_repo_frame writable' file' cog1 author repo) as [Hw' Hf'].
    assert (current ∖ {[author]} ∪ {[author]} = current) as Hback.
    { apply set_eq. intros x. rewrite elem_of_union, elem_of_difference,
        elem_of_singleton. destruct (decide (x = author)) as [->|]; tauto. }
    apply feed_cog_eq; [|congruence|congruence].
    rewrite Hsubs, Hunsub.
    destruct (decide (current ∖ {[author]} = ∅)) as [Hempty|Hempty].
    + rewrite bool_decide_eq_true_2 by done.
      rewrite lookup_delete_eq. simpl. rewrite insert_delete_eq.
      apply insert_id. rewrite Hrepo. f_equal.
      rewrite <- Hback at 1. rewrite Hempty. done.
    + rewrite bool_decide_eq_false_2 by done.
      rewrite lookup_insert_eq. simpl. rewrite insert_insert_eq.
      apply insert_id. by rewrite Hback.
Qed.

End Subscriptions.

Section SubscriptionStore.
Implicit Types (cog : GitHubFeed) (author : Z) (repo : string)
  (file : option (gmap string (list Z))).

(** No command leaves a repository with an empty subscriber set: when the
    cog has none, it has none after a subscription or an unsubscription,
    and [feed_loop] polls exactly the repositories that have an entry. *)
Theorem subscriptions_never_left_empty writable file cog author repo :
  (forall r s, repo_subscribers cog !! r = Some s -> s <> ∅) ->
  (forall r s,
     repo_subscribers (cmd_cog (subscribe_repo writable file cog author repo)) !! r
     = Some s -> s <> ∅)
  /\ (forall r s,
        repo_subscribers (cmd_cog (unsubscribe_repo writable file cog author repo)) !! r
        = Some s -> s <> ∅)
  /\ (forall r, is_polled cog r = true <-> is_Some (repo_subscribers cog !! r)).
Proof.
  intros Hinv. split; [|split].
  - intros r s.
    destruct (valid_repo_format repo) eqn:Hvalid.
    + rewrite subscribe_repo_subscribers by done.
      destruct (decide (r = repo)) as [->|Hne].
      * rewrite lookup_insert_eq. intros [= <-] Hempty.
        apply (not_elem_of_empty (C := gset Z) author).
        rewrite <- Hempty. apply elem_of_union. right. by apply elem_of_singleton.
      * rewrite lookup_insert_ne by done. apply Hinv.
    + unfold subscribe_repo. rewrite Hvalid. simpl. apply Hinv.
  - intros r s.
    destruct (repo_subscribers cog !! repo) as [current|] eqn:Hrepo.
    + destruct (decide (author ∈ current)) as [Hin|Hnot].
      * rewrite (unsubscribe_repo_subscribers _ _ _ _ _ _ Hrepo Hin).
        destruct (decide (current ∖ {[author]} = ∅)) as [Hempty|Hempty].
        -- rewrite bool_decide_eq_true_2 by done.
           destruct (decide (r = repo)) as [->|Hne].
           ++ by rewrite lookup_delete_eq.
           ++ rewrite lookup_delete_ne by done. apply Hinv.
        -- rewrite bool_decide_eq_false_2 by done.
           destruct (decide (r = repo)) as [->|Hne].
           ++ rewrite lookup_insert_eq. by intros [= <-].
           ++ rewrite lookup_insert_ne by done. apply Hinv.
      * rewrite unsubscribe_repo_not_subscribed by (by rewrite Hrepo).
        simpl. apply Hinv.
    + rewrite unsubscribe_repo_not_subscribed
        by (rewrite Hrepo; apply not_elem_of_empty).
      simpl. apply Hinv.
  - intros r. unfold is_polled.
    destruct (repo_subscribers cog !! r) as [s|] eqn:Hr.
    + rewrite bool_decide_eq_false_2 by (by eapply Hinv). split; eauto.
    + split; [done|]. by intros [? ?].
Qed.

Lemma subscriptions_never_left_empty_witness :
  (forall r s,
     repo_subscribers
       (cmd_cog (subscribe_repo true None watched_cog 1002 "octo/demo")) !! r
     = Some s -> s <> ∅)
  /\ (forall r s,
        repo_subscribers
          (cmd_cog (unsubscribe_repo true None watched_cog 1002 "octo/demo")) !! r
        = Some s -> s <> ∅)
  /\ (forall r, is_polled watched_cog r = true
                <-> is_Some (repo_subscribers watched_cog !! r)).
Proof.
  apply (subscriptions_never_left_empty true None watched_cog 1002 "octo/demo").
  intros r s. unfold watched_cog, demo_cog. simpl.
  destruct (decide (r = "octo/demo")) as [->|Hne].
  - rewrite lookup_singleton_eq. intros [= <-] Hempty.
    apply (not_elem_of_empty (C := gset Z) 1001). rewrite <- Hempty.
    by apply elem_of_singleton.
  - by rewrite lookup_singleton_ne.
Defined.

Lemma user_repos_elem_of cog author repo :
  repo ∈ user_repos cog author
  <-> exists s, repo_subscribers cog !! repo = Some s /\ author ∈ s.
Proof.
  unfold user_repos. rewrite list_elem_of_fmap. split.
  - intros ([r s] & -> & Hin). apply list_elem_of_filter in Hin as [Hauthor Hin].
    apply elem_of_map_to_list in Hin. by exists s.
  - intros (s & Hs & Hauthor). exists (repo, s). split; [done|].
    apply list_elem_of_filter. split; [done|]. by apply elem_of_map_to_list.
Qed.

Lemma add_fields_names (embed : Embed) (repos : list string) :
  name <$> fields
    (foldl (fun embed repo =>
              add_field {| name := repo;
                           value := "[View Repository](https://github.com/"
                                    +:+ repo +:+ ")";
                           inline := false |} embed) embed repos)
  = ((name <$> fields embed) ++ repos)%list.
Proof.
  revert embed. induction repos as [|repo repos IH]; intros embed; simpl.
  - by rewrite app_nil_r.
  - rewrite IH. simpl. rewrite fmap_app. simpl. by rewrite <- app_assoc.
Qed.

(** [list_subscriptions] lists exactly the repositories the author is
    subscribed to, each once: the answer is the "not subscribed to any"
    text exactly when there is none, and otherwise an embed with one field
    per such repository. *)
Theorem list_subscriptions_exact cog author :
  (forall repo,
     repo ∈ user_repos cog author
     <-> exists s, repo_subscribers cog !! repo = Some s /\ author ∈ s)
  /\ NoDup (user_repos cog author)
  /\ (list_subscriptions cog author
      = Text "📭 You are not subscribed to any repositories"
      <-> forall repo s, repo_subscribers cog !! repo = Some s -> author ∉ s)
  /\ (forall embed,
        list_subscriptions cog author = Rich embed ->
        name <$> fields embed = user_repos cog author).
Proof.
  split; [apply user_repos_elem_of|]. split; [|split].
  - unfold user_repos.
    apply (sublist_NoDup _ (map_to_list (repo_subscribers cog)).*1);
      [apply NoDup_fst_map_to_list|].
    apply fmap_sublist, sublist_filter.
  - unfold list_subscriptions.
    destruct (user_repos cog author) as [|repo repos] eqn:Hrepos; simpl.
    + split; [|done]. intros _ repo s Hs Hin.
      assert (repo ∈ user_repos cog author) as Habs
        by (apply user_repos_elem_of; eauto).
      rewrite Hrepos in Habs. by apply elem_of_nil in Habs.
    + split; [done|]. intros Hnone. exfalso.
      assert (repo ∈ user_repos cog author) as Hin
        by (rewrite Hrepos; apply elem_of_cons; by left).
      apply user_repos_elem_of in Hin as (s & Hs & Hin). by apply (Hnone repo s).
  - intros embed. unfold list_subscriptions.
    destruct (truthy (user_repos cog author)); simpl; [|done].
    intros [= <-]. by rewrite add_fields_names.
Qed.

(** The subscribers file mirrors the memory as long as the writes go
    through: saving and loading the subscriber map is then a round trip,
    and when the file holds what the cog holds, it still does after a
    subscription or an unsubscription.  A refused write breaks the mirror:
    after a valid subscription of an author who was not subscribed, memory
    has the author and the file, as loaded, has not.  The next
    subscription whose write goes through restores it, whatever the file
    held. *)
Theorem subscribers_file_mirrors_memory :
  (forall subscribers file,
     load_subscribers (save_subscribers true subscribers file) = subscribers)
  /\ (forall file cog author repo,
        load_subscribers file = repo_subscribers cog ->
        load_subscribers (cmd_file (subscribe_repo true file cog author repo))
        = repo_subscribers (cmd_cog (subscribe_repo true file cog author repo))
        /\ load_subscribers (cmd_file (unsubscribe_repo true file cog author repo))
           = repo_subscribers (cmd_cog (unsubscribe_repo true file cog author repo)))
  /\ (forall file cog author repo,
        load_subscribers file = repo_subscribers cog ->
        valid_repo_format repo = true ->
        author ∉ default ∅ (repo_subscribers cog !! repo) ->
        let result := subscribe_repo false file cog author repo in
        author ∈ default ∅ (repo_subscribers (cmd_cog result) !! repo)
        /\ (author ∉ default ∅ (load_subscribers (cmd_file result) !! repo))
        /\ load_subscribers (cmd_file result) <> repo_subscribers (cmd_cog result))
  /\ (forall file cog author repo,
        valid_repo_format repo = true ->
        author ∉ default ∅ (repo_subscribers cog !! repo) ->
        load_subscribers (cmd_file (subscribe_repo true file cog author repo))
        = repo_subscribers (cmd_cog (subscribe_repo true file cog author repo))).
Proof.
  assert (Hround : forall subscribers : gmap string (gset Z),
             load_subscribers (Some (elements <$> subscribers)) = subscribers).
  { intros subscribers. simpl. apply map_eq. intros r.
    rewrite !lookup_fmap. destruct (subscribers !! r) as [s|]; simpl; [|done].
    f_equal. apply list_to_set_elements_L. }
  split; [intros subscribers file; apply Hround|].
  split; [|split].
  - intros file cog author repo Hmirror. split.
    + unfold subscribe_repo. destruct (valid_repo_format repo); simpl; [|done].
      destruct (repo_subscribers cog !! repo) as [current|] eqn:Hrepo.
      * rewrite Hrepo. simpl. case_bool_decide; simpl; [done|apply Hround].
      * rewrite lookup_insert_eq. simpl.
        rewrite bool_decide_eq_false_2 by apply not_elem_of_empty.
        apply Hround.
    + unfold unsubscribe_repo.
      destruct (repo_subscribers cog !! repo) as [current|]; [|done].
      case_bool_decide; simpl; [apply Hround|done].
  - intros file cog author repo Hmirror Hvalid Hnew. cbv zeta.
    assert (cmd_file (subscribe_repo false file cog author repo) = file) as Hfile.
    { unfold subscribe_repo. rewrite Hvalid. cbn [negb].
      by case_bool_decide. }
    rewrite Hfile, Hmirror, subscribe_repo_subscribers by done.
    rewrite lookup_insert_eq. cbn [default].
    assert (author ∈ default ∅ (repo_subscribers cog !! repo) ∪ {[author]})
      as Hin by (apply elem_of_union; right; by apply elem_of_singleton).
    split; [done|]. split; [done|].
    intros Heq. apply Hnew. rewrite Heq at 1.
    by rewrite lookup_insert_eq.
  - intros file cog author repo Hvalid Hnew.
    unfold subscribe_repo. rewrite Hvalid. cbn [negb].
    destruct (repo_subscribers cog !! repo) as [current|] eqn:Hrepo.
    + rewrite Hrepo. cbn [default] in *.
      rewrite bool_decide_eq_false_2 by done. apply Hround.
    + rewrite lookup_insert_eq. cbn [default].
      rewrite bool_decide_eq_false_2 by apply not_elem_of_empty.
      apply Hround.
Qed.

(** A subscription that lapses does not lose the watermark: when the only
    subscriber of a repository unsubscribes, a cycle of [feed_loop] runs
    (with or without a channel), and the author subscribes again, the
    repository has the watermark it had, so its next poll does not start
    cold. *)
Theorem watermark_survives_resubscription (api : Remote) (channel : option Channel)
    writable file cog author repo :
  valid_repo_format repo = true ->
  repo_subscribers cog !! repo = Some {[author]} ->
  let cog1 := cmd_cog (unsubscribe_repo writable file cog author repo) in
  let cog2 := (feed_loop api channel cog1).1 in
  let cog3 := cmd_cog (subscribe_repo writable file cog2 author repo) in
  repo_subscribers cog1 !! repo = None
  /\ last_event_ids cog3 !! repo = last_event_ids cog !! repo
  /\ is_polled cog3 repo = true.
Proof.
  intros Hvalid Hrepo. cbv zeta.
  assert (Hin : author ∈ ({[author]} : gset Z)) by (by apply elem_of_singleton).
  pose proof (unsubscribe_repo_subscribers writable file cog author repo _
                Hrepo Hin) as Hunsub.
  assert (({[author]} : gset Z) ∖ {[author]} = ∅) as Hempty.
  { apply set_eq. intros x. rewrite elem_of_difference, elem_of_singleton.
    split; [tauto|]. by intros ?%not_elem_of_empty. }
  rewrite bool_decide_eq_true_2 in Hunsub by done.
  destruct (unsubscribe_repo_frame writable file cog author repo) as [Hw _].
  set (cog1 := cmd_cog (unsubscribe_repo writable file cog author repo)) in *.
  assert (Hgone : repo_subscribers cog1 !! repo = None)
    by (by rewrite Hunsub, lookup_delete_eq).
  split; [done|]. split.
  - destruct (subscribe_repo_frame writable file
                (feed_loop api channel cog1).1 author repo) as [-> _].
    destruct channel as [channel|].
    + rewrite feed_loop_watermark. unfold is_polled. rewrite Hgone.
      by rewrite Hw.
    + rewrite feed_loop_no_channel. simpl. by rewrite Hw.
  - by apply subscribe_repo_polled.
Qed.

End SubscriptionStore.

(** ** cogs/github_feed.py: whole cycles *)

Section FeedCycles.
Variable api : Remote.
Implicit Types (cog : GitHubFeed) (channel : Channel) (repo : string).

Lemma is_polled_ext cog cog' repo :
  repo_subscribers cog' = repo_subscribers cog ->
  is_polled cog' repo = is_polled cog repo.
Proof. intros H. unfold is_polled. by rewrite H. Qed.

(** What one poll posts. *)
Lemma poll_repo_posts repo cog channel :
  exists posted,
    (poll_repo api repo cog channel).2 = (channel ++ posted)%list
    /\ (forall embed, embed ∈ posted -> title embed = "📂 " +:+ repo)
    /\ (forall events, fetch_repo_events api repo 5 = Ret events ->
                       (List.length posted <= List.length events)%nat)
    /\ ((exists e, fetch_repo_events api repo 5 = Raise e)
        \/ fetch_repo_events api repo 5 = Ret [] -> posted = []).
Proof.
  destruct (fetch_repo_events api repo 5) as [[|newest rest]|e] eqn:Hfetch.
  - exists []. rewrite poll_repo_nothing by eauto. simpl.
    rewrite app_nil_r. split; [done|].
    split; [by intros embed ?%elem_of_nil|].
    split; [intros events _; simpl; lia|done].
  - exists (create_event_embed repo
              <$> reverse (collect_new_events (last_event_ids cog !! repo)
                             (newest :: rest))).
    rewrite (poll_repo_fetched _ _ _ _ _ _ Hfetch). cbn [snd].
    rewrite post_events_snoc. split; [done|]. split; [|split].
    + intros embed (event & -> & _)%list_elem_of_fmap.
      apply create_event_embed_title.
    + intros events [= <-]. rewrite length_fmap, length_reverse.
      destruct (collect_new_events_prefix (last_event_ids cog !! repo)
                  (newest :: rest)) as [k ->].
      rewrite length_take. lia.
    + intros [[e' He']|Hnil]; congruence.
  - exists []. rewrite poll_repo_nothing by eauto. simpl.
    rewrite app_nil_r. split; [done|].
    split; [by intros embed ?%elem_of_nil|].
    split; [intros events _; simpl; lia|done].
Qed.

Lemma feed_steps_posts repos (st : GitHubFeed * Channel) :
  exists posted,
    (foldl (feed_step api) st repos).2 = (st.2 ++ posted)%list
    /\ forall embed, embed ∈ posted ->
         exists repo, repo ∈ repos /\ is_polled st.1 repo = true
                      /\ title embed = "📂 " +:+ repo.
Proof.
  revert st. induction repos as [|repo repos IH]; intros st; simpl.
  - exists []. rewrite app_nil_r. split; [done|]. by intros embed ?%elem_of_nil.
  - destruct (IH (feed_step api st repo)) as (posted & Hposted & Htitles).
    assert (Hstep : exists first,
               (feed_step api st repo).2 = (st.2 ++ first)%list
               /\ forall embed, embed ∈ first ->
                    is_polled st.1 repo = true /\ title embed = "📂 " +:+ repo).
    { destruct st as [cog channel]. unfold feed_step, is_polled. simpl.
      destruct (repo_subscribers cog !! repo) as [subscribers|].
      - case_bool_decide.
        + exists []. rewrite app_nil_r. split; [done|].
          by intros embed ?%elem_of_nil.
        + destruct (poll_repo_posts repo cog channel) as (first & Hfirst & Ht & _).
          exists first. split; [done|]. intros embed Hin. split; [done|].
          by apply Ht.
      - exists []. rewrite app_nil_r. split; [done|].
        by intros embed ?%elem_of_nil. }
    destruct Hstep as (first & Hfirst & Hfirst_titles).
    exists (first ++ posted)%list. split.
    + by rewrite Hposted, Hfirst, <- app_assoc.
    + intros embed [Hin|Hin]%elem_of_app.
      * destruct (Hfirst_titles embed Hin) as [Hp Ht].
        exists repo. split; [apply elem_of_cons; by left|done].
      * destruct (Htitles embed Hin) as (r & Hr & Hp & Ht).
        exists r. split; [apply elem_of_cons; by right|]. split; [|done].
        rewrite <- Hp. symmetry. apply is_polled_ext, feed_step_subscribers.
Qed.

(** A cycle of [feed_loop] only appends to the channel, and every embed it
    posts is titled with a repository that has subscribers: nothing is
    posted about a repository nobody subscribes to, and with no
    subscription at all nothing is posted.  One poll posts at most one
    embed per fetched event. *)
Theorem feed_loop_posts_for_subscribed cog channel :
  (exists posted,
     (feed_loop api (Some channel) cog).2 = Some (channel ++ posted)%list
     /\ (forall embed, embed ∈ posted ->
           exists repo, is_polled cog repo = true /\ title embed = "📂 " +:+ repo)
     /\ ((forall repo, is_polled cog repo = false) -> posted = []))
  /\ (forall repo, exists posted,
        (poll_repo api repo cog channel).2 = (channel ++ posted)%list
        /\ (forall events, fetch_repo_events api repo 5 = Ret events ->
                           (List.length posted <= List.length events)%nat)).
Proof.
  split.
  - unfold feed_loop.
    destruct (feed_steps_posts (map_to_list (repo_subscribers cog)).*1 (cog, channel))
      as (posted & Hposted & Htitles).
    destruct (foldl _ _ _) as [cog' channel'] eqn:Hfold. simpl in *.
    exists posted. subst channel'. split; [done|]. split.
    + intros embed Hin. destruct (Htitles embed Hin) as (repo & _ & Hp & Ht).
      by exists repo.
    + intros Hnone. destruct posted as [|embed posted]; [done|].
      destruct (Htitles embed) as (repo & _ & Hp & _); [apply elem_of_cons; by left|].
      by rewrite Hnone in Hp.
  - intros repo.
    destruct (poll_repo_posts repo cog channel) as (posted & Hposted & _ & Hlen & _).
    by exists posted.
Qed.

(** When every request is taken, a cycle leaves in memory what the cycle
    of the model without refusals leaves. *)
Lemma fallible_feed_loop_delivers delivers write cog outbox :
  delivers_from delivers (Fallible.requested outbox) ->
  exists cog1 outbox1,
    Fallible.feed_loop api delivers write (Some outbox) cog = (cog1, Some outbox1)
    /\ last_event_ids cog1
       = last_event_ids (feed_loop api (Some (Fallible.delivered outbox)) cog).1
    /\ repo_subscribers cog1 = repo_subscribers cog.
Proof.
  intros Hdelivers. unfold Fallible.feed_loop, feed_loop.
  pose proof (fallible_feed_steps_delivers api delivers
                (map_to_list (repo_subscribers cog)).*1 (cog, outbox) Hdelivers)
    as [Hcog _].
  pose proof (fallible_feed_steps_subscribers api delivers
                (map_to_list (repo_subscribers cog)).*1 (cog, outbox))
    as [Hsubscribers _].
  destruct (foldl (Fallible.feed_step api delivers) _ _) as [cog' outbox'].
  cbn [fst snd] in *. eexists _, _. split; [reflexivity|].
  cbn [Fallible.save_last_events last_event_ids repo_subscribers].
  split; [|done]. rewrite Hcog.
  by destruct (foldl (feed_step api) _ _) as [cog'' channel''].
Qed.

(** One step of the cycle changes nothing and asks nothing of the channel
    when the repository's watermark already is the id of the newest event
    fetched, and that id is not empty. *)
Lemma fallible_feed_step_settled delivers cog outbox repo :
  (forall newest rest,
     is_polled cog repo = true ->
     fetch_repo_events api repo 5 = Ret (newest :: rest) ->
     last_event_ids cog !! repo = Some (id newest) /\ id newest <> "") ->
  Fallible.feed_step api delivers (cog, outbox) repo = (cog, outbox).
Proof.
  intros Hsettled. unfold Fallible.feed_step.
  destruct (repo_subscribers cog !! repo) as [subscribers|] eqn:Hrepo; [|done].
  case_bool_decide as Hempty; [done|].
  assert (is_polled cog repo = true) as Hpolled.
  { unfold is_polled. rewrite Hrepo. by rewrite bool_decide_eq_false_2. }
  destruct (fetch_repo_events api repo 5) as [[|newest rest]|e] eqn:Hfetch.
  - apply fallible_poll_repo_nothing. eauto.
  - destruct (Hsettled newest rest Hpolled eq_refl) as [Hw Hid].
    unfold Fallible.poll_repo. rewrite Hfetch, Hw. cbn [truthy negb].
    cbn [collect_new_events]. rewrite at_watermark_true by done.
    rewrite bool_decide_eq_true_2 by done.
    cbn [Fallible.post_events reverse Fallible.post_each]. f_equal.
    apply feed_cog_eq; simpl; try done. by apply insert_id.
  - apply fallible_poll_repo_nothing. eauto.
Qed.

Lemma fallible_feed_steps_settled delivers repos cog outbox :
  (forall repo newest rest,
     is_polled cog repo = true ->
     fetch_repo_events api repo 5 = Ret (newest :: rest) ->
     last_event_ids cog !! repo = Some (id newest) /\ id newest <> "") ->
  foldl (Fallible.feed_step api delivers) (cog, outbox) repos = (cog, outbox).
Proof.
  intros Hsettled. induction repos as [|repo repos IH]; [done|].
  cbn [foldl]. rewrite fallible_feed_step_settled; [done|].
  intros newest rest. apply Hsettled.
Qed.

(** De-duplication across cycles holds when the posts go through, and
    only then.  If no newest fetched event has an empty id and every
    request of the first cycle is taken, a second cycle that fetches what
    the first one fetched asks nothing of the channel and leaves
    subscribers and watermarks as they are.  But a poll in which a post is
    refused keeps the old watermark, so the next poll of the same page
    posts again the events that had been delivered before the refusal. *)
Theorem feed_loop_second_cycle_silent delivers cog outbox :
  ((forall repo newest rest,
      is_polled cog repo = true ->
      fetch_repo_events api repo 5 = Ret (newest :: rest) -> id newest <> "") ->
   delivers_from delivers (Fallible.requested outbox) ->
   forall write delivers' write',
   exists cog1 outbox1 cog2,
     Fallible.feed_loop api delivers write (Some outbox) cog = (cog1, Some outbox1)
     /\ Fallible.feed_loop api delivers' write' (Some outbox1) cog1
        = (cog2, Some outbox1)
     /\ last_event_ids cog2 = last_event_ids cog1
     /\ repo_subscribers cog2 = repo_subscribers cog1)
  /\ (forall repo events e delivers',
        fetch_repo_events api repo 5 = Ret events ->
        (Fallible.post_events delivers repo
           (collect_new_events (last_event_ids cog !! repo) events) outbox).1
        = Raise e ->
        let failed := Fallible.poll_repo api delivers repo cog outbox in
        let again := Fallible.poll_repo api delivers' repo failed.1 failed.2 in
        let embeds :=
          create_event_embed repo
            <$> reverse (collect_new_events (last_event_ids cog !! repo) events) in
        delivers_from delivers' (Fallible.requested failed.2) ->
        failed.1 = cog
        /\ exists j,
             (j < List.length embeds)%nat
             /\ Fallible.delivered failed.2
                = (Fallible.delivered outbox ++ take j embeds)%list
             /\ Fallible.delivered again.2
                = (Fallible.delivered outbox ++ take j embeds ++ embeds)%list).
Proof.
  split.
  - intros Hids Hdelivers write delivers' write'.
    destruct (fallible_feed_loop_delivers delivers write cog outbox Hdelivers)
      as (cog1 & outbox1 & Hfirst & Hwatermarks & Hsubscribers).
    exists cog1, outbox1. eexists. split; [done|].
    unfold Fallible.feed_loop. rewrite fallible_feed_steps_settled.
    + split; [reflexivity|]. by split.
    + intros repo newest rest Hpolled Hfetch.
      rewrite (is_polled_ext cog cog1) in Hpolled by done.
      split; [|by eapply Hids].
      rewrite Hwatermarks, feed_loop_watermark, Hpolled.
      unfold polled_watermark. by rewrite Hfetch.
  - intros repo events e delivers' Hfetch Hrefused. cbv zeta. intros Hdelivers'.
    rewrite (fallible_poll_repo_refused _ _ _ _ _ _ _ Hfetch Hrefused).
    cbn [fst snd]. split; [done|].
    set (new_events := collect_new_events (last_event_ids cog !! repo) events) in *.
    unfold Fallible.post_events in *.
    destruct (post_each_outbox delivers repo (reverse new_events) outbox)
      as (j & _ & Hdelivered & _ & Hraise).
    destruct (Hraise e Hrefused) as (Hj & _ & _).
    exists j. rewrite length_fmap. split; [done|].
    rewrite <- fmap_take. split; [done|].
    destruct events as [|newest rest].
    { unfold new_events in Hj. simpl in Hj. lia. }
    assert (Fallible.post_each delivers' repo (reverse new_events)
              (Fallible.post_each delivers repo (reverse new_events) outbox).2
            = (Ret tt,
               {| Fallible.delivered :=
                    (Fallible.delivered
                       (Fallible.post_each delivers repo (reverse new_events) outbox).2
                     ++ (create_event_embed repo <$> reverse new_events))%list;
                  Fallible.requested :=
                    (Fallible.requested
                       (Fallible.post_each delivers repo (reverse new_events) outbox).2
                     + List.length (reverse new_events))%nat |}))
      as Hagain.
    { apply post_each_delivers.
      by rewrite (fallible_poll_repo_refused _ _ _ _ _ _ _ Hfetch Hrefused)
        in Hdelivers'. }
    rewrite (fallible_poll_repo_posted _ _ _ _ _ _ _ Hfetch);
      unfold Fallible.post_events; fold new_events; rewrite Hagain; [|done].
    cbn [snd Fallible.delivered]. by rewrite Hdelivered, <- app_assoc.
Qed.

End FeedCycles.

Lemma watermark_survives_resubscription_witness :
  let cog1 := cmd_cog (unsubscribe_repo true None watched_cog 1001 "octo/demo") in
  let cog2 := (feed_loop demo_api (Some []) cog1).1 in
  let cog3 := cmd_cog (subscribe_repo true None cog2 1001 "octo/demo") in
  repo_subscribers cog1 !! "octo/demo" = None
  /\ last_event_ids cog3 !! "octo/demo" = last_event_ids watched_cog !! "octo/demo"
  /\ is_polled cog3 "octo/demo" = true.
Proof.
  apply (watermark_survives_resubscription demo_api (Some []) true None
           watched_cog 1001 "octo/demo").
  - reflexivity.
  - reflexivity.
Defined.

Lemma feed_loop_second_cycle_silent_witness :
  (exists cog1 outbox1 cog2,
     Fallible.feed_loop demo_api always_delivers Fallible.Written
       (Some empty_outbox) watched_cog = (cog1, Some outbox1)
     /\ Fallible.feed_loop demo_api always_delivers Fallible.Written
          (Some outbox1) cog1 = (cog2, Some outbox1)
     /\ last_event_ids cog2 = last_event_ids cog1
     /\ repo_subscribers cog2 = repo_subscribers cog1)
  /\ (let failed :=
        Fallible.poll_repo demo_api refuses_second "octo/demo" watched_cog
          empty_outbox in
      let again :=
        Fallible.poll_repo demo_api always_delivers "octo/demo" failed.1 failed.2 in
      let embeds :=
        create_event_embed "octo/demo" <$> [push_event "E104"; push_event "E105"] in
      failed.1 = watched_cog
      /\ exists j,
           (j < List.length embeds)%nat
           /\ Fallible.delivered failed.2 = ([] ++ take j embeds)%list
           /\ Fallible.delivered again.2 = ([] ++ take j embeds ++ embeds)%list).
Proof.
  destruct (feed_loop_second_cycle_silent demo_api refuses_second watched_cog
              empty_outbox) as [_ Hagain].
  destruct (feed_loop_second_cycle_silent demo_api always_delivers watched_cog
              empty_outbox) as [Hsilent _].
  split.
  - apply Hsilent.
    + intros repo newest rest _ Hfetch.
      unfold fetch_repo_events, _make_request, demo_api in Hfetch.
      simpl in Hfetch.
      destruct (bool_decide (repo = "octo/demo")); simpl in Hfetch.
      * injection Hfetch as <- _. discriminate.
      * discriminate.
    + intros n _. reflexivity.
  - apply (Hagain "octo/demo" demo_events "Forbidden" always_delivers).
    + reflexivity.
    + reflexivity.
    + intros n _. reflexivity.
Defined.

(** ** cogs/roles.py: what a run changes and what it leaves alone *)

Section RoleRuns.
Variable api : Remote.
Variable clock : Clock.
Implicit Types (guild : Guild) (m : Member) (i : Z) (user_stats : list UserStats).

Lemma reconciled_member_display_name user_stats i m :
  display_name (foldl (open_source_effect i) (top_effect user_stats i m) user_stats)
  = display_name m.
Proof. by rewrite open_source_effects_display_name, top_effect_display_name. Qed.

Lemma ranked_ids_elem_of file i :
  i ∈ discord_id <$> sort_reverse stars_key (fetch_all_user_stats api clock file)
  <-> i ∈ (load_links file).*1.
Proof.
  rewrite <- (fetch_all_user_stats_ids api clock file).
  rewrite !list_elem_of_fmap. split; intros (x & -> & Hx); exists x; split; try done.
  - by apply sort_reverse_elem_of in Hx.
  - by apply sort_reverse_elem_of.
Qed.

(** A run of [update_github_roles] touches nothing but the two roles it
    manages: the guild has the same members with the same display names and
    the same text channels, no role of the guild is deleted, every other
    role is held by exactly the members that held it, and a member that has
    no link and did not hold the top role is left exactly as it was. *)
Theorem update_github_roles_frame (links_file : option (list (Z * string))) guild :
  exists run,
    update_github_roles api clock links_file (Some guild) = Some run
    /\ (forall i, is_Some (members (run_guild run) !! i)
                  <-> is_Some (members guild !! i))
    /\ (forall i m m', members guild !! i = Some m ->
                       members (run_guild run) !! i = Some m' ->
                       display_name m' = display_name m
                       /\ forall r, r <> top_role -> r <> os_role ->
                                    (r ∈ member_roles m' <-> r ∈ member_roles m))
    /\ text_channels (run_guild run) = text_channels guild
    /\ (forall r, r ∈ roles guild -> r ∈ roles (run_guild run))
    /\ (forall i m, members guild !! i = Some m ->
                    i ∉ (load_links links_file).*1 ->
                    top_role ∉ member_roles m ->
                    members (run_guild run) !! i = Some m).
Proof.
  destruct (update_github_roles_run api clock links_file guild)
    as (run & Hrun & Hguild & _).
  exists run. split; [done|]. rewrite Hguild.
  set (ranked := sort_reverse stars_key (fetch_all_user_stats api clock links_file)).
  split; [|split; [|split; [|split]]].
  - intros i. rewrite reconcile_roles_members. by rewrite fmap_is_Some.
  - intros i m m' Hm. rewrite reconcile_roles_members, Hm. simpl.
    intros [= <-]. split; [apply reconciled_member_display_name|].
    intros r Htop Hos. rewrite reconciled_member_roles.
    destruct (decide (r = os_role)); [done|]. by destruct (decide (r = top_role)).
  - apply reconcile_roles_text_channels.
  - intros r Hr. rewrite reconcile_roles_roles.
    by apply get_or_create_role_mono, get_or_create_role_mono.
  - intros i m Hm Hlink Htop. rewrite reconcile_roles_members, Hm. simpl.
    f_equal. apply member_eq; [apply reconciled_member_display_name|].
    intros r. rewrite reconciled_member_roles.
    assert (i ∉ discord_id <$> ranked) as Hranked.
    { unfold ranked. by rewrite ranked_ids_elem_of. }
    destruct (decide (r = os_role)) as [->|].
    + by rewrite filter_absent_key.
    + destruct (decide (r = top_role)) as [->|]; [|done].
      split; [|done]. intros Hin. destruct Hranked.
      apply list_elem_of_fmap in Hin as (x & -> & Hx).
      apply list_elem_of_fmap. exists x. split; [done|].
      by apply (subseteq_take 3).
Qed.

Lemma holders_NoDup role guild : NoDup (holders role guild).
Proof. apply NoDup_filter, member_ids_NoDup. Qed.

Lemma holders_elem_of role guild i :
  i ∈ holders role guild <-> has_role guild i role = true.
Proof.
  unfold holders. rewrite list_elem_of_filter, member_ids_elem_of.
  split; [tauto|]. intros Hrole. split; [done|].
  unfold has_role in Hrole. by destruct (members guild !! i).
Qed.

Lemma holders_bounded role guild (ids : list Z) :
  (forall i, has_role guild i role = true -> i ∈ ids) ->
  (List.length (holders role guild) <= List.length ids)%nat.
Proof.
  intros Hids. apply submseteq_length, NoDup_submseteq; [apply holders_NoDup|].
  intros i Hi. by apply Hids, holders_elem_of.
Qed.

(** The top role never has more than three holders: after
    [assign_top_contributor_roles], whatever the guild and the ranked list,
    and after a run of [update_github_roles], whoever held the role
    before. *)
Theorem top_role_at_most_three_holders :
  (forall guild user_stats,
     (List.length
        (holders top_role (assign_top_contributor_roles guild user_stats).1) <= 3)%nat)
  /\ (forall links_file guild,
        exists run,
          update_github_roles api clock links_file (Some guild) = Some run
          /\ (List.length (holders top_role (run_guild run)) <= 3)%nat).
Proof.
  assert (forall user_stats,
            (List.length (discord_id <$> take 3 user_stats) <= 3)%nat) as Hthree.
  { intros user_stats. rewrite length_fmap, length_take. lia. }
  split.
  - intros guild user_stats. etrans; [|apply (Hthree user_stats)].
    apply holders_bounded. intros i Hi.
    apply assign_top_contributor_roles_has_role in Hi.
    destruct (decide (top_role = top_role)); [|done]. by destruct Hi.
  - intros links_file guild.
    destruct (update_github_roles_run api clock links_file guild)
      as (run & Hrun & Hguild & _).
    exists run. split; [done|]. rewrite Hguild.
    set (ranked := sort_reverse stars_key (fetch_all_user_stats api clock links_file)).
    etrans; [|apply (Hthree ranked)].
    apply holders_bounded. intros i Hi. unfold reconcile_roles in Hi.
    rewrite assign_open_source_roles_other_role in Hi
      by apply top_role_neq_os_role.
    apply assign_top_contributor_roles_has_role in Hi.
    destruct (decide (top_role = top_role)); [|done]. by destruct Hi.
Qed.

Lemma open_source_step_settled (st : RoleState) (entry : UserStats) :
  (forall m, members st.1 !! discord_id entry = Some m ->
             (os_role ∈ member_roles m <-> meets_criteria (stats_of entry) = true)) ->
  open_source_step st entry = st.
Proof.
  intros Hsettled. unfold open_source_step.
  destruct (members st.1 !! discord_id entry) as [m|]; [|done].
  specialize (Hsettled m eq_refl).
  destruct (meets_criteria (stats_of entry)).
  - by rewrite bool_decide_eq_true_2 by (by apply Hsettled).
  - rewrite bool_decide_eq_false_2; [done|].
    intros Hin. by apply Hsettled in Hin.
Qed.

Lemma open_source_steps_settled user_stats (st : RoleState) :
  (forall entry m, entry ∈ user_stats ->
                   members st.1 !! discord_id entry = Some m ->
                   (os_role ∈ member_roles m
                    <-> meets_criteria (stats_of entry) = true)) ->
  foldl open_source_step st user_stats = st.
Proof.
  intros Hsettled. induction user_stats as [|entry user_stats IH]; [done|].
  cbn [foldl]. rewrite open_source_step_settled.
  - apply IH. intros e m He. apply Hsettled. by right.
  - intros m. apply Hsettled. by left.
Qed.

(** After the role loops have run on a ranked list without repeated ids,
    the contributor loop has nothing left to request on the resulting
    guild, with the top role replaced once more or not. *)
Lemma assign_open_source_roles_settled user_stats guild :
  NoDup (discord_id <$> user_stats) ->
  (assign_open_source_roles
     (assign_top_contributor_roles (reconcile_roles user_stats guild) user_stats).1
     user_stats).2 = [].
Proof.
  intros Hnodup. unfold assign_open_source_roles.
  rewrite open_source_steps_settled; [done|].
  intros entry m He. cbn [fst].
  rewrite get_or_create_role_members, assign_top_contributor_roles_members.
  rewrite reconcile_roles_members.
  destruct (members guild !! discord_id entry) as [m0|]; [|done].
  simpl. intros [= <-]. rewrite top_effect_roles.
  destruct (decide (os_role = top_role)) as [Heq|_];
    [by destruct top_role_neq_os_role|].
  rewrite reconciled_member_roles.
  destruct (decide (os_role = os_role)); [|done].
  by rewrite (filter_unique_key discord_id user_stats entry).
Qed.

(** A run on a guild that the previous run left settled still takes the
    top role from each of its holders and gives it back: these are its
    only requests.  It requests no change of the contributor role. *)
Theorem settled_run_only_replaces_top_role (links_file : option (list (Z * string)))
    guild :
  let ranked := sort_reverse stars_key (fetch_all_user_stats api clock links_file) in
  exists run1 run2,
    update_github_roles api clock links_file (Some guild) = Some run1
    /\ update_github_roles api clock links_file (Some (run_guild run1)) = Some run2
    /\ run_ops run2
       = (((fun i => RemoveRoles i top_role) <$> holders top_role (run_guild run1))
          ++ ((fun entry => AddRoles (discord_id entry) top_role)
                <$> filter (fun entry => is_Some (members guild !! discord_id entry))
                      (take 3 ranked)))%list
    /\ (forall i, has_role (run_guild run1) i top_role = true ->
                  RemoveRoles i top_role ∈ run_ops run2
                  /\ AddRoles i top_role ∈ run_ops run2)
    /\ (forall i, (RemoveRoles i os_role ∉ run_ops run2)
                  /\ (AddRoles i os_role ∉ run_ops run2)).
Proof.
  intros ranked.
  destruct (update_github_roles_run api clock links_file guild)
    as (run1 & Hrun1 & Hguild1 & _).
  destruct (update_github_roles_run api clock links_file (run_guild run1))
    as (run2 & Hrun2 & _ & Hops2).
  exists run1, run2. split; [done|]. split; [done|].
  fold ranked in Hguild1, Hops2.
  assert (run_ops run2
          = (((fun i => RemoveRoles i top_role) <$> holders top_role (run_guild run1))
             ++ ((fun entry => AddRoles (discord_id entry) top_role)
                   <$> filter (fun entry => is_Some (members guild !! discord_id entry))
                         (take 3 ranked)))%list) as Hops.
  { rewrite Hops2. rewrite Hguild1 at 2.
    rewrite assign_open_source_roles_settled by apply ranked_ids_NoDup.
    rewrite app_nil_r, assign_top_contributor_roles_ops. f_equal. f_equal.
    apply filter_ext_elem_of. intros entry _.
    by rewrite Hguild1, reconcile_roles_members, fmap_is_Some. }
  split; [done|]. rewrite Hops. split.
  - intros i Hi. rewrite !elem_of_app, !list_elem_of_fmap. split.
    + left. exists i. split; [done|]. by apply holders_elem_of.
    + right. rewrite Hguild1 in Hi. unfold reconcile_roles in Hi.
      rewrite assign_open_source_roles_other_role in Hi
        by apply top_role_neq_os_role.
      apply assign_top_contributor_roles_has_role in Hi.
      destruct (decide (top_role = top_role)); [|done].
      destruct Hi as [Hmember Hin].
      apply list_elem_of_fmap in Hin as (entry & -> & Hentry).
      exists entry. split; [done|]. by apply list_elem_of_filter.
  - intros i. rewrite !elem_of_app, !list_elem_of_fmap.
    split; intros [(x & Heq & _)|(x & Heq & _)]; try discriminate;
      injection Heq as _ Hrole; by destruct top_role_neq_os_role.
Qed.

End RoleRuns.

(** ** The leaderboards: when they post and what *)

Section Leaderboards.
Variable api : Remote.
Variable clock : Clock.
Implicit Types (guild : Guild) (user_stats : list UserStats)
  (links_file : option (list (Z * string))).

(** [post_daily_leaderboard] posts to "general" when the guild has it, to
    "github-updates" otherwise, and nowhere when it has neither.  What it
    posts always carries the title; the ranking field is there exactly
    when the ranked list is not empty. *)
Theorem post_daily_leaderboard_channel_and_field guild user_stats :
  ("general" ∈ text_channels guild ->
   exists embed, post_daily_leaderboard guild user_stats = Some ("general", embed))
  /\ ("general" ∉ text_channels guild -> "github-updates" ∈ text_channels guild ->
      exists embed,
        post_daily_leaderboard guild user_stats = Some ("github-updates", embed))
  /\ ("general" ∉ text_channels guild -> "github-updates" ∉ text_channels guild ->
      post_daily_leaderboard guild user_stats = None)
  /\ (forall channel embed,
        post_daily_leaderboard guild user_stats = Some (channel, embed) ->
        title embed = "🏆 Daily GitHub Leaderboard"
        /\ (fields embed = [] <-> user_stats = [])
        /\ (List.length (fields embed) <= 1)%nat).
Proof.
  unfold post_daily_leaderboard. split; [|split; [|split]].
  - intros Hgeneral. rewrite bool_decide_eq_true_2 by done. eauto.
  - intros Hgeneral Hupdates. rewrite bool_decide_eq_false_2 by done.
    rewrite bool_decide_eq_true_2 by done. eauto.
  - intros Hgeneral Hupdates. by rewrite !bool_decide_eq_false_2 by done.
  - intros channel embed Hpost.
    rewrite leaderboard_text_truthy in Hpost
      by (intros; apply stars_repos_line_nonempty).
    assert (truthy (take 10 user_stats) = truthy user_stats) as Htake
      by (by destruct user_stats).
    rewrite Htake in Hpost.
    destruct (if bool_decide ("general" ∈ text_channels guild)
              then Some "general"
              else if bool_decide ("github-updates" ∈ text_channels guild)
                   then Some "github-updates" else None); [|done].
    injection Hpost as _ <-.
    destruct user_stats as [|entry user_stats]; simpl.
    + split; [done|]. split; [done|lia].
    + split; [done|]. split; [|lia]. split; discriminate.
Qed.

Lemma rankings_embed_text title description shown (guild : option Guild) user_stats :
  user_stats <> [] -> shown <> 0%nat ->
  exists text,
    fields (rankings_embed title description shown guild user_stats)
    = [{| name := "🏆 Rankings"; value := text; inline := false |}]
    /\ str_truthy text = true.
Proof.
  intros Hstats Hshown. eexists. split; [reflexivity|].
  rewrite leaderboard_text_truthy by (intros; apply stars_line_nonempty).
  destruct user_stats, shown; done.
Qed.

(** [weekly_leaderboard] sends nothing without a channel or without a
    link, and otherwise exactly one embed, whose single field holds a
    ranking that is not empty - also when every fetch failed, since a
    failed fetch still yields an entry. *)
Theorem weekly_leaderboard_posts_once links_file (guild : option Guild) :
  weekly_leaderboard api clock links_file guild None = None
  /\ forall channel,
       (load_links links_file = [] ->
        weekly_leaderboard api clock links_file guild (Some channel) = Some channel)
       /\ (load_links links_file <> [] ->
           exists embed text,
             weekly_leaderboard api clock links_file guild (Some channel)
             = Some (channel ++ [embed])%list
             /\ title embed = "🏆 Weekly GitHub Leaderboard"
             /\ fields embed
                = [{| name := "🏆 Rankings"; value := text; inline := false |}]
             /\ str_truthy text = true).
Proof.
  split; [done|]. intros channel. unfold weekly_leaderboard.
  rewrite fetch_all_user_stats_truthy. split.
  - by intros ->.
  - intros Hlinks.
    assert (truthy (load_links links_file) = true) as ->
      by (by destruct (load_links links_file)).
    cbn [negb].
    destruct (rankings_embed_text "🏆 Weekly GitHub Leaderboard"
                "Top contributors this week" 10 guild
                (sort_reverse stars_key (fetch_all_user_stats api clock links_file)))
      as (text & Hfields & Htext); [|done|].
    { intros Hnil%truthy_false. rewrite ranked_truthy in Hnil.
      by apply truthy_false in Hnil. }
    eexists _, text. split; [reflexivity|]. by split.
Qed.

(** [monthly_leaderboard] replaces the top role only when it also posts:
    the role state changes exactly when there are a channel, a link and a
    guild.  Then at most three members hold the role and each has a
    link.  With a channel it sends one embed if there is a link, whether
    or not the guild is found, and none otherwise. *)
Theorem monthly_leaderboard_roles_and_post links_file (guild : option Guild)
    (channel : option Channel) :
  let out := monthly_leaderboard api clock links_file guild channel in
  (is_Some out.1
   <-> is_Some channel /\ load_links links_file <> [] /\ is_Some guild)
  /\ (forall st, out.1 = Some st ->
        (List.length (holders top_role st.1) <= 3)%nat
        /\ forall i, has_role st.1 i top_role = true ->
                     i ∈ (load_links links_file).*1)
  /\ (forall ch, channel = Some ch ->
        exists posted,
          out.2 = Some (ch ++ posted)%list
          /\ List.length posted
             = if decide (load_links links_file = []) then 0%nat else 1%nat)
  /\ (channel = None -> out.2 = None).
Proof.
  set (ranked := sort_reverse stars_key (fetch_all_user_stats api clock links_file)).
  assert (forall g ch, load_links links_file <> [] ->
            (monthly_leaderboard api clock links_file (Some g) (Some ch)).1
            = Some (assign_top_contributor_roles g ranked)) as Hroles.
  { intros g ch Hlinks. apply monthly_leaderboard_roles.
    rewrite fetch_all_user_stats_truthy. by destruct (load_links links_file). }
  cbv zeta. split; [|split; [|split]].
  - destruct channel as [ch|]; [|simpl; split; [by intros []|by intros [[] _]]].
    destruct (decide (load_links links_file = [])) as [Hnil|Hlinks].
    + unfold monthly_leaderboard. rewrite fetch_all_user_stats_truthy, Hnil.
      simpl. split; [by intros []|]. by intros (_ & ? & _).
    + destruct guild as [g|].
      * rewrite Hroles by done. split; [by eauto|]. by eauto.
      * unfold monthly_leaderboard. rewrite fetch_all_user_stats_truthy.
        destruct (load_links links_file); [done|]. simpl.
        split; [by intros []|]. by intros (_ & _ & []).
  - intros st Hst.
    destruct channel as [ch|]; [|done].
    destruct (decide (load_links links_file = [])) as [Hnil|Hlinks].
    { unfold monthly_leaderboard in Hst.
      by rewrite fetch_all_user_stats_truthy, Hnil in Hst. }
    destruct guild as [g|].
    + rewrite Hroles in Hst by done. injection Hst as <-.
      assert (forall i, has_role (assign_top_contributor_roles g ranked).1 i top_role
                        = true -> i ∈ discord_id <$> take 3 ranked) as Htop.
      { intros i Hi. apply assign_top_contributor_roles_has_role in Hi.
        destruct (decide (top_role = top_role)); [|done]. by destruct Hi. }
      split.
      * etrans; [apply (holders_bounded _ _ _ Htop)|].
        rewrite length_fmap, length_take. lia.
      * intros i Hi. apply Htop in Hi.
        apply (ranked_ids_elem_of api clock).
        apply list_elem_of_fmap in Hi as (x & -> & Hx).
        apply list_elem_of_fmap. exists x. split; [done|].
        by apply (subseteq_take 3).
    + unfold monthly_leaderboard in Hst.
      rewrite fetch_all_user_stats_truthy in Hst.
      by destruct (load_links links_file).
  - intros ch ->. unfold monthly_leaderboard.
    rewrite fetch_all_user_stats_truthy.
    destruct (decide (load_links links_file = [])) as [Hnil|Hlinks].
    + rewrite Hnil. simpl. exists []. by rewrite app_nil_r.
    + assert (truthy (load_links links_file) = true) as ->
        by (by destruct (load_links links_file)).
      simpl. unfold send. by eexists [_].
  - by intros ->.
Qed.

(** The two leaderboard commands answer alike: without a link both say
    that no data is available; with one, both show the first ten of the
    ranking in one field with the same text, which is also the text that
    [post_daily_leaderboard] posts for the same guild and ranking. *)
Theorem leaderboard_commands_show_same_ranking links_file guild :
  let ranked := sort_reverse stars_key (fetch_all_user_stats api clock links_file) in
  (load_links links_file = [] ->
   github_leaderboard api clock links_file guild
   = [Text "📊 Fetching GitHub leaderboard..."; Text "❌ No GitHub data available!"]
   /\ show_leaderboard api clock links_file guild
      = [Text "📊 Fetching leaderboard data..."; Text "❌ No GitHub data available!"])
  /\ (load_links links_file <> [] ->
      exists embed1 embed2 text,
        github_leaderboard api clock links_file guild
        = [Text "📊 Fetching GitHub leaderboard..."; Rich embed1]
        /\ show_leaderboard api clock links_file guild
           = [Text "📊 Fetching leaderboard data..."; Rich embed2]
        /\ value <$> fields embed1 = [text]
        /\ value <$> fields embed2 = [text]
        /\ str_truthy text = true
        /\ forall channel embed,
             post_daily_leaderboard guild ranked = Some (channel, embed) ->
             value <$> fields embed = [text]).
Proof.
  intros ranked. unfold github_leaderboard, show_leaderboard.
  rewrite fetch_all_user_stats_truthy. split.
  - by intros ->.
  - intros Hlinks.
    assert (truthy (load_links links_file) = true) as Htruthy
      by (by destruct (load_links links_file)).
    rewrite Htruthy. cbn [negb]. fold ranked.
    assert (str_truthy (leaderboard_text
                          (imap (stars_repos_line (Some guild)) (take 10 ranked)))
            = true) as Htext.
    { rewrite leaderboard_text_truthy by (intros; apply stars_repos_line_nonempty).
      pose proof (ranked_truthy api clock links_file) as Hranked. fold ranked in Hranked.
      rewrite Htruthy in Hranked. by destruct ranked. }
    eexists _, _, _. split; [reflexivity|]. split; [reflexivity|].
    split; [reflexivity|]. split; [reflexivity|]. split; [exact Htext|].
    intros channel embed. unfold post_daily_leaderboard. rewrite Htext.
    destruct (if bool_decide ("general" ∈ text_channels guild)
              then Some "general"
              else if bool_decide ("github-updates" ∈ text_channels guild)
                   then Some "github-updates" else None); [|done].
    by intros [= _ <-].
Qed.

End Leaderboards.

(** ** cogs/verify.py: the verification flow *)

Section Verify.
Implicit Types (guild : Guild) (m : Member) (i member : Z) (email : string)
  (pending : Pending) (env : VerifyEnv).

Lemma add_roles_members i role guild j :
  members (add_roles i role guild) !! j
  = if decide (j = i) then with_role role <$> members guild !! j
    else members guild !! j.
Proof.
  unfold add_roles. simpl. destruct (decide (j = i)) as [->|Hne].
  - by rewrite lookup_alter_eq.
  - by rewrite lookup_alter_ne.
Qed.

Lemma grant_if_missing_members role member (st : Guild * list RoleOp * list string) i :
  members (grant_if_missing role member st).1.1 !! i
  = if decide (i = member) then with_role role <$> members st.1.1 !! i
    else members st.1.1 !! i.
Proof.
  destruct st as [[guild ops] roles_assigned]. unfold grant_if_missing.
  rewrite get_or_create_role_has_role.
  destruct (has_role guild member role) eqn:Hrole; cbn [negb fst].
  - rewrite get_or_create_role_members.
    destruct (decide (i = member)) as [->|]; [|done].
    apply has_role_true in Hrole as (m & -> & Hm). simpl.
    by rewrite with_role_present.
  - by rewrite add_roles_members, get_or_create_role_members.
Qed.

Lemma grant_if_missing_frame role member (st : Guild * list RoleOp * list string) :
  roles (grant_if_missing role member st).1.1 = roles (get_or_create_role role st.1.1)
  /\ text_channels (grant_if_missing role member st).1.1 = text_channels st.1.1.
Proof.
  destruct st as [[guild ops] roles_assigned]. unfold grant_if_missing.
  destruct (negb _); cbn [fst]; simpl;
    by rewrite get_or_create_role_text_channels.
Qed.

Lemma grant_if_missing_log role member (st : Guild * list RoleOp * list string) :
  (grant_if_missing role member st).1.2
  = (st.1.2 ++ if has_role st.1.1 member role then []
               else [AddRoles member role])%list
  /\ (grant_if_missing role member st).2
     = (st.2 ++ if has_role st.1.1 member role then [] else [role])%list.
Proof.
  destruct st as [[guild ops] roles_assigned]. unfold grant_if_missing.
  rewrite get_or_create_role_has_role. cbn [fst snd].
  destruct (has_role guild member role); simpl; by rewrite ?app_nil_r.
Qed.

Lemma lnmiit_neq_batch email : "lnmiit" <> batch_role_name email.
Proof. done. Qed.

Lemma assign_roles_unfold member guild email :
  assign_roles member guild email
  = let st := grant_if_missing (batch_role_name email) member
                (grant_if_missing "lnmiit" member (guild, [], [])) in
    (st.1.1, st.1.2, success_embed st.2).
Proof.
  unfold assign_roles.
  by destruct (grant_if_missing (batch_role_name email) member _) as [[? ?] ?].
Qed.

Lemma assign_roles_members member guild email i :
  members (assign_roles member guild email).1.1 !! i
  = if decide (i = member)
    then (fun m => with_role (batch_role_name email) (with_role "lnmiit" m))
           <$> members guild !! i
    else members guild !! i.
Proof.
  rewrite assign_roles_unfold. cbn [fst].
  rewrite !grant_if_missing_members. cbn [fst].
  destruct (decide (i = member)); [|done]. by rewrite <- option_fmap_compose.
Qed.

Lemma assign_roles_has_role member guild email i r :
  has_role (assign_roles member guild email).1.1 i r = true
  <-> has_role guild i r = true
      \/ (i = member /\ is_Some (members guild !! member)
          /\ (r = "lnmiit" \/ r = batch_role_name email)).
Proof.
  rewrite !has_role_true. setoid_rewrite assign_roles_members.
  destruct (decide (i = member)) as [->|Hne].
  - destruct (members guild !! member) as [m0|]; simpl.
    + split.
      * intros (m & [= <-] & Hr).
        rewrite !elem_of_with_role in Hr.
        destruct Hr as [[Hr|Hr]|Hr]; [left; eauto|right|right];
          split; try done; split; eauto.
      * intros H. eexists. split; [done|]. rewrite !elem_of_with_role.
        destruct H as [(m & [= <-] & Hr)|(_ & _ & [Hr|Hr])]; tauto.
    + split; [by intros (m & ? & _)|].
      intros [(m & ? & _)|(_ & [m ?] & _)]; done.
  - split; [by left|]. by intros [?|[? _]].
Qed.

Lemma assign_roles_roles member guild email :
  "lnmiit" ∈ roles (assign_roles member guild email).1.1
  /\ batch_role_name email ∈ roles (assign_roles member guild email).1.1.
Proof.
  rewrite assign_roles_unfold. cbn [fst].
  destruct (grant_if_missing_frame (batch_role_name email) member
              (grant_if_missing "lnmiit" member (guild, [], []))) as [-> _].
  split; [|apply get_or_create_role_elem_of].
  apply get_or_create_role_mono.
  destruct (grant_if_missing_frame "lnmiit" member (guild, [], [])) as [-> _].
  apply get_or_create_role_elem_of.
Qed.

Lemma assign_roles_log member guild email :
  (assign_roles member guild email).1.2
  = ((if has_role guild member "lnmiit" then [] else [AddRoles member "lnmiit"])
     ++ (if has_role guild member (batch_role_name email) then []
         else [AddRoles member (batch_role_name email)]))%list
  /\ (assign_roles member guild email).2
     = success_embed
         ((if has_role guild member "lnmiit" then [] else ["lnmiit"])
          ++ (if has_role guild member (batch_role_name email) then []
              else [batch_role_name email]))%list.
Proof.
  rewrite assign_roles_unfold. cbn [fst snd].
  destruct (grant_if_missing_log (batch_role_name email) member
              (grant_if_missing "lnmiit" member (guild, [], []))) as [-> ->].
  destruct (grant_if_missing_log "lnmiit" member (guild, [], [])) as [-> ->].
  cbn [fst snd].
  assert (has_role (grant_if_missing "lnmiit" member (guild, [], [])).1.1 member
            (batch_role_name email)
          = has_role guild member (batch_role_name email)) as ->; [|done].
  unfold has_role. rewrite grant_if_missing_members. cbn [fst].
  destruct (decide (member = member)); [|done].
  destruct (members guild !! member) as [m|]; [|done]. simpl.
  apply bool_decide_ext. rewrite elem_of_union, elem_of_singleton.
  split; [|tauto]. intros [?|Heq]; [done|].
  by destruct (lnmiit_neq_batch email).
Qed.

(** [assign_roles] gives a member of the guild the role "lnmiit" and the
    batch role named after the first two characters of the address, and
    changes no other role and no other member.  It requests only the roles
    the member did not hold, reports "No new roles" exactly when it
    requested none, and a second call requests none. *)
Theorem assign_roles_grants_and_reports member guild email :
  is_Some (members guild !! member) ->
  let out := assign_roles member guild email in
  has_role out.1.1 member "lnmiit" = true
  /\ has_role out.1.1 member (batch_role_name email) = true
  /\ "lnmiit" ∈ roles out.1.1
  /\ batch_role_name email ∈ roles out.1.1
  /\ (forall i r, i <> member \/ (r <> "lnmiit" /\ r <> batch_role_name email) ->
                  has_role out.1.1 i r = has_role guild i r)
  /\ out.1.2
     = ((if has_role guild member "lnmiit" then [] else [AddRoles member "lnmiit"])
        ++ (if has_role guild member (batch_role_name email) then []
            else [AddRoles member (batch_role_name email)]))%list
  /\ (out.1.2 = [] <-> out.2 = success_embed [])
  /\ assign_roles member out.1.1 email = (out.1.1, [], success_embed []).
Proof.
  intros Hmember. cbv zeta.
  assert (has_role (assign_roles member guild email).1.1 member "lnmiit" = true)
    as Hlnmiit by (apply assign_roles_has_role; right; eauto).
  assert (has_role (assign_roles member guild email).1.1 member
            (batch_role_name email) = true)
    as Hbatch by (apply assign_roles_has_role; right; eauto).
  destruct (assign_roles_roles member guild email) as [Hrole1 Hrole2].
  destruct (assign_roles_log member guild email) as [Hops Hembed].
  split; [done|]. split; [done|]. split; [done|]. split; [done|].
  split; [|split; [done|split]].
  - intros i r Hother. apply Bool.eq_iff_eq_true.
    rewrite assign_roles_has_role. split; [|by left].
    intros [?|(-> & _ & Hr)]; [done|]. destruct Hother as [?|[? ?]]; [done|].
    by destruct Hr.
  - rewrite Hops, Hembed.
    destruct (has_role guild member "lnmiit"),
      (has_role guild member (batch_role_name email)); simpl;
      split; try done; intros [=].
  - set (guild1 := (assign_roles member guild email).1.1) in *.
    destruct (assign_roles_log member guild1 email) as [Hops1 Hembed1].
    rewrite Hlnmiit, Hbatch in Hops1, Hembed1. simpl in Hops1, Hembed1.
    destruct (assign_roles member guild1 email) as [[guild2 ops2] embed2] eqn:Hout.
    simpl in Hops1, Hembed1. subst ops2 embed2. f_equal. f_equal.
    assert (guild2 = (assign_roles member guild1 email).1.1) as ->
      by (by rewrite Hout).
    rewrite assign_roles_unfold. cbn [fst]. unfold grant_if_missing.
    rewrite (get_or_create_role_present "lnmiit") by done.
    rewrite Hlnmiit. cbn [negb].
    rewrite (get_or_create_role_present (batch_role_name email)) by done.
    by rewrite Hbatch.
Qed.











(** Verification is not repeated: once [assign_roles] has run for a member
    of the guild, a reaction of that member - whatever the message, the
    emoji and the pending verifications - starts no new flow.  The guild
    and the pending verifications stay as they are, no role change is
    requested, and the only message the member can get is that they are
    already verified. *)
Theorem verified_member_is_not_asked_again env (bot_user : Z)
    (verify_msg_id : option Z) pending guild member email (payload : Reaction) :
  is_Some (members guild !! member) ->
  user_id payload = member ->
  let verified := (assign_roles member guild email).1.1 in
  let out := on_raw_reaction_add env bot_user verify_msg_id pending verified payload in
  ver_guild out = verified
  /\ ver_ops out = []
  /\ ver_pending out = pending
  /\ (ver_dms out = [] \/ ver_dms out = [Text "✅ You are already verified!"])
  /\ (ver_dms out <> [] ->
      member <> bot_user /\ verify_msg_id = Some (message_id payload)
      /\ emoji payload = "✅" /\ dm_open env = true).
Proof.
  intros [m Hm] Huser. cbv zeta. unfold on_raw_reaction_add.
  case_bool_decide as Hbot; [simpl; by repeat (split; [by auto|])|].
  destruct verify_msg_id as [verify_msg_id|]; [|simpl; by repeat (split; [by auto|])].
  destruct (decide (message_id payload = verify_msg_id)) as [Hmsg|Hmsg].
  2: { rewrite (bool_decide_eq_false_2 _ Hmsg). simpl. by repeat (split; [by auto|]). }
  rewrite (bool_decide_eq_true_2 _ Hmsg).
  destruct (decide (emoji payload = "✅")) as [Hemoji|Hemoji].
  2: { rewrite (bool_decide_eq_false_2 _ Hemoji). simpl. by repeat (split; [by auto|]). }
  rewrite (bool_decide_eq_true_2 _ Hemoji). cbn [negb orb].
  rewrite Huser, assign_roles_members, Hm.
  destruct (decide (member = member)); [|done]. cbn [fmap option_fmap option_map].
  destruct (assign_roles_roles member guild email) as [Hrole _].
  rewrite (bool_decide_eq_true_2 _ Hrole).
  rewrite bool_decide_eq_true_2.
  2: { rewrite !elem_of_with_role. by left; right. }
  cbn [andb ver_guild ver_ops ver_pending ver_dms].
  split; [done|]. split; [done|]. split; [done|].
  destruct (dm_open env); split; auto.
  - intros _. subst. by repeat split.
  - done.
Qed.

End Verify.

Lemma assign_roles_grants_and_reports_witness :
  let out := assign_roles 1002 demo_guild "23ucc123@lnmiit.ac.in" in
  has_role out.1.1 1002 "lnmiit" = true
  /\ has_role out.1.1 1002 "Y23" = true
  /\ "lnmiit" ∈ roles out.1.1
  /\ "Y23" ∈ roles out.1.1
  /\ (forall i r, i <> 1002 \/ (r <> "lnmiit" /\ r <> "Y23") ->
                  has_role out.1.1 i r = has_role demo_guild i r)
  /\ out.1.2 = [AddRoles 1002 "lnmiit"; AddRoles 1002 "Y23"]
  /\ (out.1.2 = [] <-> out.2 = success_embed [])
  /\ assign_roles 1002 out.1.1 "23ucc123@lnmiit.ac.in"
     = (out.1.1, [], success_embed [])
  /\ batch_role_name "é3ucc@lnmiit.ac.in" = "Yé3".
Proof.
  split; [|split; [|split; [|split; [|split; [|split; [|split; [|split]]]]]]];
    [apply (assign_roles_grants_and_reports 1002 demo_guild
              "23ucc123@lnmiit.ac.in"); by eexists..|reflexivity].
Defined.

Lemma verified_member_is_not_asked_again_witness :
  let verified := (assign_roles 1002 demo_guild "23ucc123@lnmiit.ac.in").1.1 in
  let out :=
    on_raw_reaction_add honest_env 1 (Some 77) ∅ verified
      {| user_id := 1002; message_id := 77; emoji := "✅" |} in
  ver_guild out = verified
  /\ ver_ops out = []
  /\ ver_pending out = ∅
  /\ (ver_dms out = [] \/ ver_dms out = [Text "✅ You are already verified!"])
  /\ (ver_dms out <> [] ->
      1002 <> 1 /\ Some 77 = Some 77 /\ "✅" = "✅" /\ dm_open honest_env = true).
Proof.
  apply (verified_member_is_not_asked_again honest_env 1 (Some 77) ∅ demo_guild
           1002 "23ucc123@lnmiit.ac.in"
           {| user_id := 1002; message_id := 77; emoji := "✅" |}).
  - by eexists.
  - reflexivity.
Defined.

